(** * enclaude: mount authorization, credential collection and exit policy

    A shallow embedding of the security-relevant core of enclaude:
    - [internal/security/mounts.go]  (ExpandPath, ValidateMountPath,
      ValidateMountPathStrict, pathMatches, expandTilde, PathExists ...)
    - [internal/credentials]         (CollectClaudeAuth,
      CollectExternalCredentials, collectSSHCredentials, shouldEnable)
    - [internal/cli]                 (the mount assembly of runContainer)
    - [internal/container]           (Mount, RunOptions; the control path and
      exit handling of Runner.Run; the create request it builds)
    - [internal/cli], config and setup (validateConfigKey, getConfigPath,
      detectClaudeAuth, the prompts of the setup wizard, runSetup)

    Go strings are modelled as [string]; the functions of Go's standard
    library that the code calls (strings.HasPrefix, path/filepath.Clean,
    Join, Rel, Base, IsAbs for Unix, os.Getenv, os.UserHomeDir) are
    transcribed in the modules [strings], [filepath] and [os] below. *)

From Stdlib Require Import Ascii String ZArith Lia Bool List.
From Stdlib Require Import DecimalString DecimalZ.
From stdpp Require Import base option list strings gmap.

Local Open Scope Z_scope.
Local Open Scope stdpp_scope.

(** ** Errors

    A Go [error] value.  [os.IsNotExist] only recognises errors that come from
    the operating system, so the model keeps the errno apart from the
    message-only errors built by [errors.New] and [fmt.Errorf]. *)

Inductive errno : Set := ENOENT | EACCES | ELOOP | ENOTDIR | EIO.

Inductive error : Set :=
| errorString (msg : string)              (* errors.New, fmt.Errorf without %w *)
| pathError (op path : string) (e : errno) (* *fs.PathError from a system call  *)
| wrapError (msg : string) (inner : error) (* fmt.Errorf("msg: %w", inner)      *).

Definition errno_text (e : errno) : string :=
  match e with
  | ENOENT => "no such file or directory"
  | EACCES => "permission denied"
  | ELOOP => "too many levels of symbolic links"
  | ENOTDIR => "not a directory"
  | EIO => "input/output error"
  end.

(** The method [err.Error()]. *)
Fixpoint Error (e : error) : string :=
  match e with
  | errorString msg => msg
  | pathError op path e => op +:+ " " +:+ path +:+ ": " +:+ errno_text e
  | wrapError msg inner => msg +:+ ": " +:+ Error inner
  end.

(** A Go result pair [(T, error)]. *)
Inductive result (T : Type) : Type :=
| Ok (v : T)
| Err (e : error).
Arguments Ok {T} v.
Arguments Err {T} e.

Definition is_Ok {T} (r : result T) : bool :=
  match r with Ok _ => true | Err _ => false end.

(** ** Package strings *)

Module strings.

(** [strings.HasPrefix(s, prefix)] *)
Definition HasPrefix (s pre : string) : bool := String.prefix pre s.

(** The slice expression [s[n:]] for [n <= len(s)]. *)
Fixpoint drop (n : nat) (s : string) : string :=
  match n, s with
  | O, _ => s
  | S n', String _ s' => drop n' s'
  | S _, EmptyString => EmptyString
  end.

(** [strings.Contains(s, substr)] *)
Definition Contains (s substr : string) : bool :=
  match String.index 0 substr s with
  | Some _ => true
  | None => false
  end.

(** [strings.Join(elems, sep)] *)
Fixpoint Join (elems : list string) (sep : string) : string :=
  match elems with
  | [] => ""
  | [e] => e
  | e :: rest => e +:+ sep +:+ Join rest sep
  end.

End strings.

(** ** Package path/filepath (Unix: separator '/', no volume names) *)

Module filepath.

Definition Separator : ascii := "/"%char.
Definition dot : ascii := "."%char.

Definition isSep (c : ascii) : bool := Ascii.eqb c Separator.
Definition isDot (c : ascii) : bool := Ascii.eqb c dot.

(** [span_elem s] splits [s] at its first separator: the path element
    [s[0:i]] and the rest [s[i:]], which is empty or starts with '/'.
    It is the inner loop [for i < n && s[i] != Separator { i++ }]. *)
Fixpoint span_elem (s : list ascii) : list ascii * list ascii :=
  match s with
  | [] => ([], [])
  | c :: s' =>
      if isSep c then ([], s)
      else let '(e, r) := span_elem s' in (c :: e, r)
  end.

(** [at_elem_end s]: the read position is at the end of the path or at a
    separator ([r == n || os.IsPathSeparator(path[r])]). *)
Definition at_elem_end (s : list ascii) : bool :=
  match s with
  | [] => true
  | c :: _ => isSep c
  end.

(** The backtracking of Clean on a ".." element:
    [out.w--; for out.w > dotdot && !isSep(out.index(out.w)) { out.w-- }].
    [backtrack_w buf w dotdot] runs the [for] loop from index [w]. *)
Fixpoint backtrack_w (buf : list ascii) (w dotdot : nat) : nat :=
  match w with
  | O => O
  | S w' =>
      if (dotdot <? w)%nat && negb (isSep (nth w buf Separator))
      then backtrack_w buf w' dotdot
      else w
  end.

Definition backtrack (buf : list ascii) (dotdot : nat) : list ascii :=
  firstn (backtrack_w buf (length buf - 1) dotdot) buf.

(** The main loop of Clean.  [rest] is [path[r:]], [out] the bytes written
    so far (so [out.w = length out]) and [dotdot] the index where ".." must
    stop.  Every iteration consumes at least one byte of [rest], so
    [length path] iterations are enough. *)
Fixpoint clean_loop (fuel : nat) (rooted : bool) (rest out : list ascii)
         (dotdot : nat) : list ascii :=
  match fuel with
  | O => out
  | S fuel' =>
      match rest with
      | [] => out
      | c :: rest1 =>
          if isSep c then
            (* empty path element *)
            clean_loop fuel' rooted rest1 out dotdot
          else if isDot c && at_elem_end rest1 then
            (* . element *)
            clean_loop fuel' rooted rest1 out dotdot
          else if isDot c && match rest1 with
                             | c1 :: rest2 => isDot c1 && at_elem_end rest2
                             | [] => false
                             end then
            (* .. element: remove to last separator *)
            let rest2 := tl rest1 in
            if (dotdot <? length out)%nat then
              clean_loop fuel' rooted rest2 (backtrack out dotdot) dotdot
            else if negb rooted then
              let out1 := if (0 <? length out)%nat
                          then out ++ [Separator] else out in
              let out2 := out1 ++ [dot; dot] in
              clean_loop fuel' rooted rest2 out2 (length out2)
            else
              clean_loop fuel' rooted rest2 out dotdot
          else
            (* real path element: add slash if needed, copy element *)
            let out1 :=
              if (rooted && negb (length out =? 1)%nat)
                 || (negb rooted && negb (length out =? 0)%nat)
              then out ++ [Separator] else out in
            let '(e, rest') := span_elem rest in
            clean_loop fuel' rooted rest' (out1 ++ e) dotdot
      end
  end.

Definition clean_bytes (path : list ascii) : list ascii :=
  match path with
  | [] => [dot]
  | c :: _ =>
      let rooted := isSep c in
      let out :=
        if rooted
        then clean_loop (length path) true (tl path) [Separator] 1
        else clean_loop (length path) false path [] 0 in
      match out with
      | [] => [dot]
      | _ => out
      end
  end.

(** [filepath.Clean] *)
Definition Clean (path : string) : string :=
  string_of_list_ascii (clean_bytes (list_ascii_of_string path)).

(** [filepath.IsAbs] *)
Definition IsAbs (path : string) : bool := strings.HasPrefix path "/".

(** [filepath.Join]: the leading empty elements are dropped, the others
    are joined with the separator and the result is cleaned. *)
Fixpoint Join (elem : list string) : string :=
  match elem with
  | [] => ""
  | e :: rest =>
      if String.eqb e "" then Join rest
      else Clean (strings.Join elem "/")
  end.

(** The element-wise comparison loop of Rel.  [b] is [base[b0:]] and [t] is
    [targ[t0:]]; the result is [(base[b0:], base[b0:bi], targ[t0:])] at the
    exit of the loop. *)
Fixpoint rel_loop (fuel : nat) (b t : list ascii)
  : list ascii * list ascii * list ascii :=
  match fuel with
  | O => (b, [], t)
  | S fuel' =>
      match b, t with
      | [], _ | _, [] => (b, [], t)
      | _, _ =>
          let '(eb, b') := span_elem b in
          let '(et, t') := span_elem t in
          if bool_decide (et = eb)
          then rel_loop fuel' (tl b') (tl t')
          else (b, eb, t)
      end
  end.

Definition count_sep (s : list ascii) : nat :=
  length (filter (fun c => isSep c = true) s).

Fixpoint dotdots (n : nat) : list ascii :=
  match n with
  | O => []
  | S n' => Separator :: dot :: dot :: dotdots n'
  end.

Definition rel_error (basepath targpath : string) : error :=
  errorString ("Rel: can't make " +:+ targpath +:+ " relative to " +:+ basepath).

(** [filepath.Rel] *)
Definition Rel (basepath targpath : string) : result string :=
  let base := clean_bytes (list_ascii_of_string basepath) in
  let targ := clean_bytes (list_ascii_of_string targpath) in
  if bool_decide (targ = base) then Ok "."
  else
    let base := if bool_decide (base = [dot]) then [] else base in
    let baseSlashed := match base with c :: _ => isSep c | [] => false end in
    let targSlashed := match targ with c :: _ => isSep c | [] => false end in
    if negb (eqb baseSlashed targSlashed) then Err (rel_error basepath targpath)
    else
      let '(b0, eb, t0) := rel_loop (S (length base)) base targ in
      if bool_decide (eb = [dot; dot]) then Err (rel_error basepath targpath)
      else
        match b0 with
        | _ :: _ =>
            (* base elements left: go up before going down *)
            let up := [dot; dot] ++ dotdots (count_sep b0) in
            Ok (string_of_list_ascii
                  (match t0 with
                   | [] => up
                   | _ => up ++ Separator :: t0
                   end))
        | [] => Ok (string_of_list_ascii t0)
        end.

(** The last index of a separator in [s], if any. *)
Fixpoint after_last_sep (s : list ascii) : option (list ascii) :=
  match s with
  | [] => None
  | c :: s' =>
      match after_last_sep s' with
      | Some r => Some r
      | None => if isSep c then Some s' else None
      end
  end.

Fixpoint strip_trailing_sep (s : list ascii) : list ascii :=
  match s with
  | [] => []
  | c :: s' =>
      match strip_trailing_sep s' with
      | [] => if isSep c then [] else [c]
      | r => c :: r
      end
  end.

(** [filepath.Base] *)
Definition Base (path : string) : string :=
  match list_ascii_of_string path with
  | [] => "."
  | p =>
      let p1 := strip_trailing_sep p in
      let p2 := match after_last_sep p1 with Some r => r | None => p1 end in
      match p2 with
      | [] => "/"
      | _ => string_of_list_ascii p2
      end
  end.

End filepath.

(** ** Package os: the host the program runs on

    Everything the code reads from its host: the process environment, the
    working directory, [os.Stat] and symlink resolution.  The code only
    probes the host, it never changes it, so a [World] is a read-only
    value. *)

Record World : Type := mkWorld {
  environ : gmap string string;             (* the process environment     *)
  getwd : result string;                    (* os.Getwd()                  *)
  stat : string -> result bool;             (* os.Stat(p): Ok (IsDir())    *)
  evalSymlinks : string -> result string;   (* filepath.EvalSymlinks(p)    *)
}.

Module os.

(** [os.Getenv]: the empty string when the variable is not present. *)
Definition Getenv (w : World) (key : string) : string :=
  default "" (environ w !! key).

(** [os.LookupEnv] *)
Definition LookupEnv (w : World) (key : string) : option string :=
  environ w !! key.

(** [os.UserHomeDir] on Unix: the value of $HOME, an error when empty. *)
Definition UserHomeDir (w : World) : result string :=
  let v := Getenv w "HOME" in
  if negb (String.eqb v "") then Ok v
  else Err (errorString "$HOME is not defined").

(** [os.IsNotExist] looks at the errno of a system-call error; it does not
    unwrap [fmt.Errorf] wrappers. *)
Definition IsNotExist (e : error) : bool :=
  match e with
  | pathError _ _ ENOENT => true
  | _ => false
  end.

End os.

(** ** Package security (internal/security/mounts.go) *)

Module security.

(** HardcodedDeniedPaths are ALWAYS blocked and cannot be overridden *)
Definition HardcodedDeniedPaths : list string :=
  [ "~/.gnupg"; "~/.netrc"; "~/.docker/config.json"; "~/.kube/config";
    "~/.aws/credentials" ].

(** CredentialControlledPaths are blocked unless explicitly configured *)
Definition CredentialControlledPaths : list string :=
  [ "~/.ssh"; "~/.aws"; "~/.config/gh"; "~/.config/gcloud" ].

(** The errors of ExpandPath. *)
Definition errEmptyPath : error := errorString "empty path".
Definition errHomeDir (e : error) : error :=
  wrapError "failed to get home directory" e.
Definition errGetwd (e : error) : error :=
  wrapError "failed to get current directory" e.
Definition errResolve (e : error) : error :=
  wrapError "failed to resolve path" e.

(** The two authorization failures. *)
Definition PathDenied (rule : string) : error :=
  errorString ("path is in hardcoded denied list: " +:+ rule).
Definition PathRequiresCredential (rule : string) : error :=
  errorString ("path requires explicit credential configuration: " +:+ rule).

(** The first part of ExpandPath, up to the symlink resolution: expand ~,
    clean and make absolute. *)
Definition absPath (w : World) (path : string) : result string :=
  if String.eqb path "" then Err errEmptyPath
  else
    (* Expand ~ *)
    let expanded : result string :=
      if strings.HasPrefix path "~/" then
        match os.UserHomeDir w with
        | Err e => Err (errHomeDir e)
        | Ok home => Ok (filepath.Join [home; strings.drop 2 path])
        end
      else if String.eqb path "~" then
        match os.UserHomeDir w with
        | Err e => Err (errHomeDir e)
        | Ok home => Ok home
        end
      else Ok path in
    match expanded with
    | Err e => Err e
    | Ok path =>
        (* Clean and make absolute *)
        let path := filepath.Clean path in
        if negb (filepath.IsAbs path) then
          match getwd w with
          | Err e => Err (errGetwd e)
          | Ok cwd => Ok (filepath.Join [cwd; path])
          end
        else Ok path
    end.

(** ExpandPath expands ~ to the user's home directory and cleans the path *)
Definition ExpandPath (w : World) (path : string) : result string :=
  match absPath w path with
  | Err e => Err e
  | Ok path =>
      (* Resolve symlinks *)
      match evalSymlinks w path with
      | Err e =>
          (* Path may not exist yet, which is okay *)
          if os.IsNotExist e then Ok path
          else Err (errResolve e)
      | Ok resolved => Ok resolved
      end
  end.

Definition expandTilde (path home : string) : string :=
  if strings.HasPrefix path "~/" then filepath.Join [home; strings.drop 2 path]
  else if String.eqb path "~" then home
  else path.

(** pathMatches checks if path is equal to or a child of target *)
Definition pathMatches (path target : string) : bool :=
  (* Exact match *)
  if String.eqb path target then true
  else
    (* Check if path is a child of target using filepath.Rel *)
    match filepath.Rel target path with
    | Err _ => false
    | Ok rel =>
        (* If relative path starts with "..", path is not under target *)
        negb (strings.HasPrefix rel "..")
    end.

(** The loop [for _, rule := range rules { if pathMatches(...) { return
    mkErr(rule) } }]: the first matching rule, if any. *)
Fixpoint firstMatch (path home : string) (rules : list string) : option string :=
  match rules with
  | [] => None
  | rule :: rest =>
      if pathMatches path (expandTilde rule home) then Some rule
      else firstMatch path home rest
  end.

(** ValidateMountPath checks if a path is allowed to be mounted.
    [None] is Go's nil error. *)
Definition ValidateMountPath (w : World) (path : string) : option error :=
  match os.UserHomeDir w with
  | Err e => Some (errHomeDir e)
  | Ok home =>
      (* Check against hardcoded denied paths *)
      match firstMatch path home HardcodedDeniedPaths with
      | Some denied => Some (PathDenied denied)
      | None => None
      end
  end.

(** ValidateMountPathStrict checks against both hardcoded and
    credential-controlled paths.  Use this for user-provided mounts that
    aren't going through credential handling *)
Definition ValidateMountPathStrict (w : World) (path : string) : option error :=
  match ValidateMountPath w path with
  | Some e => Some e
  | None =>
      match os.UserHomeDir w with
      | Err e => Some (errHomeDir e)
      | Ok home =>
          (* Check against credential-controlled paths *)
          match firstMatch path home CredentialControlledPaths with
          | Some controlled => Some (PathRequiresCredential controlled)
          | None => None
          end
      end
  end.

(** IsPathInDirectory checks if path is inside directory *)
Definition IsPathInDirectory (path directory : string) : bool :=
  pathMatches path directory.

(** PathExists checks if a path exists and matches the expected type. *)
Definition PathExists (w : World) (path : string) (expectDir : bool) : bool :=
  match stat w path with
  | Err _ => false
  | Ok isDir => eqb isDir expectDir
  end.

Definition FileExists (w : World) (path : string) : bool :=
  PathExists w path false.

Definition DirExists (w : World) (path : string) : bool :=
  PathExists w path true.

End security.

(** ** Well-formed absolute paths

    The paths that ExpandPath hands to the validation are cleaned absolute
    paths: a separator followed by names joined with separators, where a
    name is a non-empty string without separator other than "." and "..".
    They are described here by their list of names. *)

Module abspath.

Import filepath.

(** No separator occurs in [e]. *)
Definition noSep (e : list ascii) : bool :=
  forallb (fun c => negb (isSep c)) e.

(** A name: a path element that Clean keeps as it is. *)
Definition isName (e : list ascii) : bool :=
  match e with
  | [] => false
  | _ => noSep e
         && negb (bool_decide (e = [dot]))
         && negb (bool_decide (e = [dot; dot]))
  end.

(** The names joined with separators. *)
Fixpoint join (es : list (list ascii)) : list ascii :=
  match es with
  | [] => []
  | [e] => e
  | e :: es' => e ++ Separator :: join es'
  end.

(** The absolute path with the names [es]; the root for no name. *)
Definition abs_bytes (es : list (list ascii)) : list ascii :=
  Separator :: join es.

Definition absolute (es : list (list ascii)) : string :=
  string_of_list_ascii (abs_bytes es).

(** The name starts with two dots, as "..keys" does. *)
Definition dotdotPrefixed (e : list ascii) : bool :=
  match e with
  | c1 :: c2 :: _ => isDot c1 && isDot c2
  | _ => false
  end.

(** Drop the longest common prefix of two lists of names. *)
Fixpoint strip_common (bs ts : list (list ascii))
  : list (list ascii) * list (list ascii) :=
  match bs, ts with
  | b :: bs', t :: ts' =>
      if bool_decide (t = b) then strip_common bs' ts' else (bs, ts)
  | _, _ => (bs, ts)
  end.

(** [covers esR esP]: the path [esP] is the rule [esR], or lies below it
    with a first name under the rule that does not start with two dots. *)
Definition covers (esR esP : list (list ascii)) : Prop :=
  esP = esR ∨ ∃ e rest, esP = esR ++ e :: rest ∧ dotdotPrefixed e = false.

(** The names of [security.HardcodedDeniedPaths] below the home directory. *)
Definition hardDeniedElems : list (list (list ascii)) :=
  [ [list_ascii_of_string ".gnupg"];
    [list_ascii_of_string ".netrc"];
    [list_ascii_of_string ".docker"; list_ascii_of_string "config.json"];
    [list_ascii_of_string ".kube"; list_ascii_of_string "config"];
    [list_ascii_of_string ".aws"; list_ascii_of_string "credentials"] ].

(** The names of /home/u, the home directory of the sample hosts. *)
Definition home_u : list (list ascii) :=
  [list_ascii_of_string "home"; list_ascii_of_string "u"].

End abspath.

(** ** Package config (internal/config) *)

Module config.

(** Authentication modes *)
Definition AuthAuto : string := "auto".
Definition AuthSession : string := "session".
Definition AuthAPIKey : string := "api-key".

(** Credential settings *)
Definition CredentialAuto : string := "auto".
Definition CredentialEnabled : string := "enabled".
Definition CredentialDisabled : string := "disabled".

(** Session directory settings *)
Definition SessionNone : string := "none".
Definition SessionReadOnly : string := "readonly".
Definition SessionReadWrite : string := "readwrite".

Record MountEntry : Type := mkMountEntry {
  Path : string;
  ReadOnly : bool;
}.

Record MountsConfig : Type := mkMountsConfig {
  Defaults : list MountEntry;
}.

Record ClaudeConfig : Type := mkClaudeConfig {
  Auth : string;        (* auto, session, api-key *)
  SessionDir : string;  (* none, readonly, readwrite *)
}.

Record SSHConfig : Type := mkSSHConfig {
  Enabled : bool;
  Keys : list string;
  KnownHosts : bool;
  AgentForwarding : bool;
}.

Record CredentialsConfig : Type := mkCredentialsConfig {
  GitHub : string;  (* auto, enabled, disabled *)
  GCloud : string;  (* auto, enabled, disabled *)
  SSH : SSHConfig;
}.

Record EnvironmentConfig : Type := mkEnvironmentConfig {
  Passthrough : list string;
  Custom : gmap string string;
}.

Record ContainerConfig : Type := mkContainerConfig {
  User : string;
  MemoryLimit : string;
  Network : string;
}.

Record SecurityConfig : Type := mkSecurityConfig {
  DropCapabilities : bool;
  NoNewPrivileges : bool;
  ReadOnlyRoot : bool;
  CACerts : list string;
}.

Record ImageConfig : Type := mkImageConfig {
  Name : string;
}.

Record Config : Type := mkConfig {
  Image : ImageConfig;
  Mounts : MountsConfig;
  Claude : ClaudeConfig;
  Credentials : CredentialsConfig;
  Environment : EnvironmentConfig;
  Container : ContainerConfig;
  Security : SecurityConfig;
}.

End config.

(** ** Package container: types (internal/container) *)

Module container.

(** Mount represents a bind mount configuration *)
Record Mount : Type := mkMount {
  Source : string;   (* Host path *)
  Target : string;   (* Container path *)
  ReadOnly : bool;
}.

Record SecurityOptions : Type := mkSecurityOptions {
  DropCapabilities : bool;
  NoNewPrivileges : bool;
  ReadOnlyRoot : bool;
  CACerts : list string;
}.

(** RunOptions configures container execution *)
Record RunOptions : Type := mkRunOptions {
  Image : string;
  Mounts : list Mount;
  Environment : gmap string string;
  ClaudeArgs : list string;
  WorkDir : string;
  User : string;
  MemoryLimit : string;
  Network : string;
  Security : SecurityOptions;
}.

End container.

(** ** Package credentials (internal/credentials) *)

Module credentials.

Import container.

(** What a collector has gathered so far: the local variables [mounts] and
    [env] of the Go functions. *)
Definition contribution : Type := list Mount * gmap string string.

Definition no_contribution : contribution := ([], ∅).

(** The local variable [auth] of CollectClaudeAuth:
    [auth := cfg.Claude.Auth; if auth == "" { auth = config.AuthAuto }]. *)
Definition authMode (cfg : config.Config) : string :=
  let auth := config.Auth (config.Claude cfg) in
  if String.eqb auth "" then config.AuthAuto else auth.

(** The local variable [sessionDir] of CollectClaudeAuth:
    [sessionDir := cfg.Claude.SessionDir;
     if sessionDir == "" { sessionDir = config.SessionReadOnly }]. *)
Definition sessionDirMode (cfg : config.Config) : string :=
  let sessionDir := config.SessionDir (config.Claude cfg) in
  if String.eqb sessionDir "" then config.SessionReadOnly else sessionDir.

(** CollectClaudeAuth handles Claude Code authentication based on config.
    Returns mounts for ~/.claude session directory and environment
    variables for API key. *)
Definition CollectClaudeAuth (w : World) (cfg : config.Config) : contribution :=
  match os.UserHomeDir w with
  | Err _ => no_contribution
  | Ok home =>
      let auth := authMode cfg in
      (* Handle API key *)
      let env : gmap string string :=
        if String.eqb auth config.AuthAuto || String.eqb auth config.AuthAPIKey
        then
          let key := os.Getenv w "ANTHROPIC_API_KEY" in
          if negb (String.eqb key "") then <["ANTHROPIC_API_KEY" := key]> ∅
          else ∅
        else ∅ in
      (* Handle session directory *)
      let mounts : list Mount :=
        if String.eqb auth config.AuthAuto || String.eqb auth config.AuthSession
        then
          let sessionDir := sessionDirMode cfg in
          if negb (String.eqb sessionDir config.SessionNone) then
            let claudePath := filepath.Join [home; ".claude"] in
            if security.DirExists w claudePath then
              [ {| Source := claudePath;
                   Target := "/tmp/.claude";
                   ReadOnly := String.eqb sessionDir config.SessionReadOnly |} ]
            else []
          else []
        else [] in
      (mounts, env)
  end.

(** The loop of the auto case of shouldEnable. *)
Fixpoint anyEnvSet (w : World) (envVars : list string) : bool :=
  match envVars with
  | [] => false
  | v :: rest =>
      if negb (String.eqb (os.Getenv w v) "") then true
      else anyEnvSet w rest
  end.

(** shouldEnable determines if a credential should be enabled based on
    config and presence *)
Definition shouldEnable (w : World) (setting : string)
           (envVars : list string) : bool :=
  if String.eqb setting config.CredentialEnabled then true
  else if String.eqb setting config.CredentialDisabled then false
  else if String.eqb setting config.CredentialAuto then
    (* Auto-detect: enabled if any of the env vars are set *)
    if anyEnvSet w envVars then true
    else true (* Default to trying to pass through *)
  else true (* Default to auto behavior *).

(** The "GitHub credentials" block of CollectExternalCredentials. *)
Definition collectGitHub (w : World) (home : string) (setting : string)
           (acc : contribution) : contribution :=
  let '(mounts, env) := acc in
  if shouldEnable w setting ["GH_TOKEN"; "GITHUB_TOKEN"] then
    (* Try environment variable first *)
    if negb (String.eqb (os.Getenv w "GH_TOKEN") "") then
      (mounts, <["GH_TOKEN" := os.Getenv w "GH_TOKEN"]> env)
    else if negb (String.eqb (os.Getenv w "GITHUB_TOKEN") "") then
      (mounts, <["GH_TOKEN" := os.Getenv w "GITHUB_TOKEN"]> env)
    else
      (* Try mounting gh config *)
      let ghConfigPath := filepath.Join [home; ".config"; "gh"; "hosts.yml"] in
      if security.FileExists w ghConfigPath then
        (mounts ++ [ {| Source := ghConfigPath;
                        Target := "/root/.config/gh/hosts.yml";
                        ReadOnly := true |} ], env)
      else (mounts, env)
  else (mounts, env).

Definition gcloudTarget : string :=
  "/root/.config/gcloud/application_default_credentials.json".

(** The "Google Cloud ADC" block of CollectExternalCredentials. *)
Definition collectGCloud (w : World) (home : string) (setting : string)
           (acc : contribution) : contribution :=
  let '(mounts, env) := acc in
  if shouldEnable w setting ["GOOGLE_APPLICATION_CREDENTIALS"] then
    let adcPath :=
      filepath.Join [home; ".config"; "gcloud";
                     "application_default_credentials.json"] in
    let '(mounts, env) :=
      if security.FileExists w adcPath then
        (mounts ++ [ {| Source := adcPath; Target := gcloudTarget;
                        ReadOnly := true |} ],
         (* Set the env var to point to the mounted location *)
         <["GOOGLE_APPLICATION_CREDENTIALS" := gcloudTarget]> env)
      else (mounts, env) in
    (* Also check for explicit GOOGLE_APPLICATION_CREDENTIALS path *)
    let customPath := os.Getenv w "GOOGLE_APPLICATION_CREDENTIALS" in
    if negb (String.eqb customPath "") && security.FileExists w customPath then
      (mounts ++ [ {| Source := customPath; Target := gcloudTarget;
                      ReadOnly := true |} ],
       <["GOOGLE_APPLICATION_CREDENTIALS" := gcloudTarget]> env)
    else (mounts, env)
  else (mounts, env).

(** The key loop of collectSSHCredentials. *)
Fixpoint sshKeyMounts (w : World) (keys : list string) : list Mount :=
  match keys with
  | [] => []
  | keyPath :: rest =>
      match security.ExpandPath w keyPath with
      | Err _ => sshKeyMounts w rest  (* Skip keys with expansion errors *)
      | Ok expanded =>
          if security.FileExists w expanded then
            let keyName := filepath.Base expanded in
            {| Source := expanded;
               Target := filepath.Join ["/root/.ssh"; keyName];
               ReadOnly := true |} :: sshKeyMounts w rest
          else sshKeyMounts w rest
      end
  end.

Definition collectSSHCredentials (w : World) (cfg : config.Config)
           (home : string) : contribution :=
  let ssh := config.SSH (config.Credentials cfg) in
  (* Mount specific SSH keys (read-only) *)
  let mounts := sshKeyMounts w (config.Keys ssh) in
  (* Mount known_hosts if configured *)
  let mounts :=
    if config.KnownHosts ssh then
      let knownHostsPath := filepath.Join [home; ".ssh"; "known_hosts"] in
      if security.FileExists w knownHostsPath then
        mounts ++ [ {| Source := knownHostsPath;
                       Target := "/root/.ssh/known_hosts";
                       ReadOnly := true |} ]
      else mounts
    else mounts in
  (* SSH agent forwarding *)
  if config.AgentForwarding ssh then
    let authSock := os.Getenv w "SSH_AUTH_SOCK" in
    if negb (String.eqb authSock "") then
      (mounts ++ [ {| Source := authSock;
                      Target := "/tmp/ssh-agent.sock";
                      ReadOnly := false |} ],
       <["SSH_AUTH_SOCK" := "/tmp/ssh-agent.sock"]> ∅)
    else (mounts, ∅)
  else (mounts, ∅).

(** The "SSH credentials (explicit opt-in)" block.  [for k, v := range
    sshEnv { env[k] = v }] overwrites: the union prefers [sshEnv]. *)
Definition collectSSH (w : World) (home : string) (cfg : config.Config)
           (acc : contribution) : contribution :=
  let '(mounts, env) := acc in
  if config.Enabled (config.SSH (config.Credentials cfg)) then
    let '(sshMounts, sshEnv) := collectSSHCredentials w cfg home in
    (mounts ++ sshMounts, sshEnv ∪ env)
  else (mounts, env).

(** CollectExternalCredentials gathers external service credentials
    (GitHub, GCloud, SSH). *)
Definition CollectExternalCredentials (w : World) (cfg : config.Config)
  : result contribution :=
  match os.UserHomeDir w with
  | Err e => Err e
  | Ok home =>
      let acc := no_contribution in
      let acc := collectGitHub w home (config.GitHub (config.Credentials cfg)) acc in
      let acc := collectGCloud w home (config.GCloud (config.Credentials cfg)) acc in
      let acc := collectSSH w home cfg acc in
      Ok acc
  end.

End credentials.

(** ** Package cli: runContainer (internal/cli)

    The part of runContainer that turns flags and configuration into the
    [RunOptions] handed to [Runner.Run].  The warnings written to standard
    error for skipped default mounts and CA certificates are not modelled. *)

Module cli.

Import container.

Record Flags : Type := mkFlags {
  workdir : string;                  (* --workdir *)
  mount : list string;               (* --mount, repeatable *)
  mount_ro : list string;            (* --mount-ro, repeatable *)
  no_external_credentials : bool;    (* --no-external-credentials *)
  image : string;                    (* --image *)
}.

(** The %q verb on a string: strconv.Quote.  A double quote and a backslash
    get a backslash in front, a printable ASCII byte is copied, the control
    bytes 7 to 13 become \a \b \t \n \v \f \r, and any other byte below
    0x20 and the byte 0x7f become \x followed by two lower-case hex digits.
    A byte from 0x80 on is copied: that is what %q does inside the UTF-8
    encoding of a printable rune.  So the text is the program's for every
    string of ASCII bytes ([isASCII]), and for the others when they are
    printable UTF-8 text. *)
Definition backslash : ascii := ascii_of_nat 92.

Definition lowerhex (n : nat) : ascii :=
  nth n (list_ascii_of_string "0123456789abcdef") "0"%char.

Definition quoteByte (c : ascii) : string :=
  let n := nat_of_ascii c in
  if ((n =? 34) || (n =? 92))%nat then String backslash (String c "")
  else if ((32 <=? n) && (n <? 127))%nat then String c ""
  else
    match n with
    | 7%nat => String backslash "a"
    | 8%nat => String backslash "b"
    | 12%nat => String backslash "f"
    | 10%nat => String backslash "n"
    | 13%nat => String backslash "r"
    | 9%nat => String backslash "t"
    | 11%nat => String backslash "v"
    | _ =>
        if (n <? 128)%nat then
          String backslash
            (String "x" (String (lowerhex (n / 16))
                           (String (lowerhex (n mod 16)) "")))
        else String c ""
    end.

Fixpoint quoteBytes (s : string) : string :=
  match s with
  | EmptyString => ""
  | String c s' => quoteByte c +:+ quoteBytes s'
  end.

Definition quote (s : string) : string :=
  String (ascii_of_nat 34) (quoteBytes s +:+ String (ascii_of_nat 34) "").

(** Every byte of the string is an ASCII byte. *)
Fixpoint isASCII (s : string) : bool :=
  match s with
  | EmptyString => true
  | String c s' => (nat_of_ascii c <? 128)%nat && isASCII s'
  end.

(** The loops over the --mount and --mount-ro flags: the first path that
    does not expand or is denied aborts the run. *)
Fixpoint flagMounts (w : World) (readOnly : bool) (ms : list string)
  : result (list Mount) :=
  match ms with
  | [] => Ok []
  | m :: rest =>
      match security.ExpandPath w m with
      | Err e => Err (wrapError ("invalid mount path " +:+ quote m) e)
      | Ok expanded =>
          match security.ValidateMountPath w expanded with
          | Some e => Err (wrapError ("mount path denied " +:+ quote m) e)
          | None =>
              match flagMounts w readOnly rest with
              | Err e => Err e
              | Ok mounts =>
                  Ok ({| Source := expanded; Target := expanded;
                         ReadOnly := readOnly |} :: mounts)
              end
          end
      end
  end.

(** The loop over the default mounts of the configuration: a path that
    does not expand or is denied is skipped. *)
Fixpoint defaultMounts (w : World) (dms : list config.MountEntry) : list Mount :=
  match dms with
  | [] => []
  | dm :: rest =>
      match security.ExpandPath w (config.Path dm) with
      | Err _ => defaultMounts w rest
      | Ok expanded =>
          match security.ValidateMountPath w expanded with
          | Some _ => defaultMounts w rest
          | None =>
              {| Source := expanded; Target := expanded;
                 ReadOnly := config.ReadOnly dm |} :: defaultMounts w rest
          end
      end
  end.

(** Passthrough environment variables from config *)
Fixpoint passthroughEnv (w : World) (keys : list string)
         (env : gmap string string) : gmap string string :=
  match keys with
  | [] => env
  | key :: rest =>
      match os.LookupEnv w key with
      | Some val => passthroughEnv w rest (<[key := val]> env)
      | None => passthroughEnv w rest env
      end
  end.

(** Expand and validate CA certificate paths *)
Fixpoint caCertPaths (w : World) (certs : list string) : list string :=
  match certs with
  | [] => []
  | certPath :: rest =>
      match security.ExpandPath w certPath with
      | Err _ => caCertPaths w rest
      | Ok expanded =>
          match security.ValidateMountPath w expanded with
          | Some _ => caCertPaths w rest
          | None =>
              match stat w expanded with
              | Err e =>
                  if os.IsNotExist e then caCertPaths w rest
                  else expanded :: caCertPaths w rest
              | Ok _ => expanded :: caCertPaths w rest
              end
          end
      end
  end.

Definition runContainer (w : World) (cfg : config.Config) (flags : Flags)
           (args : list string) : result RunOptions :=
  (* Get working directory *)
  let workDir : result string :=
    if String.eqb (workdir flags) "" then
      match getwd w with
      | Err e => Err (wrapError "failed to get current directory" e)
      | Ok d => Ok d
      end
    else Ok (workdir flags) in
  match workDir with
  | Err e => Err e
  | Ok workDir =>
  (* Expand and validate working directory *)
  match security.ExpandPath w workDir with
  | Err e => Err (wrapError "invalid working directory" e)
  | Ok workDir =>
  (* Build mount configuration *)
  let mounts := [ {| Source := workDir; Target := "/workspace";
                     ReadOnly := false |} ] in
  (* Add additional mounts from flags *)
  match flagMounts w false (mount flags) with
  | Err e => Err e
  | Ok extra =>
  let mounts := mounts ++ extra in
  (* Add read-only mounts *)
  match flagMounts w true (mount_ro flags) with
  | Err e => Err e
  | Ok ro =>
  let mounts := mounts ++ ro in
  (* Add default mounts from config *)
  let mounts := mounts ++ defaultMounts w (config.Defaults (config.Mounts cfg)) in
  (* Build environment variables *)
  let env := passthroughEnv w (config.Passthrough (config.Environment cfg)) ∅ in
  let env := config.Custom (config.Environment cfg) ∪ env in
  (* Handle Claude authentication *)
  let '(claudeMounts, claudeEnv) := credentials.CollectClaudeAuth w cfg in
  let mounts := mounts ++ claudeMounts in
  let env := claudeEnv ∪ env in
  (* Handle external credentials (unless disabled by flag) *)
  let ext : result credentials.contribution :=
    if negb (no_external_credentials flags) then
      match credentials.CollectExternalCredentials w cfg with
      | Err e => Err (wrapError "failed to collect credentials" e)
      | Ok (extMounts, extEnv) => Ok (mounts ++ extMounts, extEnv ∪ env)
      end
    else Ok (mounts, env) in
  match ext with
  | Err e => Err e
  | Ok (mounts, env) =>
  (* Get image name *)
  let imageName :=
    if String.eqb (image flags) "" then config.Name (config.Image cfg)
    else image flags in
  Ok {| Image := imageName;
        Mounts := mounts;
        Environment := env;
        ClaudeArgs := args;
        WorkDir := "/workspace";
        User := config.User (config.Container cfg);
        MemoryLimit := config.MemoryLimit (config.Container cfg);
        Network := config.Network (config.Container cfg);
        Security :=
          {| DropCapabilities := config.DropCapabilities (config.Security cfg);
             NoNewPrivileges := config.NoNewPrivileges (config.Security cfg);
             ReadOnlyRoot := config.ReadOnlyRoot (config.Security cfg);
             CACerts := caCertPaths w (config.CACerts (config.Security cfg)) |} |}
  end end end end end.

End cli.

(** ** Package container: Runner.Run (internal/container)

    The control path of Run against the container engine.  The engine's
    answers are given by an [Engine] value; the relays (goroutines) are not
    modelled, only which case of the final [select] fires.  Run returns its
    error ([None] for nil) and the engine calls it made, in order, with the
    deferred calls at the end. *)

Module runner.

(** The %d verb. *)
Definition fmt_d (n : Z) : string := NilEmpty.string_of_int (Z.to_int n).

(** [context.Canceled] *)
Definition Canceled : error := errorString "context canceled".

(** The case of the final select that fires, with the value received and
    what [ctx.Err()] returns there. *)
Inductive selectCase : Type :=
| recvErr (err : option error) (ctxErr : option error) (* err := <-errCh       *)
| recvStatus (StatusCode : Z)                          (* status := <-statusCh *)
| ctxDone (ctxErr : error).                            (* <-ctx.Done()         *)

Record Engine : Type := mkEngine {
  RAMInBytes : string -> result Z;     (* units.RAMInBytes             *)
  IsTerminal : bool;                   (* term.IsTerminal(stdin)       *)
  ContainerCreate : result string;     (* the container ID             *)
  ContainerAttach : option error;
  ContainerStart : option error;
  SetRawTerminal : option error;
  ContainerWait : selectCase;
}.

Inductive call : Set :=
| Create | Attach | Start | Resize | SetRaw | Wait | Stop
| RestoreTerminal | AttachClose | Remove.

Definition errExit (StatusCode : Z) : error :=
  errorString ("container exited with code " +:+ fmt_d StatusCode).

(** The final select of Run: wait for the container to exit. *)
Definition waitExit (c : selectCase) : option error * list call :=
  match c with
  | recvErr err ctxErr =>
      match err, ctxErr with
      | Some e, None => (Some (wrapError "error waiting for container" e), [])
      | _, _ => (None, [])
      end
  | recvStatus StatusCode =>
      if negb (StatusCode =? 0)
      then (Some (errExit StatusCode), [])
      else (None, [])
  | ctxDone ctxErr =>
      (* Context cancelled (Ctrl+C or signal), stop the container *)
      (Some ctxErr, [Stop])
  end.

Definition Run (eng : Engine) (opts : container.RunOptions)
  : option error * list call :=
  (* Parse memory limit *)
  let mem : option error :=
    if negb (String.eqb (container.MemoryLimit opts) "") then
      match RAMInBytes eng (container.MemoryLimit opts) with
      | Err e =>
          Some (wrapError ("invalid memory limit "
                           +:+ cli.quote (container.MemoryLimit opts)) e)
      | Ok _ => None
      end
    else None in
  match mem with
  | Some e => (Some e, [])
  | None =>
  (* Create the container *)
  match ContainerCreate eng with
  | Err e =>
      (* Check if image needs to be pulled *)
      if strings.Contains (Error e) "No such image" then
        (Some (errorString
                 ("image " +:+ cli.quote (container.Image opts)
                  +:+ " not found; run 'enclaude build' first or pull the image")),
         [Create])
      else (Some (wrapError "failed to create container" e), [Create])
  | Ok containerID =>
  (* from here on the deferred ContainerRemove runs at every return *)
  match ContainerAttach eng with
  | Some e =>
      (Some (wrapError "failed to attach to container" e),
       [Create; Attach; Remove])
  | None =>
  (* Start the container *)
  match ContainerStart eng with
  | Some e =>
      (Some (wrapError "failed to start container" e),
       [Create; Attach; Start; AttachClose; Remove])
  | None =>
  (* Set up TTY after output goroutine is reading *)
  if IsTerminal eng then
    match SetRawTerminal eng with
    | Some e =>
        (Some (wrapError "failed to set raw terminal" e),
         [Create; Attach; Start; Resize; SetRaw; AttachClose; Remove])
    | None =>
        let '(r, calls) := waitExit (ContainerWait eng) in
        (r, [Create; Attach; Start; Resize; SetRaw; Wait] ++ calls
            ++ [RestoreTerminal; AttachClose; Remove])
    end
  else
    let '(r, calls) := waitExit (ContainerWait eng) in
    (r, [Create; Attach; Start; Wait] ++ calls ++ [AttachClose; Remove])
  end end end end.

End runner.

(** * Further definitions

    The vocabulary of the further properties, and the parts of the code
    that only those properties are about. *)

(** The configuration [cfg] with credentials.github set to [setting]. *)
Definition withGitHub (cfg : config.Config) (setting : string) : config.Config :=
  {| config.Image := config.Image cfg;
     config.Mounts := config.Mounts cfg;
     config.Claude := config.Claude cfg;
     config.Credentials :=
       {| config.GitHub := setting;
          config.GCloud := config.GCloud (config.Credentials cfg);
          config.SSH := config.SSH (config.Credentials cfg) |};
     config.Environment := config.Environment cfg;
     config.Container := config.Container cfg;
     config.Security := config.Security cfg |}.

Module rules.
Import filepath abspath.

(** The names of [security.CredentialControlledPaths] below the home
    directory. *)
Definition controlledElems : list (list (list ascii)) :=
  [ [list_ascii_of_string ".ssh"];
    [list_ascii_of_string ".aws"];
    [list_ascii_of_string ".config"; list_ascii_of_string "gh"];
    [list_ascii_of_string ".config"; list_ascii_of_string "gcloud"] ].

(** Some rule of [rules], taken below the home directory [esH], covers the
    path [esP]. *)
Definition covered (esH : list (list ascii)) (rules : list (list (list ascii)))
           (esP : list (list ascii)) : Prop :=
  ∃ rule, In rule rules ∧ covers (esH ++ rule) esP.

End rules.

Module relpath.
Import filepath abspath.

(** The relative path with the names [es]. *)
Definition relative (es : list (list ascii)) : string :=
  string_of_list_ascii (join es).

(** The symlink resolution leaves [p] alone: it returns [p] itself, or
    reports that [p] does not exist. *)
Definition unresolved (w : World) (p : string) : Prop :=
  evalSymlinks w p = Ok p
  ∨ ∃ e, evalSymlinks w p = Err e ∧ os.IsNotExist e = true.

Definition tilde : list ascii := list_ascii_of_string "~".

End relpath.

(** The names of /root/.ssh, where the SSH key files go in the container. *)
Definition root_ssh : list (list ascii) :=
  [list_ascii_of_string "root"; list_ascii_of_string ".ssh"].

(** A mount that binds a host path at the same path in the container. *)
Definition sameOnBothSides (w : World) (readOnly : bool) (m : string)
           (mt : container.Mount) : Prop :=
  security.ExpandPath w m = Ok (container.Source mt)
  ∧ container.Target mt = container.Source mt
  ∧ container.ReadOnly mt = readOnly
  ∧ security.ValidateMountPath w (container.Source mt) = None.

(** The path that runContainer uses as working directory before expansion. *)
Definition workdirArg (w : World) (flags : cli.Flags) : result string :=
  if String.eqb (cli.workdir flags) "" then getwd w else Ok (cli.workdir flags).

(** The environment that the external credentials contribute to a run. *)
Definition externalEnv (w : World) (cfg : config.Config) (flags : cli.Flags)
  : gmap string string :=
  if cli.no_external_credentials flags then ∅
  else match credentials.CollectExternalCredentials w cfg with
       | Ok c => c.2
       | Err _ => ∅
       end.

(** The mounts that the external credentials contribute to a run. *)
Definition externalMounts (w : World) (cfg : config.Config) (flags : cli.Flags)
  : list container.Mount :=
  if cli.no_external_credentials flags then []
  else match credentials.CollectExternalCredentials w cfg with
       | Ok c => c.1
       | Err _ => []
       end.

(** ** The create request of Runner.Run (docker API types)

    What Run hands to ContainerCreate: the container configuration and the
    host configuration, with the fields Run sets. *)

Module mount.

(** [mount.Type] *)
Inductive Type_ : Set := TypeBind | TypeTmpfs.

(** [mount.Mount] *)
Record Mount : Type := mkMount {
  Typ : Type_;       (* the field Type *)
  Source : string;
  Target : string;
  ReadOnly : bool;
}.

End mount.

Module containerTypes.

(** [container.Config] *)
Record Config : Type := mkConfig {
  Image : string;
  Cmd : list string;
  Env : list string;
  WorkingDir : string;
  User : string;
  Tty : bool;
  OpenStdin : bool;
  AttachStdin : bool;
  AttachStdout : bool;
  AttachStderr : bool;
}.

(** [container.HostConfig]; [Memory] is the field of the embedded
    Resources. *)
Record HostConfig : Type := mkHostConfig {
  Mounts : list mount.Mount;
  NetworkMode : string;
  ReadonlyRootfs : bool;
  AutoRemove : bool;
  Memory : Z;
  CapDrop : list string;
  SecurityOpt : list string;
}.

End containerTypes.

Module create.

(** The part of Runner.Run before ContainerCreate.  [order] is the sequence
    in which [for k, v := range opts.Environment] visits the map (Go leaves
    it open; it is some enumeration of the map's entries); [uid] and [gid]
    are os.Getuid() and os.Getgid(). *)
Definition request (eng : runner.Engine) (order : list (string * string))
           (uid gid : Z) (opts : container.RunOptions)
  : result (containerTypes.Config * containerTypes.HostConfig) :=
  (* Build environment variables *)
  let env := map (fun kv : string * string => kv.1 +:+ "=" +:+ kv.2) order in
  (* Ensure PATH includes Claude's install location *)
  let env := env ++ ["PATH=/usr/local/bin:/usr/bin:/bin"] in
  (* Set HOME to a writable location when running as non-root user *)
  let env := env ++ ["HOME=/tmp"] in
  (* Build command *)
  let cmd := container.ClaudeArgs opts in
  (* Build mounts *)
  let mounts :=
    map (fun m => {| mount.Typ := mount.TypeBind;
                     mount.Source := container.Source m;
                     mount.Target := container.Target m;
                     mount.ReadOnly := container.ReadOnly m |})
        (container.Mounts opts) in
  (* Add tmpfs mounts for writable areas when using read-only root *)
  let mounts :=
    if container.ReadOnlyRoot (container.Security opts) then
      mounts ++ map (fun path => {| mount.Typ := mount.TypeTmpfs;
                                    mount.Source := "";
                                    mount.Target := path;
                                    mount.ReadOnly := false |})
                    ["/tmp"; "/run"; "/var/tmp"]
    else mounts in
  (* Mount CA certificates if configured *)
  let certs := container.CACerts (container.Security opts) in
  let '(mounts, env) :=
    if (0 <? length certs)%nat then
      let mounts :=
        mounts ++ map (fun certPath =>
                         let certName := filepath.Base certPath in
                         {| mount.Typ := mount.TypeBind;
                            mount.Source := certPath;
                            mount.Target :=
                              "/usr/local/share/ca-certificates/" +:+ certName;
                            mount.ReadOnly := true |})
                      certs in
      (* Set NODE_EXTRA_CA_CERTS only when exactly one CA certificate is
         configured *)
      if (length certs =? 1)%nat then
        let certName := filepath.Base (nth 0 certs "") in
        (mounts,
         env ++ ["NODE_EXTRA_CA_CERTS=/usr/local/share/ca-certificates/"
                 +:+ certName])
      else (mounts, env)
    else (mounts, env) in
  (* Determine user *)
  let user :=
    if String.eqb (container.User opts) "auto" then
      runner.fmt_d uid +:+ ":" +:+ runner.fmt_d gid
    else if negb (String.eqb (container.User opts) "") then container.User opts
    else "" in
  (* Parse memory limit *)
  let memoryLimit : result Z :=
    if negb (String.eqb (container.MemoryLimit opts) "") then
      match runner.RAMInBytes eng (container.MemoryLimit opts) with
      | Err e =>
          Err (wrapError ("invalid memory limit "
                          +:+ cli.quote (container.MemoryLimit opts)) e)
      | Ok limit => Ok limit
      end
    else Ok 0 in
  match memoryLimit with
  | Err e => Err e
  | Ok memoryLimit =>
  (* Determine if we should use TTY mode *)
  let isTTY := runner.IsTerminal eng in
  Ok ({| containerTypes.Image := container.Image opts;
         containerTypes.Cmd := cmd;
         containerTypes.Env := env;
         containerTypes.WorkingDir := container.WorkDir opts;
         containerTypes.User := user;
         containerTypes.Tty := isTTY;
         containerTypes.OpenStdin := true;
         containerTypes.AttachStdin := true;
         containerTypes.AttachStdout := isTTY;
         containerTypes.AttachStderr := isTTY |},
      {| containerTypes.Mounts := mounts;
         containerTypes.NetworkMode := container.Network opts;
         containerTypes.ReadonlyRootfs :=
           container.ReadOnlyRoot (container.Security opts);
         containerTypes.AutoRemove := false;
         containerTypes.Memory := memoryLimit;
         (* Security settings *)
         containerTypes.CapDrop :=
           if container.DropCapabilities (container.Security opts)
           then ["ALL"] else [];
         containerTypes.SecurityOpt :=
           if container.NoNewPrivileges (container.Security opts)
           then ["no-new-privileges"] else [] |})
  end.

End create.

(** [writableFor w cfg flags source target]: what [runContainer] mounts
    writable, host path [source] at container path [target], and for which
    reason.  The session clause is stated on the values of claude.auth and
    claude.session_dir as they stand in the configuration. *)
Inductive writableFor (w : World) (cfg : config.Config) (flags : cli.Flags)
  : string -> string -> Prop :=
| writable_workdir arg source :
    workdirArg w flags = Ok arg ->
    security.ExpandPath w arg = Ok source ->
    writableFor w cfg flags source "/workspace"
| writable_flag m source :
    In m (cli.mount flags) ->
    security.ExpandPath w m = Ok source ->
    security.ValidateMountPath w source = None ->
    writableFor w cfg flags source source
| writable_default dm source :
    In dm (config.Defaults (config.Mounts cfg)) ->
    config.ReadOnly dm = false ->
    security.ExpandPath w (config.Path dm) = Ok source ->
    security.ValidateMountPath w source = None ->
    writableFor w cfg flags source source
| writable_session home :
    os.UserHomeDir w = Ok home ->
    config.Auth (config.Claude cfg) = ""
    \/ config.Auth (config.Claude cfg) = "auto"
    \/ config.Auth (config.Claude cfg) = "session" ->
    config.SessionDir (config.Claude cfg) <> "" ->
    config.SessionDir (config.Claude cfg) <> "none" ->
    config.SessionDir (config.Claude cfg) <> "readonly" ->
    security.DirExists w (filepath.Join [home; ".claude"]) = true ->
    writableFor w cfg flags (filepath.Join [home; ".claude"]) "/tmp/.claude"
| writable_agent :
    cli.no_external_credentials flags = false ->
    config.Enabled (config.SSH (config.Credentials cfg)) = true ->
    config.AgentForwarding (config.SSH (config.Credentials cfg)) = true ->
    os.Getenv w "SSH_AUTH_SOCK" <> "" ->
    writableFor w cfg flags (os.Getenv w "SSH_AUTH_SOCK") "/tmp/ssh-agent.sock".

(** ** Package cli: the config command and the setup wizard *)

Module configcmd.

(** Network modes (the constants of internal/config) *)
Definition NetworkBridge : string := "bridge".
Definition NetworkHost : string := "host".
Definition NetworkNone : string := "none".

(** The map literal of validateConfigKey. *)
Definition validations : gmap string (list string) :=
  {[ "claude.auth" := [config.AuthAuto; config.AuthSession; config.AuthAPIKey];
     "claude.session_dir" :=
       [config.SessionNone; config.SessionReadOnly; config.SessionReadWrite];
     "credentials.github" :=
       [config.CredentialAuto; config.CredentialEnabled;
        config.CredentialDisabled];
     "credentials.gcloud" :=
       [config.CredentialAuto; config.CredentialEnabled;
        config.CredentialDisabled];
     "container.network" := [NetworkBridge; NetworkNone; NetworkHost] ]}.

(** [for _, v := range allowed { if value == v { return nil } }] *)
Fixpoint isAllowed (value : string) (allowed : list string) : bool :=
  match allowed with
  | [] => false
  | v :: rest => if String.eqb value v then true else isAllowed value rest
  end.

(** validateConfigKey validates key/value pairs for known configuration
    keys *)
Definition validateConfigKey (key value : string) : option error :=
  match validations !! key with
  | Some allowed =>
      if isAllowed value allowed then None
      else Some (errorString
                   ("invalid value for " +:+ key +:+ ": " +:+ value
                    +:+ " (allowed: " +:+ strings.Join allowed ", " +:+ ")"))
  | None => None (* Unknown keys pass through *)
  end.

(** getConfigPath returns the default config file path.  The error of
    os.UserHomeDir is dropped: [home] is then the empty string. *)
Definition getConfigPath (w : World) : string :=
  let home := match os.UserHomeDir w with Ok home => home | Err _ => "" end in
  filepath.Join [home; ".config"; "enclaude"; "config.yaml"].

End configcmd.

Module setup.

(** [strings.HasSuffix(s, suffix)] *)
Definition HasSuffix (s suffix : string) : bool :=
  (String.length suffix <=? String.length s)%nat
  && String.eqb (String.substring (String.length s - String.length suffix)
                   (String.length suffix) s)
                suffix.

(** The value of [methods[key]] for a Go map[string]bool. *)
Definition detected (methods : gmap string bool) (key : string) : bool :=
  default false (methods !! key).

(** detectClaudeAuth detects available Claude authentication methods *)
Definition detectClaudeAuth (w : World) : gmap string bool :=
  let methods : gmap string bool := ∅ in
  (* Check for API key *)
  let methods :=
    if negb (String.eqb (os.Getenv w "ANTHROPIC_API_KEY") "")
    then <["api-key" := true]> methods else methods in
  (* Check for session directory *)
  match os.UserHomeDir w with
  | Ok home =>
      let claudePath := filepath.Join [home; ".claude"] in
      match stat w claudePath with
      | Ok true => <["session" := true]> methods
      | _ => methods
      end
  | Err _ => methods
  end.

(** generateConfig creates the configuration file content *)
Definition generateConfig (auth github gcloud : string) (sshEnabled : bool)
           (memory network : string) : string :=
  let sshEnabledStr := if sshEnabled then "true" else "false" in
"# Enclaude configuration
# Generated by 'enclaude setup'
# See https://github.com/jakenelson/enclaude for documentation

# Image settings
image:
  name: enclaude:latest

# Default mounts (in addition to working directory)
mounts:
  defaults: []

# Claude Code authentication
claude:
  auth: "
  +:+ auth +:+
"              # auto | session | api-key
  session_dir: readonly   # none | readonly | readwrite
  default_args: []

# External service credentials
credentials:
  github: "
  +:+ github +:+
"       # auto | enabled | disabled
  gcloud: "
  +:+ gcloud +:+
"       # auto | enabled | disabled
  ssh:
    enabled: "
  +:+ sshEnabledStr +:+
"   # Explicit opt-in for SSH
    keys: []         # Specific keys to mount (read-only)
    known_hosts: true       # Include ~/.ssh/known_hosts
    agent_forwarding: true  # Forward SSH_AUTH_SOCK

# Environment variables to pass through
environment:
  passthrough:
    - TERM
    - COLORTERM
    - EDITOR
  custom: {}

# Container settings
container:
  user: auto          # auto | uid:gid
  memory_limit: "
  +:+ memory +:+
"
  network: "
  +:+ network +:+
"     # bridge | none | host

# Security settings
security:
  drop_capabilities: true
  no_new_privileges: true
  read_only_root: true
  ca_certs: []        # Additional CA certificates to mount (e.g., corporate CA)
".

(** What runSetup does to the configuration file. *)
Inductive outcome : Type :=
| cancelled                                 (* "Setup cancelled", return nil *)
| wrote (configPath configContent : string) (* os.WriteFile succeeded        *)
| failed (e : error).

(** The prompts read standard input through a bufio.Reader.  [reader] is the
    list of the lines that ReadString('\n') still returns; when it is empty
    ReadString returns an error (end of input).  Each prompt returns its
    answer and the lines left.  strings.TrimSpace and strings.ToLower are
    parameters. *)
Section prompts.

Variable TrimSpace : string -> string.
Variable ToLower : string -> string.

(** selectAuthMethod prompts user to select authentication method *)
Fixpoint selectAuthMethod (reader : list string) (methods : gmap string bool)
  : string * list string :=
  (* Determine default based on what's available *)
  let defaultChoice := "auto" in
  match reader with
  | [] => (defaultChoice, [])
  | input :: reader =>
      let input := TrimSpace input in
      if String.eqb input "" then (defaultChoice, reader)
      else if String.eqb input "1" then ("auto", reader)
      else if String.eqb input "2" then ("api-key", reader)
      else if String.eqb input "3" then ("session", reader)
      else selectAuthMethod reader methods
  end.

(** configureCredential prompts for credential configuration *)
Fixpoint configureCredential (reader : list string) (name defaultValue : string)
  : string * list string :=
  match reader with
  | [] => (defaultValue, [])
  | input :: reader =>
      let input := TrimSpace input in
      if String.eqb input "" then (defaultValue, reader)
      else if String.eqb input "1" then ("auto", reader)
      else if String.eqb input "2" then ("enabled", reader)
      else if String.eqb input "3" then ("disabled", reader)
      else configureCredential reader name defaultValue
  end.

(** confirm prompts for yes/no confirmation *)
Fixpoint confirm (reader : list string) (prompt : string)
  : bool * list string :=
  match reader with
  | [] => (false, [])
  | input :: reader =>
      let input := ToLower (TrimSpace input) in
      if String.eqb input "" || String.eqb input "n" || String.eqb input "no"
      then (false, reader)
      else if String.eqb input "y" || String.eqb input "yes"
      then (true, reader)
      else confirm reader prompt
  end.

(** The line is an explicit yes for [confirm]. *)
Definition saysYes (line : string) : Prop :=
  ToLower (TrimSpace line) = "y" \/ ToLower (TrimSpace line) = "yes".

(** configureSSH prompts for SSH configuration *)
Definition configureSSH (reader : list string) : bool * list string :=
  confirm reader "Enable SSH credentials?".

(** configureMemory prompts for memory limit *)
Fixpoint configureMemory (reader : list string) : string * list string :=
  match reader with
  | [] => ("4g", [])
  | input :: reader =>
      let input := TrimSpace input in
      if String.eqb input "" then ("4g", reader)
      (* Basic validation *)
      else if (2 <=? String.length input)%nat
              && (HasSuffix input "g" || HasSuffix input "m")
      then (input, reader)
      else configureMemory reader
  end.

(** configureNetwork prompts for network mode *)
Fixpoint configureNetwork (reader : list string) : string * list string :=
  match reader with
  | [] => ("bridge", [])
  | input :: reader =>
      let input := TrimSpace input in
      if String.eqb input "" then ("bridge", reader)
      else if String.eqb input "1" then ("bridge", reader)
      else if String.eqb input "2" then ("host", reader)
      else if String.eqb input "3" then ("none", reader)
      else configureNetwork reader
  end.

(** runSetup, as far as the configuration file goes.  [MkdirAll] and
    [WriteFile] are the results of the two calls of package os. *)
Definition runSetup (w : World) (MkdirAll WriteFile : option error)
           (reader : list string) : outcome :=
  (* Step 1: Detect Claude authentication *)
  let authMethods := detectClaudeAuth w in
  (* Step 2: Select authentication method *)
  let '(selectedAuth, reader) := selectAuthMethod reader authMethods in
  (* Step 3: Configure external credentials *)
  let '(githubCred, reader) := configureCredential reader "GitHub" "auto" in
  let '(gcloudCred, reader) :=
    configureCredential reader "Google Cloud" "auto" in
  let '(sshEnabled, reader) := configureSSH reader in
  (* Step 4: Container preferences *)
  let '(memoryLimit, reader) := configureMemory reader in
  let '(network, reader) := configureNetwork reader in
  (* Step 5: Create config file *)
  let configPath := configcmd.getConfigPath w in
  (* Check if config exists *)
  let configExists :=
    match stat w configPath with Ok _ => true | Err _ => false end in
  if configExists
     && negb (confirm reader "Do you want to overwrite it?").1
  then cancelled
  else
    (* Create config directory *)
    match MkdirAll with
    | Some e => failed (wrapError "failed to create config directory" e)
    | None =>
        (* Generate config content *)
        let configContent :=
          generateConfig selectedAuth githubCred gcloudCred sshEnabled
            memoryLimit network in
        (* Write config file *)
        match WriteFile with
        | Some e => failed (wrapError "failed to write config file" e)
        | None => wrote configPath configContent
        end
    end.

End prompts.

End setup.

(** * Sample hosts and configurations

    Concrete hosts used to run the definitions. *)

Definition enoent (op path : string) : error := pathError op path ENOENT.

(** A host where nothing exists yet: every probe reports "not found". *)
Definition host_bare : World :=
  {| environ := {[ "HOME" := "/home/u" ]};
     getwd := Ok "/work";
     stat := fun p => Err (enoent "stat" p);
     evalSymlinks := fun p => Err (enoent "lstat" p) |}.

(** A host without symlinks whose only directory of interest is ~/.claude. *)
Definition host_session : World :=
  {| environ := {[ "HOME" := "/home/u" ]};
     getwd := Ok "/work";
     stat := fun p => if String.eqb p "/home/u/.claude" then Ok true
                      else Err (enoent "stat" p);
     evalSymlinks := fun p => Ok p |}.

(** A host with both GitHub token variables set and a gh hosts file. *)
Definition host_tokens : World :=
  {| environ := {[ "HOME" := "/home/u"; "GH_TOKEN" := "ghp_first";
                   "GITHUB_TOKEN" := "ghp_second" ]};
     getwd := Ok "/work";
     stat := fun p => if String.eqb p "/home/u/.config/gh/hosts.yml" then Ok false
                      else Err (enoent "stat" p);
     evalSymlinks := fun p => Ok p |}.

(** A host where every path is a directory and no call fails. *)
Definition host_all_ok : World :=
  {| environ := {[ "HOME" := "/home/u" ]};
     getwd := Ok "/work";
     stat := fun p => Ok true;
     evalSymlinks := fun p => Ok p |}.

(** A host where the working directory cannot be determined. *)
Definition host_lost : World :=
  {| environ := {[ "HOME" := "/home/u" ]};
     getwd := Err (enoent "getwd" ".");
     stat := fun p => Ok true;
     evalSymlinks := fun p => Ok p |}.

(** The default configuration with the four policy strings left open. *)
Definition cfg_with (auth sessionDir github gcloud : string) : config.Config :=
  {| config.Image := {| config.Name := "enclaude:latest" |};
     config.Mounts := {| config.Defaults := [] |};
     config.Claude := {| config.Auth := auth; config.SessionDir := sessionDir |};
     config.Credentials :=
       {| config.GitHub := github; config.GCloud := gcloud;
          config.SSH := {| config.Enabled := false; config.Keys := [];
                           config.KnownHosts := true;
                           config.AgentForwarding := true |} |};
     config.Environment := {| config.Passthrough := []; config.Custom := ∅ |};
     config.Container := {| config.User := "auto"; config.MemoryLimit := "4g";
                            config.Network := "bridge" |};
     config.Security := {| config.DropCapabilities := true;
                           config.NoNewPrivileges := true;
                           config.ReadOnlyRoot := true;
                           config.CACerts := [] |} |}.

Definition no_flags : cli.Flags :=
  {| cli.workdir := ""; cli.mount := []; cli.mount_ro := [];
     cli.no_external_credentials := false; cli.image := "" |}.

(** An engine where every call succeeds and the container exits with
    [code]. *)
Definition engine_exit (tty : bool) (code : Z) : runner.Engine :=
  {| runner.RAMInBytes := fun _ => Ok 4294967296;
     runner.IsTerminal := tty;
     runner.ContainerCreate := Ok "c0ffee";
     runner.ContainerAttach := None;
     runner.ContainerStart := None;
     runner.SetRawTerminal := None;
     runner.ContainerWait := runner.recvStatus code |}.

Definition opts_default : container.RunOptions :=
  {| container.Image := "enclaude:latest";
     container.Mounts := [];
     container.Environment := ∅;
     container.ClaudeArgs := [];
     container.WorkDir := "/workspace";
     container.User := "auto";
     container.MemoryLimit := "4g";
     container.Network := "bridge";
     container.Security :=
       {| container.DropCapabilities := true;
          container.NoNewPrivileges := true;
          container.ReadOnlyRoot := true;
          container.CACerts := [] |} |}.

(** The name spelled by a string. *)
Definition nm (s : string) : list ascii := list_ascii_of_string s.

(** A host without symlinks where ~/.claude is a directory and every other
    path a regular file; an API key, the agent socket and a service-account
    key are set in the environment. *)
Definition host_files : World :=
  {| environ := {[ "HOME" := "/home/u";
                   "ANTHROPIC_API_KEY" := "sk-test";
                   "SSH_AUTH_SOCK" := "/run/agent.sock";
                   "GOOGLE_APPLICATION_CREDENTIALS" := "/srv/key.json" ]};
     getwd := Ok "/work";
     stat := fun p => if String.eqb p "/home/u/.claude" then Ok true
                      else Ok false;
     evalSymlinks := fun p => Ok p |}.

(** A host where /work/link is a symlink into ~/.gnupg. *)
Definition host_link : World :=
  {| environ := {[ "HOME" := "/home/u" ]};
     getwd := Ok "/work";
     stat := fun p => Ok true;
     evalSymlinks := fun p => if String.eqb p "/work/link"
                              then Ok "/home/u/.gnupg/keys" else Ok p |}.

(** The default configuration with SSH enabled for the given keys. *)
Definition cfg_ssh (keys : list string) (knownHosts agent : bool)
  : config.Config :=
  {| config.Image := {| config.Name := "enclaude:latest" |};
     config.Mounts := {| config.Defaults := [] |};
     config.Claude := {| config.Auth := "auto"; config.SessionDir := "" |};
     config.Credentials :=
       {| config.GitHub := "disabled"; config.GCloud := "disabled";
          config.SSH := {| config.Enabled := true; config.Keys := keys;
                           config.KnownHosts := knownHosts;
                           config.AgentForwarding := agent |} |};
     config.Environment := {| config.Passthrough := []; config.Custom := ∅ |};
     config.Container := {| config.User := "auto"; config.MemoryLimit := "4g";
                            config.Network := "bridge" |};
     config.Security := {| config.DropCapabilities := true;
                           config.NoNewPrivileges := true;
                           config.ReadOnlyRoot := true;
                           config.CACerts := [] |} |}.

(** The default configuration with default mounts, passthrough variables
    and custom variables. *)
Definition cfg_env (defaults : list config.MountEntry)
           (passthrough : list string) (custom : gmap string string)
  : config.Config :=
  {| config.Image := {| config.Name := "enclaude:latest" |};
     config.Mounts := {| config.Defaults := defaults |};
     config.Claude := {| config.Auth := "auto"; config.SessionDir := "" |};
     config.Credentials :=
       {| config.GitHub := "auto"; config.GCloud := "auto";
          config.SSH := {| config.Enabled := false; config.Keys := [];
                           config.KnownHosts := true;
                           config.AgentForwarding := true |} |};
     config.Environment := {| config.Passthrough := passthrough;
                              config.Custom := custom |};
     config.Container := {| config.User := "auto"; config.MemoryLimit := "4g";
                            config.Network := "bridge" |};
     config.Security := {| config.DropCapabilities := true;
                           config.NoNewPrivileges := true;
                           config.ReadOnlyRoot := true;
                           config.CACerts := [] |} |}.

(** The flags of [enclaude --workdir dir]. *)
Definition flags_workdir (dir : string) : cli.Flags :=
  {| cli.workdir := dir; cli.mount := []; cli.mount_ro := [];
     cli.no_external_credentials := false; cli.image := "" |}.

(** An engine where every call succeeds and the final select of Run takes
    the case [c]. *)
Definition engine_wait (tty : bool) (c : runner.selectCase) : runner.Engine :=
  {| runner.RAMInBytes := fun _ => Ok 4294967296;
     runner.IsTerminal := tty;
     runner.ContainerCreate := Ok "c0ffee";
     runner.ContainerAttach := None;
     runner.ContainerStart := None;
     runner.SetRawTerminal := None;
     runner.ContainerWait := c |}.

(** strings.TrimSpace and strings.ToLower on ASCII text. *)
Definition isSpaceASCII (c : ascii) : bool :=
  let n := nat_of_ascii c in
  ((9 <=? n) && (n <=? 13) || (n =? 32))%nat.

Fixpoint dropSpace (s : list ascii) : list ascii :=
  match s with
  | c :: s' => if isSpaceASCII c then dropSpace s' else s
  | [] => []
  end.

Definition trimSpaceASCII (s : string) : string :=
  string_of_list_ascii
    (rev (dropSpace (rev (dropSpace (list_ascii_of_string s))))).

Definition toLowerASCII (s : string) : string :=
  string_of_list_ascii
    (map (fun c => let n := nat_of_ascii c in
                   if ((65 <=? n) && (n <=? 90))%nat then ascii_of_nat (n + 32)
                   else c)
         (list_ascii_of_string s)).

(** A host with an API key and a configuration file, but no ~/.claude. *)
Definition host_configured : World :=
  {| environ := {[ "HOME" := "/home/u"; "ANTHROPIC_API_KEY" := "sk-test" ]};
     getwd := Ok "/work";
     stat := fun p => if String.eqb p "/home/u/.config/enclaude/config.yaml"
                      then Ok false else Err (enoent "stat" p);
     evalSymlinks := fun p => Ok p |}.

(** A host where $HOME is not set. *)
Definition host_homeless : World :=
  {| environ := {[ "ANTHROPIC_API_KEY" := "sk-test" ]};
     getwd := Ok "/work";
     stat := fun p => Err (enoent "stat" p);
     evalSymlinks := fun p => Ok p |}.

(** * Properties *)

Import container.

(** ** Checks of the transcription of path/filepath *)

Example Clean_ex1 : filepath.Clean "abc//def//ghi" = "abc/def/ghi".
Proof. reflexivity. Qed.
Example Clean_ex2 : filepath.Clean "/../abc" = "/abc".
Proof. reflexivity. Qed.
Example Clean_ex3 : filepath.Clean "abc/def/../../.." = "..".
Proof. reflexivity. Qed.
Example Clean_ex4 : filepath.Clean "" = ".".
Proof. reflexivity. Qed.
Example Clean_ex5 : filepath.Clean "abc/./../def" = "def".
Proof. reflexivity. Qed.
Example Clean_ex6 : filepath.Clean "/abc/def/../../../ghi/" = "/ghi".
Proof. reflexivity. Qed.
Example Clean_ex7 : filepath.Clean "../../abc/../def/" = "../../def".
Proof. reflexivity. Qed.
Example Rel_ex1 : filepath.Rel "/a" "/b/c" = Ok "../b/c".
Proof. reflexivity. Qed.
Example Rel_ex2 : filepath.Rel "/a/b" "/a/b/c/d" = Ok "c/d".
Proof. reflexivity. Qed.
Example Rel_ex3 : filepath.Rel "/a/b/c/d" "/a/b" = Ok "../..".
Proof. reflexivity. Qed.
Example Rel_ex4 : is_Ok (filepath.Rel "/a" "b") = false.
Proof. reflexivity. Qed.
Example Rel_ex5 : filepath.Rel "/" "/a/b" = Ok "a/b".
Proof. reflexivity. Qed.
Example Rel_ex6 : is_Ok (filepath.Rel "../a" "b") = false.
Proof. reflexivity. Qed.
Example Rel_ex7 : filepath.Rel "a/b/../c" "a/b" = Ok "../b".
Proof. reflexivity. Qed.
Example Base_ex1 : filepath.Base "/a/b/id_a" = "id_a".
Proof. reflexivity. Qed.
Example Base_ex2 : filepath.Base "///" = "/".
Proof. reflexivity. Qed.

(** ** The loops of Clean and Rel terminate within their fuel *)

Module filepath_facts.
Import filepath.

Lemma span_elem_length s :
  (length (span_elem s).1 + length (span_elem s).2 = length s)%nat.
Proof.
  induction s as [|c s IH]; [reflexivity|].
  cbn [span_elem]. destruct (isSep c); [reflexivity|].
  destruct (span_elem s) as [e r]. cbn [fst snd length] in *. lia.
Qed.

Lemma span_elem_rest_shorter c s :
  isSep c = false → (length (span_elem (c :: s)).2 ≤ length s)%nat.
Proof.
  intros Hc. pose proof (span_elem_length (c :: s)) as H.
  cbn [span_elem] in *. rewrite Hc in *.
  destruct (span_elem s) as [e r]. cbn [fst snd length] in *. lia.
Qed.

(** The fuel of the main loop of Clean is never used up: any amount of at
    least the number of unread bytes gives the same result. *)
Lemma clean_loop_fuel n : ∀ rest rooted out dotdot f1 f2,
  (length rest ≤ n)%nat → (length rest ≤ f1)%nat → (length rest ≤ f2)%nat →
  clean_loop f1 rooted rest out dotdot = clean_loop f2 rooted rest out dotdot.
Proof.
  induction n as [|n IH]; intros rest rooted out dotdot f1 f2 Hn H1 H2.
  - destruct rest; [|cbn in Hn; lia].
    destruct f1, f2; reflexivity.
  - destruct rest as [|c rest1]; [destruct f1, f2; reflexivity|].
    cbn [length] in *.
    destruct f1 as [|f1]; [lia|]. destruct f2 as [|f2]; [lia|].
    cbn [clean_loop].
    destruct (isSep c) eqn:Hc; [apply IH; lia|].
    destruct (isDot c && at_elem_end rest1); [apply IH; lia|].
    assert (Htl : (length (tl rest1) ≤ length rest1)%nat).
    { destruct rest1; cbn; lia. }
    destruct (isDot c && _).
    + destruct (_ <? _)%nat; [apply IH; lia|].
      destruct (negb rooted); apply IH; lia.
    + pose proof (span_elem_rest_shorter c rest1 Hc) as Hs.
      destruct (span_elem (c :: rest1)) as [e rest'].
      cbn [snd] in Hs. apply IH; lia.
Qed.

Lemma rel_loop_fuel n : ∀ b t f1 f2,
  (length b ≤ n)%nat → (length b < f1)%nat → (length b < f2)%nat →
  rel_loop f1 b t = rel_loop f2 b t.
Proof.
  induction n as [|n IH]; intros b t f1 f2 Hn H1 H2.
  - destruct b; [|cbn in Hn; lia]. destruct f1, f2; reflexivity.
  - destruct f1 as [|f1]; [lia|]. destruct f2 as [|f2]; [lia|].
    destruct b as [|c b]; [reflexivity|].
    destruct t as [|d t]; [reflexivity|].
    cbn [rel_loop].
    pose proof (span_elem_length (c :: b)) as Hs.
    destruct (span_elem (c :: b)) as [eb b'] eqn:Eb.
    destruct (span_elem (d :: t)) as [et t'].
    destruct (bool_decide (et = eb)); [|reflexivity].
    cbn [fst snd length] in *.
    assert (Htl : (length (tl b') ≤ length b)%nat).
    { destruct b' as [|x b']; cbn [tl length] in *; [lia|].
      destruct eb as [|y eb]; cbn [length] in *; [|lia].
      cbn [span_elem] in Eb. destruct (isSep c).
      - injection Eb as <-. cbn [length]. lia.
      - destruct (span_elem b); discriminate. }
    apply IH; lia.
Qed.

End filepath_facts.

(** ** Credential collection *)

Lemma shouldEnable_eq w setting envVars :
  credentials.shouldEnable w setting envVars
  = negb (String.eqb setting config.CredentialDisabled).
Proof.
  unfold credentials.shouldEnable.
  destruct (String.eqb_spec setting config.CredentialEnabled) as [->|_];
    [reflexivity|].
  destruct (String.eqb setting config.CredentialDisabled); [reflexivity|].
  destruct (String.eqb setting config.CredentialAuto); [|reflexivity].
  destruct (credentials.anyEnvSet w envVars); reflexivity.
Qed.

(** C9: every setting other than exactly "disabled" (the empty string and
    misspellings included) enables the service, and the GitHub and Google
    Cloud blocks then behave exactly as under "auto"; the exact string
    "disabled" is the only one that suppresses the attempt. *)
Theorem shouldEnable_unless_disabled (w : World) (setting : string)
    (envVars : list string) (home : string) (acc : credentials.contribution) :
  setting ≠ config.CredentialDisabled →
  credentials.shouldEnable w setting envVars = true
  ∧ credentials.shouldEnable w setting envVars
    = credentials.shouldEnable w config.CredentialAuto envVars
  ∧ credentials.collectGitHub w home setting acc
    = credentials.collectGitHub w home config.CredentialAuto acc
  ∧ credentials.collectGCloud w home setting acc
    = credentials.collectGCloud w home config.CredentialAuto acc
  ∧ credentials.shouldEnable w config.CredentialDisabled envVars = false.
Proof.
  intros Hne.
  assert (Hs : ∀ vars, credentials.shouldEnable w setting vars = true).
  { intros vars. rewrite shouldEnable_eq.
    destruct (String.eqb_spec setting config.CredentialDisabled);
      [contradiction|reflexivity]. }
  split_and!.
  - apply Hs.
  - rewrite Hs, shouldEnable_eq. reflexivity.
  - unfold credentials.collectGitHub. rewrite Hs, shouldEnable_eq. reflexivity.
  - unfold credentials.collectGCloud. rewrite Hs, shouldEnable_eq. reflexivity.
  - rewrite shouldEnable_eq. reflexivity.
Qed.

Lemma shouldEnable_unless_disabled_witness :
  "disbaled" ≠ config.CredentialDisabled
  ∧ credentials.shouldEnable host_bare "disbaled" ["GH_TOKEN"; "GITHUB_TOKEN"] = true
  ∧ credentials.shouldEnable host_bare "" ["GH_TOKEN"; "GITHUB_TOKEN"] = true.
Proof.
  split; [discriminate|]. split.
  - apply (shouldEnable_unless_disabled host_bare "disbaled"
             ["GH_TOKEN"; "GITHUB_TOKEN"] "/home/u" credentials.no_contribution).
    discriminate.
  - apply (shouldEnable_unless_disabled host_bare ""
             ["GH_TOKEN"; "GITHUB_TOKEN"] "/home/u" credentials.no_contribution).
    discriminate.
Defined.

(** C6: under the policy "disabled" the block of a service leaves the
    collected mounts and environment untouched, whatever the host looks like;
    so CollectExternalCredentials returns what the other services contribute,
    and nothing at all when every service is switched off. *)
Theorem disabled_contributes_nothing (w : World) (cfg : config.Config) :
  (∀ home acc, credentials.collectGitHub w home config.CredentialDisabled acc = acc)
  ∧ (∀ home acc, credentials.collectGCloud w home config.CredentialDisabled acc = acc)
  ∧ (∀ home,
       os.UserHomeDir w = Ok home →
       (config.GitHub (config.Credentials cfg) = config.CredentialDisabled →
        credentials.CollectExternalCredentials w cfg
        = Ok (credentials.collectSSH w home cfg
                (credentials.collectGCloud w home
                   (config.GCloud (config.Credentials cfg))
                   credentials.no_contribution)))
       ∧ (config.GCloud (config.Credentials cfg) = config.CredentialDisabled →
          credentials.CollectExternalCredentials w cfg
          = Ok (credentials.collectSSH w home cfg
                  (credentials.collectGitHub w home
                     (config.GitHub (config.Credentials cfg))
                     credentials.no_contribution))))
  ∧ (config.GitHub (config.Credentials cfg) = config.CredentialDisabled →
     config.GCloud (config.Credentials cfg) = config.CredentialDisabled →
     config.Enabled (config.SSH (config.Credentials cfg)) = false →
     ∀ c, credentials.CollectExternalCredentials w cfg = Ok c →
          c = credentials.no_contribution).
Proof.
  assert (Hgh : ∀ home acc,
             credentials.collectGitHub w home config.CredentialDisabled acc = acc).
  { intros home [mounts env]. unfold credentials.collectGitHub.
    rewrite shouldEnable_eq. reflexivity. }
  assert (Hgc : ∀ home acc,
             credentials.collectGCloud w home config.CredentialDisabled acc = acc).
  { intros home [mounts env]. unfold credentials.collectGCloud.
    rewrite shouldEnable_eq. reflexivity. }
  split; [exact Hgh|]. split; [exact Hgc|]. split.
  - intros home Hhome. unfold credentials.CollectExternalCredentials.
    rewrite Hhome.
    split; intros ->; [rewrite Hgh | rewrite Hgc]; reflexivity.
  - intros H1 H2 H3 c. unfold credentials.CollectExternalCredentials.
    destruct (os.UserHomeDir w) as [home|e]; [|discriminate].
    rewrite H1, H2, Hgh, Hgc.
    unfold credentials.collectSSH, credentials.no_contribution.
    rewrite H3. congruence.
Qed.

Lemma disabled_contributes_nothing_witness :
  credentials.CollectExternalCredentials host_tokens
    (cfg_with "auto" "" config.CredentialDisabled config.CredentialDisabled)
  = Ok credentials.no_contribution.
Proof.
  destruct (disabled_contributes_nothing host_tokens
              (cfg_with "auto" "" config.CredentialDisabled
                 config.CredentialDisabled)) as (_ & _ & _ & Hall).
  destruct (credentials.CollectExternalCredentials host_tokens _) as [c|e] eqn:E.
  - f_equal. exact (Hall eq_refl eq_refl eq_refl c eq_refl).
  - vm_compute in E. discriminate E.
Defined.

(** The "GitHub credentials" block in closed form. *)
Lemma collectGitHub_eq (w : World) (home setting : string)
    (mounts : list Mount) (env : gmap string string) :
  setting ≠ config.CredentialDisabled →
  let ghToken := os.Getenv w "GH_TOKEN" in
  let githubToken := os.Getenv w "GITHUB_TOKEN" in
  let hosts := {| Source := filepath.Join [home; ".config"; "gh"; "hosts.yml"];
                  Target := "/root/.config/gh/hosts.yml";
                  ReadOnly := true |} in
  credentials.collectGitHub w home setting (mounts, env)
  = if negb (String.eqb ghToken "")
    then (mounts, <["GH_TOKEN" := ghToken]> env)
    else if negb (String.eqb githubToken "")
         then (mounts, <["GH_TOKEN" := githubToken]> env)
         else (mounts ++ (if security.FileExists w (Source hosts)
                          then [hosts] else []), env).
Proof.
  intros Hne ghToken githubToken hosts.
  unfold credentials.collectGitHub. rewrite shouldEnable_eq.
  destruct (String.eqb_spec setting config.CredentialDisabled);
    [contradiction|]. cbn [negb].
  fold ghToken githubToken.
  destruct (negb (String.eqb ghToken "")); [reflexivity|].
  destruct (negb (String.eqb githubToken "")); [reflexivity|].
  cbn [Source hosts].
  destruct (security.FileExists w _); rewrite ?app_nil_r; reflexivity.
Qed.

(** The "Google Cloud ADC" block appends its mounts and sets at most one
    variable, whatever was collected before. *)
Lemma collectGCloud_shape (w : World) (home setting : string) :
  ∃ (G : list Mount) (b : bool),
    ∀ mounts env,
      credentials.collectGCloud w home setting (mounts, env)
      = (mounts ++ G,
         if b then <["GOOGLE_APPLICATION_CREDENTIALS" := credentials.gcloudTarget]> env
         else env).
Proof.
  unfold credentials.collectGCloud.
  destruct (credentials.shouldEnable w setting _).
  - destruct (security.FileExists w _) eqn:A;
      destruct (negb _ && security.FileExists w _) eqn:B.
    + eexists _, true. intros mounts env. rewrite insert_insert_eq, <- app_assoc.
      reflexivity.
    + eexists _, true. intros mounts env. reflexivity.
    + eexists _, true. intros mounts env. reflexivity.
    + exists [], false. intros mounts env. rewrite app_nil_r. reflexivity.
  - exists [], false. intros mounts env. rewrite app_nil_r. reflexivity.
Qed.

(** The SSH block appends its mounts and sets at most SSH_AUTH_SOCK,
    whatever was collected before. *)
Lemma collectSSH_shape (w : World) (home : string) (cfg : config.Config) :
  ∃ (S : list Mount) (E : gmap string string),
    E !! "GH_TOKEN" = None
    ∧ ∀ mounts env,
        credentials.collectSSH w home cfg (mounts, env) = (mounts ++ S, E ∪ env).
Proof.
  unfold credentials.collectSSH.
  destruct (config.Enabled _).
  - destruct (credentials.collectSSHCredentials w cfg home) as [S E] eqn:HS.
    exists S, E. split; [|reflexivity].
    revert HS. unfold credentials.collectSSHCredentials.
    destruct (config.AgentForwarding _); [destruct (negb _)|];
      intros [= _ <-]; reflexivity.
  - exists [], ∅. split; [reflexivity|]. intros mounts env.
    rewrite app_nil_r, (left_id_L ∅ (∪)). reflexivity.
Qed.

(** C7: what the GitHub service adds to the result of
    CollectExternalCredentials, measured against the same call with
    credentials.github "disabled".  Under a policy other than "disabled": if
    GH_TOKEN is set, only the variable GH_TOKEN is added, with its value;
    otherwise, if GITHUB_TOKEN is set, only GH_TOKEN with the value of
    GITHUB_TOKEN; if neither is set, no variable is added, and the gh hosts
    file is mounted exactly when it exists.  Never both a variable and a
    mount. *)
Theorem github_token_or_hosts_file (w : World) (cfg : config.Config)
    (home : string) (c : credentials.contribution) :
  os.UserHomeDir w = Ok home →
  config.GitHub (config.Credentials cfg) ≠ config.CredentialDisabled →
  credentials.CollectExternalCredentials w cfg = Ok c →
  let ghToken := os.Getenv w "GH_TOKEN" in
  let githubToken := os.Getenv w "GITHUB_TOKEN" in
  let hosts := {| Source := filepath.Join [home; ".config"; "gh"; "hosts.yml"];
                  Target := "/root/.config/gh/hosts.yml";
                  ReadOnly := true |} in
  ∃ c0,
    credentials.CollectExternalCredentials w
      (withGitHub cfg config.CredentialDisabled) = Ok c0
    ∧ c0.2 !! "GH_TOKEN" = None
    ∧ (ghToken ≠ "" →
       c.1 = c0.1 ∧ c.2 = <["GH_TOKEN" := ghToken]> c0.2)
    ∧ (ghToken = "" → githubToken ≠ "" →
       c.1 = c0.1 ∧ c.2 = <["GH_TOKEN" := githubToken]> c0.2)
    ∧ (ghToken = "" → githubToken = "" →
       c.1 = (if security.FileExists w (Source hosts) then [hosts] else [])
             ++ c0.1
       ∧ c.2 = c0.2)
    ∧ (c.1 = c0.1 ∨ c.2 = c0.2).
Proof.
  intros Hhome Hne Hc ghToken githubToken hosts.
  unfold credentials.CollectExternalCredentials in *. rewrite Hhome in *.
  cbn [withGitHub config.Credentials config.GitHub config.GCloud].
  destruct (collectGCloud_shape w home (config.GCloud (config.Credentials cfg)))
    as (G & b & HG).
  destruct (collectSSH_shape w home cfg) as (S & E & HE & HS).
  assert (HS' : ∀ mounts env,
            credentials.collectSSH w home
              (withGitHub cfg config.CredentialDisabled) (mounts, env)
            = (mounts ++ S, E ∪ env)) by exact HS.
  assert (Hoff : credentials.collectGitHub w home config.CredentialDisabled
                   credentials.no_contribution = ([], ∅)).
  { unfold credentials.collectGitHub, credentials.no_contribution.
    rewrite shouldEnable_eq. reflexivity. }
  rewrite Hoff, (HG [] ∅), (HS' ([] ++ G)).
  unfold credentials.no_contribution in Hc.
  rewrite (collectGitHub_eq w home _ [] ∅ Hne) in Hc.
  fold ghToken githubToken hosts in Hc.
  assert (Hins : ∀ t : string,
            E ∪ (if b then <["GOOGLE_APPLICATION_CREDENTIALS"
                               := credentials.gcloudTarget]>
                             (<["GH_TOKEN" := t]> ∅)
                 else <["GH_TOKEN" := t]> ∅)
            = <["GH_TOKEN" := t]>
                (E ∪ (if b then <["GOOGLE_APPLICATION_CREDENTIALS"
                                    := credentials.gcloudTarget]> ∅
                      else ∅))).
  { intros t. apply map_eq. intros k.
    destruct (decide (k = "GH_TOKEN")) as [->|Hk].
    - rewrite lookup_insert_eq, lookup_union, HE.
      destruct b; rewrite ?lookup_insert_ne by discriminate;
        rewrite lookup_insert_eq; reflexivity.
    - rewrite (lookup_insert_ne _ "GH_TOKEN" k) by congruence.
      rewrite !lookup_union. f_equal.
      destruct b.
      + destruct (decide (k = "GOOGLE_APPLICATION_CREDENTIALS")) as [->|Hk'].
        * rewrite !lookup_insert_eq. reflexivity.
        * rewrite !lookup_insert_ne by congruence. reflexivity.
      + rewrite lookup_insert_ne by congruence. reflexivity. }
  assert (H0 : (E ∪ (if b then <["GOOGLE_APPLICATION_CREDENTIALS"
                                   := credentials.gcloudTarget]> ∅
                     else ∅) : gmap string string) !! "GH_TOKEN" = None).
  { rewrite lookup_union, HE.
    destruct b; rewrite ?lookup_insert_ne by discriminate;
      rewrite lookup_empty; reflexivity. }
  eexists. split; [reflexivity|]. cbn [fst snd]. split; [exact H0|].
  destruct (String.eqb_spec ghToken "") as [Hgh|Hgh]; cbn [negb] in Hc;
    [destruct (String.eqb_spec githubToken "") as [Hgt|Hgt]; cbn [negb] in Hc|];
    rewrite HG, HS in Hc; injection Hc as <-; cbn [fst snd];
    split_and!; intros; try contradiction; try congruence;
    try (split; [reflexivity|apply Hins]);
    try (split; [rewrite <- !app_assoc; reflexivity|reflexivity]);
    auto.
Qed.

Lemma github_token_or_hosts_file_witness :
  security.FileExists host_tokens "/home/u/.config/gh/hosts.yml" = true
  ∧ ∃ c,
      credentials.CollectExternalCredentials host_tokens
        (cfg_with "auto" "" config.CredentialAuto config.CredentialDisabled)
      = Ok c
      ∧ c.1 = []
      ∧ c.2 = <["GH_TOKEN" := "ghp_first"]> ∅.
Proof.
  split; [reflexivity|].
  destruct (credentials.CollectExternalCredentials host_tokens
              (cfg_with "auto" "" config.CredentialAuto
                 config.CredentialDisabled)) as [c|e] eqn:E;
    [|vm_compute in E; discriminate E].
  destruct (github_token_or_hosts_file host_tokens
              (cfg_with "auto" "" config.CredentialAuto
                 config.CredentialDisabled) "/home/u" c
              eq_refl ltac:(discriminate) E)
    as (c0 & H0 & _ & Hgh & _).
  vm_compute in H0. injection H0 as <-.
  destruct (Hgh ltac:(discriminate)) as [H1 H2].
  exists c. split; [reflexivity|]. split; [exact H1|exact H2].
Defined.

(** C5: CollectClaudeAuth emits at most one mount, always with target
    /tmp/.claude.  When the auth mode allows the session directory and
    ~/.claude exists, an unset session_dir gives the read-only mount,
    "readwrite" the writable mount and "none" no mount. *)
Theorem session_mount_by_mode (w : World) (cfg : config.Config) :
  let mounts := (credentials.CollectClaudeAuth w cfg).1 in
  (length mounts ≤ 1)%nat
  ∧ (∀ m, In m mounts → Target m = "/tmp/.claude")
  ∧ (∀ home,
       os.UserHomeDir w = Ok home →
       credentials.authMode cfg = config.AuthAuto
       ∨ credentials.authMode cfg = config.AuthSession →
       security.DirExists w (filepath.Join [home; ".claude"]) = true →
       let session ro := {| Source := filepath.Join [home; ".claude"];
                            Target := "/tmp/.claude";
                            ReadOnly := ro |} in
       (config.SessionDir (config.Claude cfg) = "" → mounts = [session true])
       ∧ (config.SessionDir (config.Claude cfg) = config.SessionReadWrite →
          mounts = [session false])
       ∧ (config.SessionDir (config.Claude cfg) = config.SessionNone →
          mounts = [])).
Proof.
  intros mounts. subst mounts. unfold credentials.CollectClaudeAuth.
  destruct (os.UserHomeDir w) as [home|e].
  - split_and!.
    + cbn [fst].
      destruct (_ || _); [|cbn; lia].
      destruct (negb _); [|cbn; lia].
      destruct (security.DirExists w _); cbn; lia.
    + intros m. cbn [fst].
      destruct (_ || _); [|intros []].
      destruct (negb _); [|intros []].
      destruct (security.DirExists w _); [|intros []].
      intros [<-|[]]. reflexivity.
    + intros home' [= <-] Hauth Hdir. cbn [fst].
      assert (Ha : String.eqb (credentials.authMode cfg) config.AuthAuto
                   || String.eqb (credentials.authMode cfg) config.AuthSession
                   = true).
      { destruct Hauth as [-> | ->]; reflexivity. }
      rewrite Ha, Hdir. unfold credentials.sessionDirMode.
      split_and!; intros ->; reflexivity.
  - split_and!; cbn; [lia|intros _ []|intros home [=]].
Qed.

Lemma session_mount_by_mode_witness :
  os.UserHomeDir host_session = Ok "/home/u"
  ∧ credentials.authMode (cfg_with "" "" "auto" "auto") = config.AuthAuto
  ∧ security.DirExists host_session (filepath.Join ["/home/u"; ".claude"]) = true
  ∧ (credentials.CollectClaudeAuth host_session (cfg_with "" "" "auto" "auto")).1
    = [ {| Source := "/home/u/.claude"; Target := "/tmp/.claude";
           ReadOnly := true |} ].
Proof.
  split; [reflexivity|]. split; [reflexivity|]. split; [reflexivity|].
  destruct (session_mount_by_mode host_session (cfg_with "" "" "auto" "auto"))
    as (_ & _ & Hmodes).
  destruct (Hmodes "/home/u" eq_refl (or_introl eq_refl) eq_refl) as (Hunset & _).
  exact (Hunset eq_refl).
Defined.

(** C10: an emitted session mount is read-only exactly when session_dir is
    "readonly" or unset (unset counts as "readonly"); no mount is emitted
    for "none".  So "readonly" gives the read-only mount of ~/.claude, and
    every set value other than "readonly" and "none", such as the
    misspelling "read-only", gives a writable one. *)
Theorem session_mount_readonly_flag (w : World) (cfg : config.Config) :
  let mounts := (credentials.CollectClaudeAuth w cfg).1 in
  let sessionDir := config.SessionDir (config.Claude cfg) in
  (∀ m, In m mounts →
        sessionDir ≠ "none"
        ∧ (ReadOnly m = true ↔ sessionDir = "readonly" ∨ sessionDir = ""))
  ∧ (∀ home,
       os.UserHomeDir w = Ok home →
       credentials.authMode cfg = config.AuthAuto
       ∨ credentials.authMode cfg = config.AuthSession →
       security.DirExists w (filepath.Join [home; ".claude"]) = true →
       (sessionDir = "readonly" →
        mounts = [ {| Source := filepath.Join [home; ".claude"];
                      Target := "/tmp/.claude";
                      ReadOnly := true |} ])
       ∧ (sessionDir ≠ "" →
          sessionDir ≠ config.SessionReadOnly →
          sessionDir ≠ config.SessionNone →
          mounts = [ {| Source := filepath.Join [home; ".claude"];
                        Target := "/tmp/.claude";
                        ReadOnly := false |} ])).
Proof.
  intros mounts sessionDir. subst mounts sessionDir.
  unfold credentials.CollectClaudeAuth.
  destruct (os.UserHomeDir w) as [home|e]; cbn [fst];
    [|split; [intros m []|intros home [=]]].
  unfold credentials.sessionDirMode.
  split.
  - intros m.
    destruct (_ || _); [|intros []].
    destruct (String.eqb_spec (config.SessionDir (config.Claude cfg)) "")
      as [E|E].
    + rewrite E. cbn [negb String.eqb].
      change (String.eqb config.SessionReadOnly config.SessionNone) with false.
      change (String.eqb config.SessionReadOnly config.SessionReadOnly) with true.
      cbn [negb].
      destruct (security.DirExists w _); [|intros []].
      intros [<-|[]]. cbn [ReadOnly]. split; [discriminate|]. tauto.
    + destruct (String.eqb_spec (config.SessionDir (config.Claude cfg))
                  config.SessionNone) as [N|N]; cbn [negb]; [intros []|].
      destruct (security.DirExists w _); [|intros []].
      intros [<-|[]]. cbn [ReadOnly]. split; [exact N|].
      destruct (String.eqb_spec (config.SessionDir (config.Claude cfg))
                  config.SessionReadOnly) as [R|R].
      * split; [auto|reflexivity].
      * split; [discriminate|]. intros [H|H]; contradiction.
  - intros home' [= <-] Hauth Hdir.
    assert (Ha : String.eqb (credentials.authMode cfg) config.AuthAuto
                 || String.eqb (credentials.authMode cfg) config.AuthSession
                 = true).
    { destruct Hauth as [-> | ->]; reflexivity. }
    rewrite Ha, Hdir. split.
    + intros ->. reflexivity.
    + intros H1 H2 H3.
      destruct (String.eqb_spec (config.SessionDir (config.Claude cfg)) "");
        [contradiction|].
      destruct (String.eqb_spec (config.SessionDir (config.Claude cfg))
                  config.SessionNone); [contradiction|].
      destruct (String.eqb_spec (config.SessionDir (config.Claude cfg))
                  config.SessionReadOnly); [contradiction|].
      reflexivity.
Qed.

Lemma session_mount_readonly_flag_witness :
  (credentials.CollectClaudeAuth host_session
     (cfg_with "auto" "readonly" "auto" "auto")).1
  = [ {| Source := "/home/u/.claude"; Target := "/tmp/.claude";
         ReadOnly := true |} ]
  ∧ (credentials.CollectClaudeAuth host_session
       (cfg_with "auto" "read-only" "auto" "auto")).1
    = [ {| Source := "/home/u/.claude"; Target := "/tmp/.claude";
           ReadOnly := false |} ].
Proof.
  destruct (session_mount_readonly_flag host_session
              (cfg_with "auto" "readonly" "auto" "auto")) as (_ & Hro).
  destruct (session_mount_readonly_flag host_session
              (cfg_with "auto" "read-only" "auto" "auto")) as (_ & Hmis).
  split.
  - exact (proj1 (Hro "/home/u" eq_refl (or_introl eq_refl) eq_refl) eq_refl).
  - apply (proj2 (Hmis "/home/u" eq_refl (or_introl eq_refl) eq_refl));
      discriminate.
Defined.

(** ** Exit handling of Runner.Run *)






(** ** Path resolution *)

Lemma clean_bytes_nonempty path : filepath.clean_bytes path ≠ [].
Proof.
  unfold filepath.clean_bytes. destruct path as [|c path]; [discriminate|].
  destruct (if filepath.isSep c then _ else _); discriminate.
Qed.

Lemma Clean_nonempty path : filepath.Clean path ≠ "".
Proof.
  unfold filepath.Clean. intros H.
  apply (clean_bytes_nonempty (list_ascii_of_string path)).
  rewrite <- (list_ascii_of_string_of_list_ascii (filepath.clean_bytes _)).
  rewrite H. reflexivity.
Qed.

Lemma Join2_cleaned a b : ∃ q, filepath.Join [a; filepath.Clean b] = filepath.Clean q.
Proof.
  cbn [filepath.Join].
  destruct (String.eqb a ""); [|eauto].
  destruct (String.eqb_spec (filepath.Clean b) "") as [E|_]; [|eauto].
  destruct (Clean_nonempty _ E).
Qed.

(** The path handed to the symlink resolution is a cleaned path. *)
Lemma absPath_cleaned w path p :
  security.absPath w path = Ok p → ∃ q, p = filepath.Clean q.
Proof.
  unfold security.absPath.
  destruct (String.eqb path ""); [discriminate|].
  destruct (if strings.HasPrefix path "~/" then _ else _) as [q|e];
    [|discriminate].
  destruct (negb _).
  - destruct (getwd w) as [cwd|e]; [|discriminate].
    intros [= <-]. apply Join2_cleaned.
  - intros [= <-]. eauto.
Qed.

Lemma IsAbs_inv p : filepath.IsAbs p = true → ∃ p', p = String "/" p'.
Proof.
  unfold filepath.IsAbs, strings.HasPrefix.
  destruct p as [|c p]; cbn [String.prefix]; [discriminate|].
  destruct (ascii_dec "/" c) as [<-|]; [eauto|discriminate].
Qed.

Lemma IsAbs_cons p : filepath.IsAbs (String "/" p) = true.
Proof.
  unfold filepath.IsAbs, strings.HasPrefix. cbn [String.prefix].
  destruct (ascii_dec "/" "/"); [destruct p; reflexivity|contradiction].
Qed.

Lemma backtrack_w_ge buf w : (1 ≤ w → 1 ≤ filepath.backtrack_w buf w 1)%nat.
Proof.
  induction w as [|w IH]; [lia|]. intros _. cbn [filepath.backtrack_w].
  destruct (1 <? S w)%nat eqn:E; cbn [andb]; [|lia].
  apply Nat.ltb_lt in E.
  destruct (negb _); [apply IH; lia|lia].
Qed.

Lemma backtrack_rooted o :
  (1 < length (filepath.Separator :: o))%nat →
  ∃ o', filepath.backtrack (filepath.Separator :: o) 1 = filepath.Separator :: o'.
Proof.
  intros Hlen. unfold filepath.backtrack.
  pose proof (backtrack_w_ge (filepath.Separator :: o)
                (length (filepath.Separator :: o) - 1)) as Hge.
  destruct (filepath.backtrack_w _ _ 1) as [|k]; [cbn [length] in *; lia|].
  cbn [firstn]. eauto.
Qed.

(** In a rooted path the main loop of Clean never removes the leading
    separator. *)
Lemma clean_loop_rooted fuel : ∀ rest o,
  ∃ o', filepath.clean_loop fuel true rest (filepath.Separator :: o) 1
        = filepath.Separator :: o'.
Proof.
  induction fuel as [|fuel IH]; intros rest o; [cbn; eauto|].
  destruct rest as [|c rest1]; [cbn; eauto|].
  cbn [filepath.clean_loop].
  destruct (filepath.isSep c); [apply IH|].
  destruct (filepath.isDot c && filepath.at_elem_end rest1); [apply IH|].
  destruct (filepath.isDot c && _).
  - destruct (1 <? length (filepath.Separator :: o))%nat eqn:E.
    + apply Nat.ltb_lt in E.
      destruct (backtrack_rooted o E) as [o' ->]. apply IH.
    + cbn [negb]. apply IH.
  - destruct (filepath.span_elem (c :: rest1)) as [e rest'].
    destruct (_ || _); cbn [app]; apply IH.
Qed.

Lemma Clean_IsAbs p : filepath.IsAbs p = true → filepath.IsAbs (filepath.Clean p) = true.
Proof.
  intros H. apply IsAbs_inv in H as [p' ->].
  unfold filepath.Clean, filepath.clean_bytes.
  cbn [list_ascii_of_string]. change (filepath.isSep "/") with true. cbn iota.
  destruct (clean_loop_rooted (length ("/"%char :: list_ascii_of_string p'))
              (tl ("/"%char :: list_ascii_of_string p')) []) as [o' Ho].
  change [filepath.Separator] with (filepath.Separator :: []).
  rewrite Ho. cbn [string_of_list_ascii]. apply IsAbs_cons.
Qed.

Lemma Join_IsAbs a b : filepath.IsAbs a = true → filepath.IsAbs (filepath.Join [a; b]) = true.
Proof.
  intros H. pose proof H as H'. apply IsAbs_inv in H' as [a' ->].
  cbn [filepath.Join strings.Join]. cbn [String.eqb].
  apply Clean_IsAbs. apply IsAbs_cons.
Qed.

(** On a host whose working directory is an absolute path, the path handed
    to the symlink resolution is absolute. *)
Lemma absPath_IsAbs w path p :
  (∀ cwd, getwd w = Ok cwd → filepath.IsAbs cwd = true) →
  security.absPath w path = Ok p → filepath.IsAbs p = true.
Proof.
  intros Hcwd. unfold security.absPath.
  destruct (String.eqb path ""); [discriminate|].
  destruct (if strings.HasPrefix path "~/" then _ else _) as [q|e];
    [|discriminate].
  destruct (filepath.IsAbs (filepath.Clean q)) eqn:E; cbn [negb].
  - intros [= <-]. exact E.
  - destruct (getwd w) as [cwd|e] eqn:Hw; [|discriminate].
    intros [= <-]. apply Join_IsAbs. apply Hcwd. reflexivity.
Qed.

(** C4 (as amended): a "not found" answer of the symlink resolution never
    fails ExpandPath, which then returns the cleaned path computed so far
    (an absolute one when the working directory of the host is absolute).
    ExpandPath fails only on the empty path, when the path starts with ~ and
    the home directory cannot be determined, when the path is relative (and
    is still relative after the ~ expansion and cleaning) and the working
    directory cannot be determined, or when symlink resolution reports an
    error other than "not found". *)
Theorem ExpandPath_failure_causes (w : World) (path : string) :
  (∀ p e, security.absPath w path = Ok p →
          evalSymlinks w p = Err e →
          os.IsNotExist e = true →
          security.ExpandPath w path = Ok p
          ∧ (∃ q, p = filepath.Clean q)
          ∧ ((∀ cwd, getwd w = Ok cwd → filepath.IsAbs cwd = true) →
             filepath.IsAbs p = true))
  ∧ (∀ err, security.ExpandPath w path = Err err →
       (path = "" ∧ err = security.errEmptyPath)
       ∨ (∃ e, os.UserHomeDir w = Err e ∧ err = security.errHomeDir e
               ∧ (strings.HasPrefix path "~/" = true ∨ path = "~"))
       ∨ (∃ e q, getwd w = Err e ∧ err = security.errGetwd e
                 ∧ filepath.IsAbs path = false
                 ∧ filepath.IsAbs (filepath.Clean q) = false
                 ∧ (q = path
                    ∨ ∃ home, os.UserHomeDir w = Ok home
                              ∧ q = security.expandTilde path home))
       ∨ (∃ p e, security.absPath w path = Ok p
                 ∧ evalSymlinks w p = Err e
                 ∧ os.IsNotExist e = false
                 ∧ err = security.errResolve e)).
Proof.
  split.
  - intros p e Habs Hsym Hne. unfold security.ExpandPath.
    rewrite Habs, Hsym, Hne. split_and!; [reflexivity| |].
    + exact (absPath_cleaned w path p Habs).
    + intros Hcwd. exact (absPath_IsAbs w path p Hcwd Habs).
  - intros err. unfold security.ExpandPath.
    destruct (security.absPath w path) as [p|e] eqn:Habs.
    + destruct (evalSymlinks w p) as [r|e] eqn:Hsym; [discriminate|].
      destruct (os.IsNotExist e) eqn:Hne; [discriminate|].
      intros [= <-]. right. right. right. exists p, e. auto.
    + intros [= <-]. revert Habs. unfold security.absPath.
      destruct (String.eqb_spec path "") as [->|Hpath].
      { intros [= <-]. left. auto. }
      destruct (strings.HasPrefix path "~/") eqn:Htilde.
      * assert (Hrel : filepath.IsAbs path = false).
        { revert Htilde. unfold filepath.IsAbs, strings.HasPrefix.
          destruct path as [|c path]; cbn [String.prefix]; [discriminate|].
          destruct (ascii_dec "~" c) as [<-|]; [|discriminate]. intros _.
          destruct (ascii_dec "/" "~"); [discriminate|reflexivity]. }
        destruct (os.UserHomeDir w) as [home|e'] eqn:Hhome.
        -- destruct (filepath.IsAbs (filepath.Clean _)) eqn:Hq; cbn [negb];
             [discriminate|].
           destruct (getwd w) as [cwd|e'] eqn:Hcwd; [discriminate|].
           intros [= <-]. right. right. left.
           exists e', (filepath.Join [home; strings.drop 2 path]).
           split_and!; try reflexivity; [exact Hrel|exact Hq|].
           right. exists home. split; [reflexivity|].
           unfold security.expandTilde. rewrite Htilde. reflexivity.
        -- intros [= <-]. right. left. eauto.
      * destruct (String.eqb_spec path "~") as [->|Hnt].
        -- destruct (os.UserHomeDir w) as [home|e'] eqn:Hhome.
           ++ destruct (filepath.IsAbs (filepath.Clean _)) eqn:Hq; cbn [negb];
                [discriminate|].
              destruct (getwd w) as [cwd|e'] eqn:Hcwd; [discriminate|].
              intros [= <-]. right. right. left. exists e', home.
              split_and!; try reflexivity; [exact Hq|].
              right. exists home. split; reflexivity.
           ++ intros [= <-]. right. left. eauto.
        -- destruct (filepath.IsAbs (filepath.Clean path)) eqn:Hq; cbn [negb];
             [discriminate|].
           destruct (getwd w) as [cwd|e'] eqn:Hcwd; [discriminate|].
           intros [= <-]. right. right. left. exists e', path.
           split_and!; try reflexivity; [|exact Hq|left; reflexivity].
           destruct (filepath.IsAbs path) eqn:Hp; [|reflexivity].
           rewrite (Clean_IsAbs path Hp) in Hq. discriminate Hq.
Qed.

Lemma ExpandPath_failure_causes_witness :
  security.absPath host_bare "~/project/new" = Ok "/home/u/project/new"
  ∧ evalSymlinks host_bare "/home/u/project/new"
    = Err (enoent "lstat" "/home/u/project/new")
  ∧ os.IsNotExist (enoent "lstat" "/home/u/project/new") = true
  ∧ security.ExpandPath host_bare "~/project/new" = Ok "/home/u/project/new"
  ∧ security.ExpandPath host_lost "src/main.go"
    = Err (security.errGetwd (enoent "getwd" "."))
  ∧ security.ExpandPath host_lost "/src/main.go" = Ok "/src/main.go"
  ∧ ∃ e q, getwd host_lost = Err e
           ∧ filepath.IsAbs "src/main.go" = false
           ∧ filepath.IsAbs (filepath.Clean q) = false
           ∧ q = "src/main.go".
Proof.
  split; [reflexivity|]. split; [reflexivity|]. split; [reflexivity|].
  split.
  { exact (proj1 (proj1 (ExpandPath_failure_causes host_bare "~/project/new")
                    "/home/u/project/new" _ eq_refl eq_refl eq_refl)). }
  split; [reflexivity|]. split; [reflexivity|].
  destruct (proj2 (ExpandPath_failure_causes host_lost "src/main.go")
              (security.errGetwd (enoent "getwd" ".")) eq_refl)
    as [[H _]|[(e & _ & H & _)|[(e & q & Hg & _ & Hrel & Hq & Hqp)|
        (p & e & H & _)]]].
  - discriminate H.
  - discriminate H.
  - exists e, q. split; [exact Hg|]. split; [exact Hrel|]. split; [exact Hq|].
    destruct Hqp as [->|(home & _ & ->)]; reflexivity.
  - discriminate H.
Defined.

(** C4 as stated fails on the empty path: on a host where the home
    directory is known and no file-system call fails at all, ExpandPath
    still returns an error. *)
Lemma ExpandPath_empty_path_fails :
  security.ExpandPath host_all_ok "" = Err security.errEmptyPath
  ∧ os.UserHomeDir host_all_ok = Ok "/home/u"
  ∧ getwd host_all_ok = Ok "/work"
  ∧ (∀ p, evalSymlinks host_all_ok p = Ok p)
  ∧ (∀ p, stat host_all_ok p = Ok true).
Proof. split_and!; reflexivity. Qed.

(** ** Mount authorization *)

Module abspath_facts.

Import filepath abspath.

Example absolute_home_u : absolute home_u = "/home/u".
Proof. reflexivity. Qed.

Example absolute_dotdot_child :
  absolute (home_u ++ [list_ascii_of_string ".gnupg";
                       list_ascii_of_string "..keys"])
  = "/home/u/.gnupg/..keys"
  ∧ isName (list_ascii_of_string "..keys") = true
  ∧ dotdotPrefixed (list_ascii_of_string "..keys") = true.
Proof. split_and!; reflexivity. Qed.

Lemma isName_inv e :
  isName e = true →
  e ≠ [] ∧ noSep e = true ∧ e ≠ [dot] ∧ e ≠ [dot; dot].
Proof.
  unfold isName. destruct e as [|c e]; [discriminate|].
  rewrite !andb_true_iff, !negb_true_iff, !bool_decide_eq_false.
  intros [[H1 H2] H3]. auto.
Qed.

Lemma join_cons e es :
  join (e :: es) = e ++ match es with [] => [] | _ => Separator :: join es end.
Proof. destruct es; cbn [join]; [rewrite app_nil_r|]; reflexivity. Qed.

Lemma join_snoc pre e :
  join (pre ++ [e]) = match pre with [] => e | _ => join pre ++ Separator :: e end.
Proof.
  induction pre as [|p pre IH]; [reflexivity|].
  cbn [app]. rewrite !join_cons, IH.
  destruct pre as [|q pre]; cbn [app].
  - rewrite app_nil_r. reflexivity.
  - rewrite <- app_assoc. reflexivity.
Qed.

Lemma join_nil_inv es :
  Forall (fun e => isName e = true) es → join es = [] → es = [].
Proof.
  destruct es as [|e es]; [reflexivity|].
  intros H. inversion H as [|? ? He Hes]; subst.
  apply isName_inv in He as (Hne & _).
  rewrite join_cons. destruct e; [contradiction|discriminate].
Qed.

Lemma noSep_cons c e :
  noSep (c :: e) = true → isSep c = false ∧ noSep e = true.
Proof.
  unfold noSep. cbn [forallb]. intros H.
  apply andb_true_iff in H as [Hc He].
  apply negb_true_iff in Hc. auto.
Qed.

Lemma span_elem_app e r :
  noSep e = true →
  at_elem_end r = true →
  span_elem (e ++ r) = (e, r).
Proof.
  intros He Hr. induction e as [|c e IH]; cbn [app].
  - destruct r as [|c r]; [reflexivity|].
    cbn in Hr |- *. rewrite Hr. reflexivity.
  - apply noSep_cons in He as [Hc He].
    cbn [span_elem]. rewrite Hc, (IH He). reflexivity.
Qed.

Lemma at_elem_end_join_tail es :
  at_elem_end (match es with [] => [] | _ => Separator :: join es end) = true.
Proof. destruct es; reflexivity. Qed.

Lemma isDot_true c : isDot c = true → c = dot.
Proof. unfold isDot. apply Ascii.eqb_eq. Qed.

(** One iteration of the main loop of Clean on a proper name. *)
Lemma clean_loop_name fuel rooted e r out dotdot :
  isName e = true →
  at_elem_end r = true →
  clean_loop (S fuel) rooted (e ++ r) out dotdot
  = clean_loop fuel rooted r
      ((if (rooted && negb (length out =? 1)%nat)
           || (negb rooted && negb (length out =? 0)%nat)
        then out ++ [Separator] else out) ++ e) dotdot.
Proof.
  intros He Hr. apply isName_inv in He as (Hne & Hsep & Hd1 & Hd2).
  pose proof (span_elem_app e r Hsep Hr) as Hspan.
  destruct e as [|c e]; [contradiction|]. clear Hne.
  cbn [app] in *. cbn [clean_loop].
  apply noSep_cons in Hsep as [Hc Hsep]. rewrite Hc.
  assert (H1 : isDot c && at_elem_end (e ++ r) = false).
  { destruct (isDot c) eqn:Hdc; [|reflexivity]. cbn [andb].
    apply isDot_true in Hdc. subst c.
    destruct e as [|c1 e]; [contradiction|].
    apply noSep_cons in Hsep as [Hc1 _]. exact Hc1. }
  rewrite H1.
  assert (H2 : isDot c && match e ++ r with
                          | c1 :: rest2 => isDot c1 && at_elem_end rest2
                          | [] => false
                          end = false).
  { destruct (isDot c) eqn:Hdc; [|reflexivity]. cbn [andb].
    apply isDot_true in Hdc. subst c.
    destruct e as [|c1 e]; [contradiction|]. cbn [app].
    destruct (isDot c1) eqn:Hdc1; [|reflexivity]. cbn [andb].
    apply isDot_true in Hdc1. subst c1.
    destruct e as [|c2 e]; [contradiction|].
    apply noSep_cons in Hsep as [_ Hsep].
    apply noSep_cons in Hsep as [Hc2 _]. exact Hc2. }
  rewrite H2, Hspan. reflexivity.
Qed.

Lemma clean_loop_nil fuel rooted out dotdot :
  clean_loop fuel rooted [] out dotdot = out.
Proof. destruct fuel; reflexivity. Qed.

Lemma abs_bytes_snoc pre e :
  Forall (fun e => isName e = true) pre →
  (if negb (length (abs_bytes pre) =? 1)%nat then abs_bytes pre ++ [Separator]
   else abs_bytes pre) ++ e
  = abs_bytes (pre ++ [e]).
Proof.
  intros Hpre. unfold abs_bytes. rewrite join_snoc.
  destruct pre as [|p pre]; [reflexivity|].
  inversion Hpre as [|? ? Hp _]; subst.
  apply isName_inv in Hp as (Hne & _).
  assert (Hlen : (length (Separator :: join (p :: pre)) =? 1)%nat = false).
  { apply Nat.eqb_neq. rewrite join_cons. cbn [length]. rewrite length_app.
    destruct p; [contradiction|]. cbn [length]. lia. }
  rewrite Hlen. cbn [negb]. cbn [app]. rewrite <- app_assoc. reflexivity.
Qed.

Lemma clean_loop_join es : ∀ pre fuel,
  Forall (fun e => isName e = true) es →
  Forall (fun e => isName e = true) pre →
  (length (join es) ≤ fuel)%nat →
  clean_loop fuel true (join es) (abs_bytes pre) 1 = abs_bytes (pre ++ es).
Proof.
  induction es as [|e es IH]; intros pre fuel Hes Hpre Hfuel.
  - cbn [join]. rewrite clean_loop_nil, app_nil_r. reflexivity.
  - inversion Hes as [|? ? He Hes']; subst.
    pose proof (isName_inv e He) as (Hne & _).
    rewrite join_cons in Hfuel |- *. rewrite length_app in Hfuel.
    destruct fuel as [|fuel]; [destruct e; [contradiction|cbn in Hfuel; lia]|].
    rewrite (clean_loop_name _ _ _ _ _ _ He (at_elem_end_join_tail es)).
    cbn [andb negb orb]. rewrite orb_false_r.
    rewrite (abs_bytes_snoc pre e Hpre).
    destruct es as [|e' es].
    + rewrite clean_loop_nil. reflexivity.
    + destruct fuel as [|fuel].
      { destruct e; [contradiction|cbn in Hfuel; lia]. }
      cbn [clean_loop]. change (isSep Separator) with true. cbn iota.
      rewrite (IH (pre ++ [e]) fuel Hes').
      * rewrite <- app_assoc. reflexivity.
      * apply Forall_app. split; [exact Hpre|]. constructor; [exact He|constructor].
      * destruct e; [contradiction|]. cbn [length] in Hfuel. lia.
Qed.

Lemma clean_bytes_absolute es :
  Forall (fun e => isName e = true) es →
  clean_bytes (abs_bytes es) = abs_bytes es.
Proof.
  intros Hes. unfold clean_bytes. cbn [abs_bytes].
  change (isSep Separator) with true. cbn iota. cbn [tl].
  change [Separator] with (abs_bytes []).
  rewrite (clean_loop_join es [] _ Hes);
    [|apply Forall_nil; exact I|unfold abs_bytes; cbn [length]; lia].
  reflexivity.
Qed.


(** A well-formed absolute path is absolute and already clean. *)
Lemma Clean_absolute es :
  Forall (fun e => isName e = true) es →
  Clean (absolute es) = absolute es ∧ IsAbs (absolute es) = true.
Proof.
  intros Hes. split.
  - unfold Clean, absolute.
    rewrite list_ascii_of_string_of_list_ascii, clean_bytes_absolute
      by exact Hes.
    reflexivity.
  - unfold IsAbs, strings.HasPrefix, absolute, abs_bytes.
    cbn [string_of_list_ascii String.prefix].
    destruct (string_of_list_ascii (join es)); reflexivity.
Qed.

Lemma span_elem_join e es :
  isName e = true →
  span_elem (join (e :: es))
  = (e, match es with [] => [] | _ => Separator :: join es end).
Proof.
  intros He. rewrite join_cons.
  apply span_elem_app; [apply (isName_inv e He)|apply at_elem_end_join_tail].
Qed.

Lemma join_cons_nonempty e es : isName e = true → join (e :: es) ≠ [].
Proof.
  intros He. apply isName_inv in He as (Hne & _). rewrite join_cons.
  destruct e; [contradiction|discriminate].
Qed.

Lemma tl_join_tail es :
  tl (match es with [] => [] | _ => Separator :: join es end) = join es.
Proof. destruct es; reflexivity. Qed.

Lemma join_inj es1 : ∀ es2,
  Forall (fun e => isName e = true) es1 →
  Forall (fun e => isName e = true) es2 →
  join es1 = join es2 → es1 = es2.
Proof.
  induction es1 as [|e1 es1 IH]; intros es2 H1 H2 Heq.
  - symmetry. apply join_nil_inv; [exact H2|]. symmetry. exact Heq.
  - destruct es2 as [|e2 es2].
    { apply join_nil_inv in Heq; [discriminate|exact H1]. }
    inversion H1 as [|? ? He1 Hes1]; subst.
    inversion H2 as [|? ? He2 Hes2]; subst.
    pose proof (span_elem_join e1 es1 He1) as S1.
    pose proof (span_elem_join e2 es2 He2) as S2.
    rewrite Heq, S2 in S1. injection S1 as He Htl.
    subst e2. f_equal. apply IH; [exact Hes1|exact Hes2|].
    rewrite <- (tl_join_tail es1), <- (tl_join_tail es2), Htl. reflexivity.
Qed.

Lemma rel_loop_step fuel b t :
  b ≠ [] → t ≠ [] →
  rel_loop (S fuel) b t
  = let '(eb, b') := span_elem b in
    let '(et, t') := span_elem t in
    if bool_decide (et = eb) then rel_loop fuel (tl b') (tl t')
    else (b, eb, t).
Proof. destruct b, t; intros; try contradiction; reflexivity. Qed.

Lemma rel_loop_join bs : ∀ ts fuel,
  Forall (fun e => isName e = true) bs →
  Forall (fun e => isName e = true) ts →
  (length bs < fuel)%nat →
  rel_loop fuel (join bs) (join ts)
  = let '(bs1, ts1) := strip_common bs ts in
    (join bs1,
     match bs1, ts1 with b :: _, _ :: _ => b | _, _ => [] end,
     join ts1).
Proof.
  induction bs as [|b bs IH]; intros ts fuel Hbs Hts Hfuel.
  - cbn [join strip_common]. destruct fuel; reflexivity.
  - destruct fuel as [|fuel]; [cbn in Hfuel; lia|].
    inversion Hbs as [|? ? Hb Hbs']; subst.
    destruct ts as [|t ts].
    + cbn [strip_common]. change (join []) with (@nil ascii).
      pose proof (join_cons_nonempty b bs Hb) as Hne.
      destruct (join (b :: bs)); [contradiction|reflexivity].
    + inversion Hts as [|? ? Ht Hts']; subst.
      rewrite rel_loop_step;
        [|apply join_cons_nonempty; exact Hb|apply join_cons_nonempty; exact Ht].
      rewrite (span_elem_join b bs Hb), (span_elem_join t ts Ht).
      cbn [strip_common].
      destruct (bool_decide (t = b)); [|reflexivity].
      rewrite !tl_join_tail.
      apply IH; [exact Hbs'|exact Hts'|cbn [length] in Hfuel; lia].
Qed.

Lemma strip_common_Forall (P : list ascii → Prop) bs : ∀ ts bs1 ts1,
  strip_common bs ts = (bs1, ts1) → Forall P bs → Forall P bs1.
Proof.
  induction bs as [|b bs IH]; intros ts bs1 ts1.
  - cbn. intros [= <- _] H. exact H.
  - destruct ts as [|t ts]; cbn [strip_common].
    + intros [= <- _] H. exact H.
    + destruct (bool_decide (t = b)).
      * intros Hs H. inversion H; subst. eauto.
      * intros [= <- _] H. exact H.
Qed.

Lemma strip_common_app bs rest : strip_common bs (bs ++ rest) = ([], rest).
Proof.
  induction bs as [|b bs IH]; [reflexivity|].
  cbn [app strip_common]. rewrite bool_decide_eq_true_2 by reflexivity. exact IH.
Qed.

Lemma strip_common_nil bs : ∀ ts ts1,
  strip_common bs ts = ([], ts1) → ts = bs ++ ts1.
Proof.
  induction bs as [|b bs IH]; intros ts ts1.
  - cbn. intros [= ->]. reflexivity.
  - destruct ts as [|t ts]; [discriminate|]. cbn [strip_common].
    destruct (bool_decide_reflect (t = b)) as [->|_]; [|discriminate].
    intros H. rewrite (IH _ _ H). reflexivity.
Qed.

Lemma length_join_ge es :
  Forall (fun e => isName e = true) es → (length es ≤ length (join es))%nat.
Proof.
  induction 1 as [|e es He _ IH]; [reflexivity|].
  apply isName_inv in He as (Hne & _).
  rewrite join_cons, length_app. cbn [length].
  destruct e; [contradiction|]. destruct es; cbn [length] in *; lia.
Qed.

Lemma HasPrefix_dotdot l :
  strings.HasPrefix (string_of_list_ascii l) ".." = dotdotPrefixed l.
Proof.
  unfold strings.HasPrefix, dotdotPrefixed, isDot, dot.
  destruct l as [|c1 [|c2 l]]; cbn [string_of_list_ascii String.prefix].
  - reflexivity.
  - destruct (ascii_dec "." c1); reflexivity.
  - destruct (ascii_dec "." c1) as [<-|Hn1].
    + destruct (ascii_dec "." c2) as [<-|Hn2].
      * destruct (string_of_list_ascii l); reflexivity.
      * symmetry. apply andb_false_iff. right. apply Ascii.eqb_neq. congruence.
    + symmetry. apply andb_false_iff. left. apply Ascii.eqb_neq. congruence.
Qed.

Lemma dotdotPrefixed_join e es :
  isName e = true → dotdotPrefixed (join (e :: es)) = dotdotPrefixed e.
Proof.
  intros He. apply isName_inv in He as (Hne & Hsep & Hd1 & Hd2).
  rewrite join_cons.
  destruct e as [|c1 [|c2 e]]; [contradiction| |reflexivity].
  destruct es as [|e' es]; [reflexivity|].
  cbn. rewrite andb_false_r. reflexivity.
Qed.

Lemma absolute_bytes es : list_ascii_of_string (absolute es) = abs_bytes es.
Proof. apply list_ascii_of_string_of_list_ascii. Qed.

Lemma absolute_inj es1 es2 :
  Forall (fun e => isName e = true) es1 →
  Forall (fun e => isName e = true) es2 →
  absolute es1 = absolute es2 → es1 = es2.
Proof.
  intros H1 H2 Heq. apply (f_equal list_ascii_of_string) in Heq.
  rewrite !absolute_bytes in Heq. injection Heq as Heq.
  apply join_inj; assumption.
Qed.

(** Rel between two different well-formed absolute paths: below the common
    names, go up once per remaining name of the base, then down the
    remaining names of the target. *)
Lemma Rel_absolute esR esP :
  Forall (fun e => isName e = true) esR →
  Forall (fun e => isName e = true) esP →
  esP ≠ esR →
  Rel (absolute esR) (absolute esP)
  = let '(bs1, ts1) := strip_common esR esP in
    match bs1 with
    | [] => Ok (string_of_list_ascii (join ts1))
    | _ => Ok (string_of_list_ascii
                 (match join ts1 with
                  | [] => [dot; dot] ++ dotdots (count_sep (join bs1))
                  | t0 => ([dot; dot] ++ dotdots (count_sep (join bs1)))
                            ++ Separator :: t0
                  end))
    end.
Proof.
  intros HR HP Hne. unfold Rel.
  rewrite !absolute_bytes, !clean_bytes_absolute by assumption.
  rewrite bool_decide_eq_false_2.
  2:{ intros Heq. apply Hne. injection Heq as Heq. apply join_inj; assumption. }
  rewrite (bool_decide_eq_false_2 (abs_bytes esR = [dot])) by discriminate.
  unfold abs_bytes. change (isSep Separator) with true. cbn [eqb negb].
  cbn [length]. rewrite rel_loop_step by discriminate.
  cbn [span_elem]. change (isSep Separator) with true. cbn iota.
  rewrite bool_decide_eq_true_2 by reflexivity. cbn [tl].
  rewrite rel_loop_join; [|exact HR|exact HP|].
  2:{ pose proof (length_join_ge esR HR). lia. }
  destruct (strip_common esR esP) as [bs1 ts1] eqn:Hstrip.
  pose proof (strip_common_Forall _ _ _ _ _ Hstrip HR) as Hbs1.
  assert (Hdd : bool_decide
                  (match bs1, ts1 with b :: _, _ :: _ => b | _, _ => [] end
                   = [dot; dot]) = false).
  { apply bool_decide_eq_false_2.
    destruct bs1 as [|b bs1]; [discriminate|].
    destruct ts1 as [|t ts1]; [discriminate|].
    inversion Hbs1 as [|? ? Hb _]; subst.
    apply isName_inv in Hb as (_ & _ & _ & Hd2). exact Hd2. }
  rewrite Hdd.
  destruct bs1 as [|b bs1]; [reflexivity|].
  inversion Hbs1 as [|? ? Hb _]; subst.
  pose proof (join_cons_nonempty b bs1 Hb) as Hj.
  destruct (join (b :: bs1)) as [|c l] eqn:E; [contradiction|].
  destruct (join ts1); reflexivity.
Qed.

(** pathMatches on well-formed absolute paths: exactly [covers]. *)
Theorem pathMatches_absolute esP esR :
  Forall (fun e => isName e = true) esP →
  Forall (fun e => isName e = true) esR →
  security.pathMatches (absolute esP) (absolute esR) = true
  ↔ esP = esR
    ∨ ∃ e rest, esP = esR ++ e :: rest ∧ dotdotPrefixed e = false.
Proof.
  intros HP HR. unfold security.pathMatches.
  destruct (String.eqb_spec (absolute esP) (absolute esR)) as [Heq|Hneq].
  { split; [|reflexivity]. intros _. left.
    apply absolute_inj; assumption. }
  assert (Hne : esP ≠ esR) by congruence.
  rewrite (Rel_absolute esR esP HR HP Hne).
  destruct (strip_common esR esP) as [bs1 ts1] eqn:Hstrip.
  destruct bs1 as [|b bs1].
  - apply strip_common_nil in Hstrip. subst esP.
    destruct ts1 as [|t ts1]; [rewrite app_nil_r in Hne; contradiction|].
    apply Forall_app in HP as [_ HP]. inversion HP as [|? ? Ht _]; subst.
    rewrite HasPrefix_dotdot, (dotdotPrefixed_join t ts1 Ht), negb_true_iff.
    split.
    + intros Hd. right. eauto.
    + intros [Habs|(e & rest & Heq & Hd)]; [contradiction|].
      apply app_inv_head in Heq. injection Heq as -> _. exact Hd.
  - split.
    + rewrite HasPrefix_dotdot.
      destruct (join ts1) as [|c l]; cbn; discriminate.
    + intros [Habs|(e & rest & Heq & Hd)]; [contradiction|].
      subst esP. rewrite strip_common_app in Hstrip. discriminate.
Qed.


Lemma bytes_append a b :
  list_ascii_of_string (a +:+ b)
  = list_ascii_of_string a ++ list_ascii_of_string b.
Proof.
  induction a as [|c a IH]; [reflexivity|].
  change (String c a +:+ b) with (String c (a +:+ b)).
  cbn [list_ascii_of_string app]. f_equal. exact IH.
Qed.

Lemma join_app es1 es2 :
  es1 ≠ [] → es2 ≠ [] →
  join (es1 ++ es2) = join es1 ++ Separator :: join es2.
Proof.
  intros H1 H2. induction es1 as [|e es1 IH]; [contradiction|].
  cbn [app]. rewrite !join_cons.
  destruct es1 as [|e' es1].
  - cbn [app]. destruct es2; [contradiction|]. rewrite app_nil_r. reflexivity.
  - rewrite IH by discriminate. cbn [app]. rewrite <- app_assoc. reflexivity.
Qed.

Lemma clean_loop_sep fuel rooted rest out dotdot :
  clean_loop (S fuel) rooted (Separator :: rest) out dotdot
  = clean_loop fuel rooted rest out dotdot.
Proof. reflexivity. Qed.

Lemma clean_bytes_root_join es :
  Forall (fun e => isName e = true) es →
  clean_bytes (Separator :: Separator :: join es) = abs_bytes es.
Proof.
  intros Hes. unfold clean_bytes.
  change (isSep Separator) with true. cbn iota. cbn [tl].
  change (length (Separator :: Separator :: join es))
    with (S (S (length (join es)))).
  rewrite clean_loop_sep.
  change [Separator] with (abs_bytes []).
  rewrite (clean_loop_join es [] _ Hes); [|apply Forall_nil; exact I|lia].
  reflexivity.
Qed.

(** Joining a well-formed home directory and a relative path of names. *)
Lemma Join_absolute esH es :
  Forall (fun e => isName e = true) esH →
  Forall (fun e => isName e = true) es →
  es ≠ [] →
  filepath.Join [absolute esH; string_of_list_ascii (join es)]
  = absolute (esH ++ es).
Proof.
  intros HH Hes Hne. cbn [filepath.Join strings.Join].
  destruct (String.eqb_spec (absolute esH) "") as [E|_]; [discriminate E|].
  unfold Clean, absolute. f_equal.
  rewrite !bytes_append, !list_ascii_of_string_of_list_ascii.
  change (list_ascii_of_string "/") with [Separator].
  destruct esH as [|h esH].
  - cbn [app abs_bytes join]. apply clean_bytes_root_join. exact Hes.
  - replace (abs_bytes (h :: esH) ++ [Separator] ++ join es)
      with (abs_bytes ((h :: esH) ++ es)).
    + apply clean_bytes_absolute. apply Forall_app. auto.
    + unfold abs_bytes. rewrite join_app by (discriminate || assumption).
      reflexivity.
Qed.

Lemma expandTilde_home esH es rule :
  Forall (fun e => isName e = true) esH →
  Forall (fun e => isName e = true) es →
  es ≠ [] →
  rule = String "~" (String "/" (string_of_list_ascii (join es))) →
  security.expandTilde rule (absolute esH) = absolute (esH ++ es).
Proof.
  intros HH Hes Hne ->. unfold security.expandTilde.
  replace (strings.HasPrefix _ "~/") with true.
  - cbn [strings.drop]. apply Join_absolute; assumption.
  - unfold strings.HasPrefix. cbn [String.prefix].
    destruct (string_of_list_ascii (join es)); reflexivity.
Qed.

Lemma hardDeniedElems_names :
  Forall (fun es => Forall (fun e => isName e = true) es ∧ es ≠ []) hardDeniedElems.
Proof. repeat constructor; discriminate. Qed.

Lemma expandTilde_denied esH :
  Forall (fun e => isName e = true) esH →
  map (fun rule => security.expandTilde rule (absolute esH))
      security.HardcodedDeniedPaths
  = map (fun es => absolute (esH ++ es)) hardDeniedElems.
Proof.
  intros HH. unfold security.HardcodedDeniedPaths, hardDeniedElems.
  cbn [map].
  repeat match goal with
         | |- _ :: _ = _ :: _ => f_equal
         | |- security.expandTilde _ _ = _ =>
             apply expandTilde_home;
             [exact HH|repeat constructor|discriminate|reflexivity]
         end.
Qed.

Lemma firstMatch_None path home rules :
  security.firstMatch path home rules = None
  ↔ Forall (fun target => security.pathMatches path target = false)
      (map (fun rule => security.expandTilde rule home) rules).
Proof.
  induction rules as [|rule rules IH]; cbn [security.firstMatch map].
  - split; [intros _; apply Forall_nil; exact I|reflexivity].
  - destruct (security.pathMatches path (security.expandTilde rule home)) eqn:E.
    + split; [discriminate|]. intros H. inversion H; congruence.
    + rewrite IH. split; [intros H; constructor; assumption|].
      intros H. inversion H; assumption.
Qed.

Lemma firstMatch_Some path home rules rule :
  security.firstMatch path home rules = Some rule →
  In rule rules
  ∧ security.pathMatches path (security.expandTilde rule home) = true.
Proof.
  induction rules as [|r rules IH]; cbn [security.firstMatch]; [discriminate|].
  destruct (security.pathMatches path (security.expandTilde r home)) eqn:E.
  - intros [= <-]. split; [left; reflexivity|exact E].
  - intros H. destruct (IH H). split; [right|]; assumption.
Qed.

(** The hard-denied tier on well-formed absolute paths: a path passes iff
    no rule below the home directory covers it; a failure is PathDenied. *)
Theorem ValidateMountPath_absolute (w : World) esH esP :
  os.UserHomeDir w = Ok (absolute esH) →
  Forall (fun e => isName e = true) esH →
  Forall (fun e => isName e = true) esP →
  (security.ValidateMountPath w (absolute esP) = None
   ↔ ∀ rule, In rule hardDeniedElems → ¬ covers (esH ++ rule) esP)
  ∧ (∀ err, security.ValidateMountPath w (absolute esP) = Some err →
            ∃ rule, In rule security.HardcodedDeniedPaths
                    ∧ err = security.PathDenied rule).
Proof.
  intros Hhome HH HP. unfold security.ValidateMountPath. rewrite Hhome.
  split.
  - transitivity (security.firstMatch (absolute esP) (absolute esH)
                    security.HardcodedDeniedPaths = None).
    { destruct (security.firstMatch _ _ _); split; congruence. }
    rewrite firstMatch_None, (expandTilde_denied esH HH).
    rewrite Forall_map, Forall_forall.
    pose proof hardDeniedElems_names as Hnames.
    rewrite Forall_forall in Hnames.
    split; intros H rule Hin.
    + apply list_elem_of_In in Hin. specialize (H rule Hin).
      destruct (Hnames rule Hin) as [Hrule _].
      intros Hc. apply pathMatches_absolute in Hc;
        [congruence|exact HP|apply Forall_app; auto].
    + destruct (Hnames rule Hin) as [Hrule _].
      apply list_elem_of_In in Hin. specialize (H rule Hin).
      destruct (security.pathMatches _ _) eqn:E; [|reflexivity].
      apply pathMatches_absolute in E;
        [contradiction|exact HP|apply Forall_app; auto].
  - intros err.
    destruct (security.firstMatch _ _ _) as [rule|] eqn:E; [|discriminate].
    intros [= <-]. apply firstMatch_Some in E as [Hin _]. eauto.
Qed.

(** The defect in general: below any hard-denied rule, a child whose name
    starts with two dots passes the validation. *)
Lemma dotdot_child_passes (w : World) esH rule e rest :
  os.UserHomeDir w = Ok (absolute esH) →
  Forall (fun e => isName e = true) esH →
  In rule hardDeniedElems →
  isName e = true →
  Forall (fun e => isName e = true) rest →
  dotdotPrefixed e = true →
  security.ValidateMountPath w (absolute (esH ++ rule ++ e :: rest)) = None.
Proof.
  intros Hhome HH Hrule He Hrest Hdd.
  pose proof hardDeniedElems_names as Hnames. rewrite Forall_forall in Hnames.
  assert (HP : Forall (fun e => isName e = true) (esH ++ rule ++ e :: rest)).
  { apply list_elem_of_In in Hrule. destruct (Hnames rule Hrule) as [Hr _].
    rewrite !Forall_app. auto. }
  apply (ValidateMountPath_absolute w esH _ Hhome HH HP).
  intros rule' Hrule' [Heq|(e' & rest' & Heq & Hd')].
  - apply app_inv_head in Heq.
    unfold hardDeniedElems in Hrule, Hrule'. cbn [In] in Hrule, Hrule'.
    repeat (destruct Hrule as [<-|Hrule]; [|]); try contradiction;
      repeat (destruct Hrule' as [<-|Hrule']; [|]); try contradiction;
      cbn [app] in Heq; try discriminate Heq;
      injection Heq; intros; subst; discriminate.
  - rewrite <- app_assoc in Heq. apply app_inv_head in Heq.
    unfold hardDeniedElems in Hrule, Hrule'. cbn [In] in Hrule, Hrule'.
    repeat (destruct Hrule as [<-|Hrule]; [|]); try contradiction;
      repeat (destruct Hrule' as [<-|Hrule']; [|]); try contradiction;
      cbn [app] in Heq; try discriminate Heq;
      injection Heq; intros; subst; try discriminate; congruence.
Qed.

(** Conversely, the rule itself and every path below it whose first name
    under the rule does not start with two dots is denied. *)
Lemma denied_below_rule (w : World) esH rule tail :
  os.UserHomeDir w = Ok (absolute esH) →
  Forall (fun e => isName e = true) esH →
  In rule hardDeniedElems →
  Forall (fun e => isName e = true) tail →
  match tail with [] => true | e :: _ => negb (dotdotPrefixed e) end = true →
  ∃ r, In r security.HardcodedDeniedPaths
       ∧ security.ValidateMountPath w (absolute (esH ++ rule ++ tail))
         = Some (security.PathDenied r).
Proof.
  intros Hhome HH Hrule Htail Hdd.
  pose proof hardDeniedElems_names as Hnames. rewrite Forall_forall in Hnames.
  assert (HP : Forall (fun e => isName e = true) (esH ++ rule ++ tail)).
  { pose proof Hrule as Hin. apply list_elem_of_In in Hin.
    destruct (Hnames rule Hin) as [Hr _]. rewrite !Forall_app. auto. }
  destruct (ValidateMountPath_absolute w esH _ Hhome HH HP) as [Hnone Hsome].
  destruct (security.ValidateMountPath w _) as [err|] eqn:E.
  - destruct (Hsome err eq_refl) as (r & Hr & ->). eauto.
  - exfalso. apply (proj1 Hnone eq_refl rule Hrule).
    destruct tail as [|e rest].
    + left. rewrite app_nil_r. reflexivity.
    + right. exists e, rest. rewrite app_assoc. split; [reflexivity|].
      apply negb_true_iff. exact Hdd.
Qed.

End abspath_facts.

(** C1 (the code at the failing input): the --mount loop of runContainer
    accepts ~/.ssh, a credential-controlled directory, as a writable mount,
    because it calls ValidateMountPath; ValidateMountPathStrict, which is
    documented as the check for user-provided mounts, rejects the same path. *)
Theorem flag_mount_of_ssh_dir_accepted :
  cli.flagMounts host_bare false ["~/.ssh"]
  = Ok [ {| Source := "/home/u/.ssh"; Target := "/home/u/.ssh";
            ReadOnly := false |} ]
  ∧ cli.flagMounts host_bare true ["~/.config/gcloud"]
    = Ok [ {| Source := "/home/u/.config/gcloud";
              Target := "/home/u/.config/gcloud"; ReadOnly := true |} ]
  ∧ security.ValidateMountPathStrict host_bare "/home/u/.ssh"
    = Some (security.PathRequiresCredential "~/.ssh")
  ∧ (∃ opts,
       cli.runContainer host_bare (cfg_with "auto" "" "auto" "auto")
         {| cli.workdir := ""; cli.mount := ["~/.ssh"]; cli.mount_ro := [];
            cli.no_external_credentials := false; cli.image := "" |} []
       = Ok opts
       ∧ Mounts opts
         = [ {| Source := "/work"; Target := "/workspace"; ReadOnly := false |};
             {| Source := "/home/u/.ssh"; Target := "/home/u/.ssh";
                ReadOnly := false |} ]).
Proof.
  split_and!; try reflexivity.
  eexists. split; [vm_compute; reflexivity|reflexivity].
Qed.

(** C2 (the code at the failing input): a path below ~/.gnupg whose first
    element under the rule starts with two dots is not denied.  Rel returns
    "..keys" for it, and pathMatches takes the leading ".." of that name for
    a parent step. *)
Theorem hard_denied_child_not_denied :
  security.expandTilde "~/.gnupg" "/home/u" = "/home/u/.gnupg"
  ∧ filepath.Rel "/home/u/.gnupg" "/home/u/.gnupg/..keys" = Ok "..keys"
  ∧ security.ValidateMountPath host_bare "/home/u/.gnupg/..keys" = None
  ∧ security.ValidateMountPath host_bare "/home/u/.gnupg/keys"
    = Some (security.PathDenied "~/.gnupg")
  ∧ cli.flagMounts host_bare false ["~/.gnupg/..keys"]
    = Ok [ {| Source := "/home/u/.gnupg/..keys";
              Target := "/home/u/.gnupg/..keys"; ReadOnly := false |} ].
Proof. split_and!; reflexivity. Qed.

(** C3 (the code at the failing input): pathMatches accepts the rule itself
    and rejects a sibling such as ~/.netrc.bak, whose validation succeeds,
    but it also rejects a path that is strictly nested inside the rule when
    the name of its first element below the rule starts with two dots. *)
Theorem pathMatches_misses_dotdot_names :
  security.pathMatches "/home/u/.netrc" "/home/u/.netrc" = true
  ∧ security.pathMatches "/home/u/.netrc.bak" "/home/u/.netrc" = false
  ∧ security.ValidateMountPath host_bare "/home/u/.netrc.bak" = None
  ∧ security.pathMatches "/home/u/.gnupg/private-keys-v1.d" "/home/u/.gnupg" = true
  ∧ security.pathMatches "/home/u/.gnupg/..keys" "/home/u/.gnupg" = false
  ∧ security.pathMatches "/home/u/.gnupg/...d/key" "/home/u/.gnupg" = false.
Proof. split_and!; reflexivity. Qed.

(** * Further properties *)

Module dir_facts.
Import filepath abspath abspath_facts.

Lemma covers_trans esD esP esQ : covers esD esP → covers esP esQ → covers esD esQ.
Proof.
  intros [->|(e & rest & -> & He)]; [auto|].
  intros [->|(e' & rest' & -> & _)].
  - right. eauto.
  - right. exists e, (rest ++ e' :: rest'). split; [|exact He].
    rewrite <- app_assoc. reflexivity.
Qed.

(** X1: on well-formed absolute paths IsPathInDirectory holds exactly when
    the path is the directory or lies below it with a first name under it
    that does not start with two dots; on such paths it is transitive. *)
Theorem IsPathInDirectory_absolute esD esP esQ :
  Forall (fun e => isName e = true) esD →
  Forall (fun e => isName e = true) esP →
  Forall (fun e => isName e = true) esQ →
  (security.IsPathInDirectory (absolute esP) (absolute esD) = true
   ↔ covers esD esP)
  ∧ (security.IsPathInDirectory (absolute esP) (absolute esD) = true →
     security.IsPathInDirectory (absolute esQ) (absolute esP) = true →
     security.IsPathInDirectory (absolute esQ) (absolute esD) = true).
Proof.
  intros HD HP HQ. unfold security.IsPathInDirectory.
  split; [exact (pathMatches_absolute esP esD HP HD)|].
  intros H1 H2.
  apply (pathMatches_absolute esP esD HP HD) in H1.
  apply (pathMatches_absolute esQ esP HQ HP) in H2.
  apply (pathMatches_absolute esQ esD HQ HD).
  exact (covers_trans esD esP esQ H1 H2).
Qed.

Lemma IsPathInDirectory_absolute_witness :
  security.IsPathInDirectory "/home/u/.ssh" "/home/u" = true
  ∧ security.IsPathInDirectory "/home/u/.ssh/id_rsa" "/home/u/.ssh" = true
  ∧ security.IsPathInDirectory "/home/u/.ssh/id_rsa" "/home/u" = true.
Proof.
  split; [reflexivity|]. split; [reflexivity|].
  refine (proj2 (IsPathInDirectory_absolute home_u
                   (home_u ++ [nm ".ssh"])
                   (home_u ++ [nm ".ssh"; nm "id_rsa"]) _ _ _) _ _);
    try (repeat constructor); reflexivity.
Defined.

End dir_facts.

Module rules_facts.
Import filepath abspath abspath_facts rules.

Lemma controlledElems_names :
  Forall (fun es => Forall (fun e => isName e = true) es ∧ es ≠ []) controlledElems.
Proof. repeat constructor; discriminate. Qed.

Lemma expandTilde_controlled esH :
  Forall (fun e => isName e = true) esH →
  map (fun rule => security.expandTilde rule (absolute esH))
      security.CredentialControlledPaths
  = map (fun es => absolute (esH ++ es)) controlledElems.
Proof.
  intros HH. unfold security.CredentialControlledPaths, controlledElems.
  cbn [map].
  repeat match goal with
         | |- _ :: _ = _ :: _ => f_equal
         | |- security.expandTilde _ _ = _ =>
             apply expandTilde_home;
             [exact HH|repeat constructor|discriminate|reflexivity]
         end.
Qed.

(** No rule of a list matches iff no rule covers the path. *)
Lemma firstMatch_None_covered esH esP rules elems :
  Forall (fun e => isName e = true) esH →
  Forall (fun e => isName e = true) esP →
  Forall (fun es => Forall (fun e => isName e = true) es ∧ es ≠ []) elems →
  map (fun rule => security.expandTilde rule (absolute esH)) rules
  = map (fun es => absolute (esH ++ es)) elems →
  security.firstMatch (absolute esP) (absolute esH) rules = None
  ↔ ¬ covered esH elems esP.
Proof.
  intros HH HP Hnames Hmap.
  rewrite firstMatch_None, Hmap, Forall_map.
  rewrite Forall_forall in Hnames. rewrite Forall_forall.
  split.
  - intros H (rule & Hin & Hc). apply list_elem_of_In in Hin.
    destruct (Hnames rule Hin) as [Hrule _].
    specialize (H rule Hin).
    apply pathMatches_absolute in Hc; [congruence|exact HP|].
    apply Forall_app. auto.
  - intros H rule Hin. destruct (Hnames rule Hin) as [Hrule _].
    destruct (security.pathMatches _ _) eqn:E; [|reflexivity].
    exfalso. apply H. exists rule. split; [apply list_elem_of_In; exact Hin|].
    apply pathMatches_absolute; [exact HP|apply Forall_app; auto|exact E].
Qed.

Lemma firstMatch_Some_covered esH esP rules elems rule :
  Forall (fun e => isName e = true) esH →
  Forall (fun e => isName e = true) esP →
  Forall (fun es => Forall (fun e => isName e = true) es ∧ es ≠ []) elems →
  map (fun rule => security.expandTilde rule (absolute esH)) rules
  = map (fun es => absolute (esH ++ es)) elems →
  security.firstMatch (absolute esP) (absolute esH) rules = Some rule →
  In rule rules ∧ covered esH elems esP.
Proof.
  intros HH HP Hnames Hmap Hfm.
  apply firstMatch_Some in Hfm as [Hin Hm]. split; [exact Hin|].
  assert (Hin' : In (security.expandTilde rule (absolute esH))
                    (map (fun es => absolute (esH ++ es)) elems)).
  { rewrite <- Hmap.
    exact (in_map (fun r => security.expandTilde r (absolute esH)) _ _ Hin). }
  apply in_map_iff in Hin' as (es & Heq & Hes).
  exists es. split; [exact Hes|].
  rewrite Forall_forall in Hnames.
  destruct (Hnames es (proj2 (list_elem_of_In _ _) Hes)) as [Hn _].
  rewrite <- Heq in Hm.
  apply pathMatches_absolute in Hm; [exact Hm|exact HP|apply Forall_app; auto].
Qed.

Lemma ValidateMountPathStrict_None (w : World) esH esP :
  os.UserHomeDir w = Ok (absolute esH) →
  Forall (fun e => isName e = true) esH →
  Forall (fun e => isName e = true) esP →
  ¬ covered esH hardDeniedElems esP ∧ ¬ covered esH controlledElems esP →
  security.ValidateMountPathStrict w (absolute esP) = None.
Proof.
  intros Hhome HH HP [Hhard Hctl].
  unfold security.ValidateMountPathStrict, security.ValidateMountPath.
  rewrite Hhome.
  rewrite (proj2 (firstMatch_None_covered esH esP _ _ HH HP hardDeniedElems_names
                    (expandTilde_denied esH HH)) Hhard).
  rewrite (proj2 (firstMatch_None_covered esH esP _ _ HH HP controlledElems_names
                    (expandTilde_controlled esH HH)) Hctl).
  reflexivity.
Qed.

(** X2: the strict check on well-formed absolute paths: a path passes iff no
    hard-denied and no credential-controlled rule below the home directory
    covers it; the hard-denied tier is reported first, with the error of
    ValidateMountPath, and otherwise the error names the credential rule. *)
Theorem ValidateMountPathStrict_absolute (w : World) esH esP :
  os.UserHomeDir w = Ok (absolute esH) →
  Forall (fun e => isName e = true) esH →
  Forall (fun e => isName e = true) esP →
  (security.ValidateMountPathStrict w (absolute esP) = None
   ↔ ¬ covered esH hardDeniedElems esP ∧ ¬ covered esH controlledElems esP)
  ∧ (∀ err, security.ValidateMountPathStrict w (absolute esP) = Some err →
       (security.ValidateMountPath w (absolute esP) = Some err
        ∧ covered esH hardDeniedElems esP
        ∧ ∃ rule, In rule security.HardcodedDeniedPaths
                  ∧ err = security.PathDenied rule)
       ∨ (security.ValidateMountPath w (absolute esP) = None
          ∧ covered esH controlledElems esP
          ∧ ∃ rule, In rule security.CredentialControlledPaths
                    ∧ err = security.PathRequiresCredential rule)).
Proof.
  intros Hhome HH HP.
  pose proof (firstMatch_None_covered esH esP _ _ HH HP hardDeniedElems_names
                (expandTilde_denied esH HH)) as Hhard.
  pose proof (firstMatch_None_covered esH esP _ _ HH HP controlledElems_names
                (expandTilde_controlled esH HH)) as Hctl.
  unfold security.ValidateMountPathStrict, security.ValidateMountPath.
  rewrite Hhome.
  destruct (security.firstMatch (absolute esP) (absolute esH)
              security.HardcodedDeniedPaths) as [denied|] eqn:E1.
  - destruct (firstMatch_Some_covered esH esP _ _ _ HH HP hardDeniedElems_names
                (expandTilde_denied esH HH) E1) as [Hin1 Hcov].
    split.
    + split; [discriminate|]. intros [Hn _]. contradiction.
    + intros err [= <-]. left. split; [reflexivity|]. split; [exact Hcov|].
      eauto.
  - assert (Hncov : ¬ covered esH hardDeniedElems esP) by (apply Hhard; reflexivity).
    destruct (security.firstMatch (absolute esP) (absolute esH)
                security.CredentialControlledPaths) as [controlled|] eqn:E2.
    + destruct (firstMatch_Some_covered esH esP _ _ _ HH HP
                  controlledElems_names (expandTilde_controlled esH HH) E2)
        as [Hin2 Hcov].
      split.
      * split; [discriminate|]. intros [_ Hn]. contradiction.
      * intros err [= <-]. right. split; [reflexivity|]. split; [exact Hcov|].
        eauto.
    + split.
      * split; [|reflexivity]. intros _. split; [exact Hncov|].
        apply Hctl. reflexivity.
      * discriminate.
Qed.

Lemma ValidateMountPathStrict_absolute_witness :
  security.ValidateMountPath host_all_ok "/home/u/.ssh/id_rsa" = None
  ∧ ∃ rule, In rule security.CredentialControlledPaths
            ∧ security.ValidateMountPathStrict host_all_ok "/home/u/.ssh/id_rsa"
              = Some (security.PathRequiresCredential rule).
Proof.
  split; [reflexivity|].
  destruct (security.ValidateMountPathStrict host_all_ok "/home/u/.ssh/id_rsa")
    as [err|] eqn:Hs; [|vm_compute in Hs; discriminate Hs].
  destruct (proj2 (ValidateMountPathStrict_absolute host_all_ok home_u
                     (home_u ++ [nm ".ssh"; nm "id_rsa"]) eq_refl
                     ltac:(repeat constructor) ltac:(repeat constructor))
              err Hs)
    as [(Hv & _)|(_ & _ & rule & Hin & ->)].
  - vm_compute in Hv. discriminate Hv.
  - exists rule. split; [exact Hin|reflexivity].
Defined.
End rules_facts.

Module relpath_facts.
Import filepath abspath abspath_facts relpath.

Lemma clean_loop_join_rel es : ∀ pre fuel,
  Forall (fun e => isName e = true) es →
  Forall (fun e => isName e = true) pre →
  (length (join es) ≤ fuel)%nat →
  clean_loop fuel false (join es) (join pre) 0 = join (pre ++ es).
Proof.
  induction es as [|e es IH]; intros pre fuel Hes Hpre Hfuel.
  - cbn [join]. rewrite clean_loop_nil, app_nil_r. reflexivity.
  - inversion Hes as [|? ? He Hes']; subst.
    pose proof (isName_inv e He) as (Hne & _).
    rewrite join_cons in Hfuel |- *. rewrite length_app in Hfuel.
    destruct fuel as [|fuel]; [destruct e; [contradiction|cbn in Hfuel; lia]|].
    rewrite (clean_loop_name _ _ _ _ _ _ He (at_elem_end_join_tail es)).
    cbn [andb negb orb].
    assert (Hout : (if negb (length (join pre) =? 0)%nat
                    then join pre ++ [Separator] else join pre) ++ e
                   = join (pre ++ [e])).
    { rewrite join_snoc. destruct pre as [|p pre]; [reflexivity|].
      pose proof (join_cons_nonempty p pre) as Hn.
      inversion Hpre as [|? ? Hp _]; subst. specialize (Hn Hp).
      destruct (join (p :: pre)) as [|c l] eqn:E; [contradiction|].
      cbn [length Nat.eqb negb]. rewrite <- app_assoc. reflexivity. }
    rewrite Hout.
    destruct es as [|e' es].
    + rewrite clean_loop_nil. reflexivity.
    + destruct fuel as [|fuel].
      { destruct e; [contradiction|cbn in Hfuel; lia]. }
      rewrite clean_loop_sep.
      rewrite (IH (pre ++ [e]) fuel Hes').
      * rewrite <- app_assoc. reflexivity.
      * apply Forall_app. split; [exact Hpre|]. constructor; [exact He|constructor].
      * destruct e; [contradiction|]. cbn [length] in Hfuel. lia.
Qed.

Lemma name_head e : isName e = true → ∃ c l, e = c :: l ∧ isSep c = false.
Proof.
  intros He. apply isName_inv in He as (Hne & Hsep & _).
  destruct e as [|c l]; [contradiction|].
  apply noSep_cons in Hsep as [Hc _]. eauto.
Qed.

(** A relative path of names is already clean, and not absolute. *)
Lemma Clean_relative e es :
  Forall (fun e => isName e = true) (e :: es) →
  Clean (relative (e :: es)) = relative (e :: es)
  ∧ IsAbs (relative (e :: es)) = false.
Proof.
  intros Hes. inversion Hes as [|? ? He _]; subst.
  destruct (name_head e He) as (c & l & -> & Hc).
  split.
  - unfold Clean, relative. f_equal.
    rewrite list_ascii_of_string_of_list_ascii.
    unfold clean_bytes.
    destruct (join ((c :: l) :: es)) as [|c' rest] eqn:E.
    { exfalso. exact (join_cons_nonempty _ _ He E). }
    assert (c' = c) as ->.
    { rewrite join_cons in E. cbn [app] in E. congruence. }
    rewrite Hc. rewrite <- E.
    change (@nil ascii) with (join []).
    rewrite (clean_loop_join_rel ((c :: l) :: es) [] _ Hes);
      [|apply Forall_nil; exact I|lia].
    cbn [app]. rewrite E. reflexivity.
  - unfold IsAbs, strings.HasPrefix, relative. rewrite join_cons.
    cbn [app string_of_list_ascii String.prefix].
    destruct (ascii_dec "/" c) as [<-|_]; [discriminate Hc|reflexivity].
Qed.

Lemma relative_not_tilde e es :
  isName e = true → e ≠ tilde →
  String.eqb (relative (e :: es)) "" = false
  ∧ strings.HasPrefix (relative (e :: es)) "~/" = false
  ∧ String.eqb (relative (e :: es)) "~" = false.
Proof.
  intros He Hnt. pose proof (isName_inv e He) as (_ & Hsep & _).
  destruct (name_head e He) as (c & l & -> & Hc).
  unfold relative, strings.HasPrefix. rewrite join_cons. cbn [app].
  cbn [string_of_list_ascii]. split_and!.
  - reflexivity.
  - cbn [String.prefix]. destruct (ascii_dec "~" c) as [<-|_]; [|reflexivity].
    destruct l as [|c2 l].
    + exfalso. apply Hnt. reflexivity.
    + apply noSep_cons in Hsep as [_ Hsep]. apply noSep_cons in Hsep as [Hc2 _].
      cbn [app string_of_list_ascii String.prefix].
      destruct (ascii_dec "/" c2) as [<-|_]; [discriminate Hc2|reflexivity].
  - cbn [String.eqb]. destruct (Ascii.eqb_spec c "~") as [->|_]; [|reflexivity].
    destruct l as [|c2 l]; [exfalso; apply Hnt; reflexivity|].
    reflexivity.
Qed.

Lemma absolute_not_tilde es :
  String.eqb (absolute es) "" = false
  ∧ strings.HasPrefix (absolute es) "~/" = false
  ∧ String.eqb (absolute es) "~" = false.
Proof. split_and!; reflexivity. Qed.

Lemma resolve_unresolved w path p :
  security.absPath w path = Ok p → unresolved w p →
  security.ExpandPath w path = Ok p.
Proof.
  intros Habs Hun. unfold security.ExpandPath. rewrite Habs.
  destruct Hun as [-> | (e & -> & ->)]; reflexivity.
Qed.

(** X4: with the home directory known, "~" expands to it and "~/" followed
    by names to those names below it, provided symlink resolution leaves
    the result alone (it is not a link, or does not exist yet). *)
Theorem ExpandPath_tilde (w : World) esH es :
  os.UserHomeDir w = Ok (absolute esH) →
  Forall (fun e => isName e = true) esH →
  Forall (fun e => isName e = true) es →
  (unresolved w (absolute esH) → security.ExpandPath w "~" = Ok (absolute esH))
  ∧ (es ≠ [] → unresolved w (absolute (esH ++ es)) →
     security.ExpandPath w (String "~" (String "/" (relative es)))
     = Ok (absolute (esH ++ es))).
Proof.
  intros Hhome HH Hes. split.
  - apply resolve_unresolved. unfold security.absPath. cbn [String.eqb].
    replace (strings.HasPrefix "~" "~/") with false by reflexivity.
    cbn [Ascii.eqb Bool.eqb]. rewrite Hhome.
    destruct (Clean_absolute esH HH) as [-> ->]. reflexivity.
  - intros Hne. apply resolve_unresolved. unfold security.absPath.
    cbn [String.eqb].
    replace (strings.HasPrefix _ "~/") with true.
    2:{ unfold strings.HasPrefix. cbn [String.prefix].
        destruct (relative es); reflexivity. }
    rewrite Hhome. cbn [strings.drop]. unfold relative.
    rewrite (Join_absolute esH es HH Hes Hne).
    assert (Hall : Forall (fun e => isName e = true) (esH ++ es))
      by (apply Forall_app; auto).
    destruct (Clean_absolute _ Hall) as [-> ->]. reflexivity.
Qed.

Lemma ExpandPath_tilde_witness :
  os.UserHomeDir host_bare = Ok "/home/u"
  ∧ unresolved host_bare "/home/u/project/new"
  ∧ security.ExpandPath host_bare "~/project/new" = Ok "/home/u/project/new".
Proof.
  assert (Hu : unresolved host_bare "/home/u/project/new").
  { right. eexists. split; reflexivity. }
  split; [reflexivity|]. split; [exact Hu|].
  refine (proj2 (ExpandPath_tilde host_bare home_u [nm "project"; nm "new"]
                   eq_refl _ _) _ Hu);
    [repeat constructor|repeat constructor|discriminate].
Defined.

(** X5: a relative path of names is taken below the working directory; only
    a first name that is exactly "~" is expanded, so "~bob/x" is a directory
    named ~bob below the working directory. *)
Theorem ExpandPath_relative (w : World) esC e es :
  getwd w = Ok (absolute esC) →
  Forall (fun e => isName e = true) esC →
  Forall (fun e => isName e = true) (e :: es) →
  e ≠ tilde →
  unresolved w (absolute (esC ++ e :: es)) →
  security.ExpandPath w (relative (e :: es)) = Ok (absolute (esC ++ e :: es)).
Proof.
  intros Hcwd HC Hes Hnt. apply resolve_unresolved.
  inversion Hes as [|? ? He _]; subst.
  destruct (relative_not_tilde e es He Hnt) as (E1 & E2 & E3).
  unfold security.absPath. rewrite E1, E2, E3.
  destruct (Clean_relative e es Hes) as [-> ->]. cbn [negb].
  rewrite Hcwd. unfold relative.
  rewrite (Join_absolute esC (e :: es) HC Hes); [reflexivity|discriminate].
Qed.

Lemma ExpandPath_relative_witness :
  getwd host_all_ok = Ok "/work"
  ∧ nm "~bob" ≠ tilde
  ∧ security.ExpandPath host_all_ok "~bob/x" = Ok "/work/~bob/x".
Proof.
  assert (Hne : nm "~bob" ≠ tilde) by discriminate.
  split; [reflexivity|]. split; [exact Hne|].
  refine (ExpandPath_relative host_all_ok [nm "work"] (nm "~bob") [nm "x"]
            eq_refl _ _ Hne _);
    [repeat constructor|repeat constructor|left; reflexivity].
Defined.

(** X6: an absolute path of names is returned as it is when symlink
    resolution leaves it alone: ExpandPath is the identity on clean absolute
    paths that are not links. *)
Theorem ExpandPath_absolute (w : World) es :
  Forall (fun e => isName e = true) es →
  unresolved w (absolute es) →
  security.ExpandPath w (absolute es) = Ok (absolute es).
Proof.
  intros Hes. apply resolve_unresolved.
  destruct (absolute_not_tilde es) as (E1 & E2 & E3).
  unfold security.absPath. rewrite E1, E2, E3.
  destruct (Clean_absolute es Hes) as [-> ->]. reflexivity.
Qed.

Lemma ExpandPath_absolute_witness :
  unresolved host_all_ok "/etc/ssl/certs"
  ∧ security.ExpandPath host_all_ok "/etc/ssl/certs" = Ok "/etc/ssl/certs".
Proof.
  assert (Hu : unresolved host_all_ok "/etc/ssl/certs") by (left; reflexivity).
  split; [exact Hu|].
  refine (ExpandPath_absolute host_all_ok [nm "etc"; nm "ssl"; nm "certs"] _ Hu).
  repeat constructor.
Defined.
End relpath_facts.

(** X7: CollectClaudeAuth sets at most ANTHROPIC_API_KEY, to the host's
    value, and does so exactly when the home directory is known, the auth
    mode is auto or api-key and the variable is non-empty; in api-key mode
    nothing is mounted, and an unrecognised auth mode contributes nothing. *)
Theorem CollectClaudeAuth_by_auth_mode (w : World) (cfg : config.Config) :
  let mounts := (credentials.CollectClaudeAuth w cfg).1 in
  let env := (credentials.CollectClaudeAuth w cfg).2 in
  let key := os.Getenv w "ANTHROPIC_API_KEY" in
  let auth := credentials.authMode cfg in
  (env = ∅ ∨ env = <["ANTHROPIC_API_KEY" := key]> ∅)
  ∧ (env ≠ ∅ ↔
     is_Ok (os.UserHomeDir w) = true
     ∧ (auth = config.AuthAuto ∨ auth = config.AuthAPIKey)
     ∧ key ≠ "")
  ∧ (auth = config.AuthAPIKey → mounts = [])
  ∧ (auth ≠ config.AuthAuto → auth ≠ config.AuthSession →
     auth ≠ config.AuthAPIKey →
     credentials.CollectClaudeAuth w cfg = credentials.no_contribution).
Proof.
  intros mounts env key auth. subst mounts env.
  unfold credentials.CollectClaudeAuth. fold key auth.
  assert (Hne : ∀ v : string, <["ANTHROPIC_API_KEY" := v]> (∅ : gmap string string) ≠ ∅).
  { intros v H. apply (f_equal (fun m => m !! "ANTHROPIC_API_KEY")) in H.
    rewrite lookup_insert_eq, lookup_empty in H. discriminate. }
  destruct (os.UserHomeDir w) as [home|e]; cbn [fst snd is_Ok].
  2:{ split_and!; auto.
      split; [contradiction|]. intros [H _]. discriminate. }
  destruct (String.eqb_spec auth config.AuthAuto) as [Ha|Ha];
    destruct (String.eqb_spec auth config.AuthAPIKey) as [Hk|Hk];
    destruct (String.eqb_spec auth config.AuthSession) as [Hs|Hs];
    try (rewrite Ha in Hk; discriminate Hk);
    try (rewrite Ha in Hs; discriminate Hs);
    try (rewrite Hk in Hs; discriminate Hs);
    cbn [orb];
    destruct (String.eqb_spec key "") as [Hkey|Hkey]; cbn [negb];
    (split_and!;
     [auto
     |split; [intros H; try contradiction; split_and!; auto
             |intros (_ & Hau & Hkk); try contradiction;
              try (destruct Hau; contradiction); try apply Hne]
     |intros; try contradiction; try congruence; reflexivity
     |intros; try contradiction; try reflexivity]).
Qed.

Lemma CollectClaudeAuth_by_auth_mode_witness :
  security.DirExists host_files "/home/u/.claude" = true
  ∧ (credentials.CollectClaudeAuth host_files
       (cfg_with "api-key" "" "auto" "auto")).1 = []
  ∧ (credentials.CollectClaudeAuth host_files
       (cfg_with "api-key" "" "auto" "auto")).2 ≠ ∅
  ∧ credentials.CollectClaudeAuth host_files (cfg_with "oauth" "" "auto" "auto")
    = credentials.no_contribution.
Proof.
  destruct (CollectClaudeAuth_by_auth_mode host_files
              (cfg_with "api-key" "" "auto" "auto")) as (_ & Henv & Hkey & _).
  destruct (CollectClaudeAuth_by_auth_mode host_files
              (cfg_with "oauth" "" "auto" "auto")) as (_ & _ & _ & Hother).
  split; [reflexivity|]. split; [exact (Hkey eq_refl)|]. split.
  - apply Henv. split; [reflexivity|]. split; [right; reflexivity|discriminate].
  - apply Hother; discriminate.
Defined.

Module ssh_facts.
Import filepath abspath abspath_facts.

Lemma after_last_sep_noSep e : noSep e = true → after_last_sep e = None.
Proof.
  induction e as [|c e IH]; [reflexivity|]. intros H.
  apply noSep_cons in H as [Hc He]. cbn [after_last_sep].
  rewrite (IH He), Hc. reflexivity.
Qed.

Lemma after_last_sep_app pre e :
  noSep e = true → after_last_sep (pre ++ Separator :: e) = Some e.
Proof.
  intros He. induction pre as [|c pre IH]; cbn [app after_last_sep].
  - rewrite (after_last_sep_noSep e He). reflexivity.
  - rewrite IH. reflexivity.
Qed.

Lemma strip_trailing_sep_name e :
  e ≠ [] → noSep e = true → strip_trailing_sep e = e.
Proof.
  induction e as [|c e IH]; [contradiction|]. intros _ H.
  apply noSep_cons in H as [Hc He]. cbn [strip_trailing_sep].
  destruct e as [|c' e].
  - cbn. rewrite Hc. reflexivity.
  - rewrite IH by (discriminate || exact He). reflexivity.
Qed.

Lemma strip_trailing_sep_app pre e :
  e ≠ [] → noSep e = true → strip_trailing_sep (pre ++ e) = pre ++ e.
Proof.
  intros Hne He. induction pre as [|c pre IH]; cbn [app].
  - apply strip_trailing_sep_name; assumption.
  - cbn [strip_trailing_sep]. rewrite IH.
    destruct (pre ++ e) eqn:E; [|reflexivity].
    apply app_eq_nil in E as [_ E]. contradiction.
Qed.

(** The base name of a well-formed absolute path is its last name. *)
Lemma Base_absolute es e :
  isName e = true → Base (absolute (es ++ [e])) = string_of_list_ascii e.
Proof.
  intros He. pose proof (isName_inv e He) as (Hne & Hsep & _).
  unfold Base. rewrite absolute_bytes. unfold abs_bytes.
  rewrite join_snoc.
  assert (Hshape : ∃ pre, Separator :: match es with
                                       | [] => e
                                       | _ => join es ++ Separator :: e
                                       end = pre ++ Separator :: e).
  { destruct es; [exists []|exists (Separator :: join (l :: es))]; reflexivity. }
  destruct Hshape as [pre Hshape]. rewrite Hshape.
  destruct (pre ++ Separator :: e) as [|c l] eqn:E.
  { apply app_eq_nil in E as [_ E]. discriminate. }
  rewrite <- E.
  replace (pre ++ Separator :: e) with ((pre ++ [Separator]) ++ e)
    by (rewrite <- app_assoc; reflexivity).
  rewrite strip_trailing_sep_app by assumption.
  rewrite <- app_assoc. cbn [app].
  rewrite after_last_sep_app by assumption.
  destruct e; [contradiction|reflexivity].
Qed.

Lemma ssh_target es e :
  isName e = true →
  Join ["/root/.ssh"; Base (absolute (es ++ [e]))] = absolute (root_ssh ++ [e]).
Proof.
  intros He. rewrite (Base_absolute es e He).
  change "/root/.ssh" with (absolute root_ssh).
  change e with (join [e]) at 1.
  apply Join_absolute; [repeat constructor|repeat constructor; exact He|discriminate].
Qed.

Lemma sshKeyMounts_each (w : World) (keys : list string) :
  Forall (fun m =>
            ReadOnly m = true
            ∧ security.FileExists w (Source m) = true
            ∧ Target m = Join ["/root/.ssh"; Base (Source m)]
            ∧ ∃ k, In k keys ∧ security.ExpandPath w k = Ok (Source m))
         (credentials.sshKeyMounts w keys).
Proof.
  induction keys as [|k keys IH]; cbn [credentials.sshKeyMounts];
    [apply Forall_nil; exact I|].
  assert (IH' : Forall (fun m =>
            ReadOnly m = true
            ∧ security.FileExists w (Source m) = true
            ∧ Target m = Join ["/root/.ssh"; Base (Source m)]
            ∧ ∃ k', In k' (k :: keys) ∧ security.ExpandPath w k' = Ok (Source m))
            (credentials.sshKeyMounts w keys)).
  { eapply Forall_impl; [exact IH|]. cbn beta.
    intros m (? & ? & ? & k' & ? & ?). split_and!; auto.
    exists k'. split; [right|]; assumption. }
  destruct (security.ExpandPath w k) as [p|e] eqn:E; [|exact IH'].
  destruct (security.FileExists w p) eqn:F; [|exact IH'].
  constructor; [|exact IH']. cbn [Source Target ReadOnly].
  split_and!; auto. exists k. split; [left; reflexivity|exact E].
Qed.

(** collectSSHCredentials in closed form: the key mounts, then the
    known_hosts mount, then the agent socket. *)
Lemma collectSSHCredentials_eq (w : World) (cfg : config.Config)
    (home : string) :
  let ssh := config.SSH (config.Credentials cfg) in
  let sock := os.Getenv w "SSH_AUTH_SOCK" in
  let knownHostsPath := Join [home; ".ssh"; "known_hosts"] in
  let forward := config.AgentForwarding ssh && negb (String.eqb sock "") in
  credentials.collectSSHCredentials w cfg home
  = (credentials.sshKeyMounts w (config.Keys ssh)
       ++ (if config.KnownHosts ssh && security.FileExists w knownHostsPath
           then [ {| Source := knownHostsPath;
                     Target := "/root/.ssh/known_hosts"; ReadOnly := true |} ]
           else [])
       ++ (if forward
           then [ {| Source := sock; Target := "/tmp/ssh-agent.sock";
                     ReadOnly := false |} ]
           else []),
     if forward then <["SSH_AUTH_SOCK" := "/tmp/ssh-agent.sock"]> ∅ else ∅).
Proof.
  intros ssh sock knownHostsPath forward. subst forward.
  unfold credentials.collectSSHCredentials. fold ssh sock knownHostsPath.
  destruct (config.KnownHosts ssh), (security.FileExists w knownHostsPath),
    (config.AgentForwarding ssh), (negb (String.eqb sock ""));
    cbn [andb]; rewrite <- ?app_assoc, ?app_nil_r; reflexivity.
Qed.

(** X8: the SSH key loop mounts exactly the configured keys that expand to
    an existing file, read-only, under /root/.ssh with the file's own name;
    no key path is checked against the denied paths. *)
Theorem ssh_key_mounts (w : World) (keys : list string) :
  let mounts := credentials.sshKeyMounts w keys in
  (length mounts <= length keys)%nat
  ∧ Forall (fun m =>
              ReadOnly m = true
              ∧ security.FileExists w (Source m) = true
              ∧ Target m = Join ["/root/.ssh"; Base (Source m)]
              ∧ ∃ k, In k keys ∧ security.ExpandPath w k = Ok (Source m))
           mounts
  ∧ (∀ k p, In k keys → security.ExpandPath w k = Ok p →
            security.FileExists w p = true →
            ∃ m, In m mounts ∧ Source m = p)
  ∧ (∀ m es e, In m mounts → Source m = absolute (es ++ [e]) →
               isName e = true →
               Target m = absolute (root_ssh ++ [e])).
Proof.
  intros mounts. subst mounts.
  pose proof (sshKeyMounts_each w keys) as H2.
  split_and!.
  - clear H2.
    induction keys as [|k keys IH]; cbn [credentials.sshKeyMounts length]; [lia|].
    destruct (security.ExpandPath w k) as [p|e]; [|lia].
    destruct (security.FileExists w p); cbn [length]; lia.
  - exact H2.
  - clear H2.
    induction keys as [|k keys IH]; intros k' p []; cbn [credentials.sshKeyMounts].
    + subst k'. intros -> ->. eexists. split; [left; reflexivity|reflexivity].
    + intros E F. destruct (IH k' p H E F) as (m & Hm & Hs).
      exists m. split; [|exact Hs].
      destruct (security.ExpandPath w k) as [q|e]; [|exact Hm].
      destruct (security.FileExists w q); [right|]; exact Hm.
  - intros m es e Hin Hsrc He. rewrite Forall_forall in H2.
    destruct (H2 m (proj2 (list_elem_of_In _ _) Hin)) as (_ & _ & -> & _).
    rewrite Hsrc. apply ssh_target. exact He.
Qed.

Lemma ssh_key_mounts_witness :
  security.ValidateMountPath host_files "/home/u/.gnupg/secring.gpg" ≠ None
  ∧ ∃ m, In m (credentials.sshKeyMounts host_files
                 ["~/.ssh/id_ed25519"; "~/.gnupg/secring.gpg"])
         ∧ Source m = "/home/u/.gnupg/secring.gpg"
         ∧ Target m = "/root/.ssh/secring.gpg".
Proof.
  split; [discriminate|].
  destruct (ssh_key_mounts host_files
              ["~/.ssh/id_ed25519"; "~/.gnupg/secring.gpg"])
    as (_ & _ & Hall & Htarget).
  destruct (Hall "~/.gnupg/secring.gpg" "/home/u/.gnupg/secring.gpg")
    as (m & Hin & Hsrc); [right; left; reflexivity|reflexivity|reflexivity|].
  exists m. split; [exact Hin|]. split; [exact Hsrc|].
  exact (Htarget m (home_u ++ [nm ".gnupg"]) (nm "secring.gpg") Hin Hsrc eq_refl).
Defined.

(** X9: of the SSH mounts only the agent socket is writable; it is mounted,
    and SSH_AUTH_SOCK set to its place in the container, exactly when agent
    forwarding is on and the host has SSH_AUTH_SOCK set. *)
Theorem ssh_only_agent_socket_writable (w : World) (cfg : config.Config)
    (home : string) :
  let ssh := config.SSH (config.Credentials cfg) in
  let mounts := (credentials.collectSSHCredentials w cfg home).1 in
  let env := (credentials.collectSSHCredentials w cfg home).2 in
  let sock := os.Getenv w "SSH_AUTH_SOCK" in
  (∀ m, In m mounts → ReadOnly m = false →
        m = {| Source := sock; Target := "/tmp/ssh-agent.sock";
               ReadOnly := false |}
        ∧ config.AgentForwarding ssh = true ∧ sock ≠ "")
  ∧ (env = if config.AgentForwarding ssh && negb (String.eqb sock "")
           then <["SSH_AUTH_SOCK" := "/tmp/ssh-agent.sock"]> ∅ else ∅)
  ∧ (config.AgentForwarding ssh = true → sock ≠ "" →
     In {| Source := sock; Target := "/tmp/ssh-agent.sock"; ReadOnly := false |}
        mounts)
  ∧ (config.KnownHosts ssh = false → config.AgentForwarding ssh = false →
     mounts = credentials.sshKeyMounts w (config.Keys ssh)).
Proof.
  intros ssh mounts env sock. subst mounts env.
  rewrite collectSSHCredentials_eq. fold ssh sock. cbn [fst snd].
  pose proof (sshKeyMounts_each w (config.Keys ssh)) as Hkeys.
  rewrite Forall_forall in Hkeys.
  split_and!.
  - intros m Hin Hw. apply in_app_or in Hin as [Hin|Hin].
    { apply list_elem_of_In in Hin. destruct (Hkeys m Hin) as [Hr _].
      rewrite Hr in Hw. discriminate. }
    apply in_app_or in Hin as [Hin|Hin].
    { destruct (_ && _) in Hin; [|destruct Hin].
      destruct Hin as [<-|[]]. discriminate. }
    destruct (config.AgentForwarding ssh); [|destruct Hin]. cbn [andb] in Hin.
    destruct (String.eqb_spec sock "") as [Hs|Hs]; [destruct Hin|].
    destruct Hin as [<-|[]]. auto.
  - reflexivity.
  - intros -> Hs. destruct (String.eqb_spec sock ""); [contradiction|].
    cbn [andb negb]. apply in_or_app. right. apply in_or_app. right.
    left. reflexivity.
  - intros -> ->. cbn [andb]. rewrite !app_nil_r. reflexivity.
Qed.

Lemma ssh_only_agent_socket_writable_witness :
  In {| Source := "/run/agent.sock"; Target := "/tmp/ssh-agent.sock";
        ReadOnly := false |}
     (credentials.collectSSHCredentials host_files
        (cfg_ssh ["~/.ssh/id_ed25519"] true true) "/home/u").1
  ∧ (credentials.collectSSHCredentials host_files
       (cfg_ssh ["~/.ssh/id_ed25519"] true false) "/home/u").2 = ∅.
Proof.
  destruct (ssh_only_agent_socket_writable host_files
              (cfg_ssh ["~/.ssh/id_ed25519"] true true) "/home/u")
    as (_ & _ & Hin & _).
  destruct (ssh_only_agent_socket_writable host_files
              (cfg_ssh ["~/.ssh/id_ed25519"] true false) "/home/u")
    as (_ & Henv & _).
  split; [apply Hin; [reflexivity|discriminate]|exact Henv].
Defined.
End ssh_facts.

(** The "Google Cloud ADC" block in closed form. *)
Lemma collectGCloud_eq (w : World) (home setting : string)
    (mounts : list Mount) (env : gmap string string) :
  setting ≠ config.CredentialDisabled →
  let adcPath := filepath.Join [home; ".config"; "gcloud";
                                "application_default_credentials.json"] in
  let customPath := os.Getenv w "GOOGLE_APPLICATION_CREDENTIALS" in
  let adc := security.FileExists w adcPath in
  let custom := negb (String.eqb customPath "")
                && security.FileExists w customPath in
  let mk src := {| Source := src; Target := credentials.gcloudTarget;
                   ReadOnly := true |} in
  credentials.collectGCloud w home setting (mounts, env)
  = (mounts ++ (if adc then [mk adcPath] else [])
            ++ (if custom then [mk customPath] else []),
     if adc || custom
     then <["GOOGLE_APPLICATION_CREDENTIALS" := credentials.gcloudTarget]> env
     else env).
Proof.
  intros Hne adcPath customPath adc custom mk.
  unfold credentials.collectGCloud. rewrite shouldEnable_eq.
  destruct (String.eqb_spec setting config.CredentialDisabled); [contradiction|].
  cbn [negb]. fold adcPath customPath. fold adc.
  destruct adc; cbn [orb].
  - fold custom. destruct custom.
    + rewrite insert_insert_eq, <- app_assoc. reflexivity.
    + rewrite app_nil_r. reflexivity.
  - fold custom. destruct custom; rewrite ?app_nil_r; reflexivity.
Qed.

(** X11: CollectExternalCredentials fails only when the home directory is
    unknown; every mount it returns is read-only except the SSH agent
    socket, and it sets no variable besides GH_TOKEN (a token of the host),
    GOOGLE_APPLICATION_CREDENTIALS and SSH_AUTH_SOCK (container paths). *)
Theorem external_credentials_invariant (w : World) (cfg : config.Config) :
  (is_Ok (credentials.CollectExternalCredentials w cfg)
   = is_Ok (os.UserHomeDir w))
  ∧ (∀ c, credentials.CollectExternalCredentials w cfg = Ok c →
       Forall (fun m => ReadOnly m = true ∨ Target m = "/tmp/ssh-agent.sock") c.1
       ∧ (∀ k v, c.2 !! k = Some v →
            (k = "GH_TOKEN"
             ∧ (v = os.Getenv w "GH_TOKEN" ∨ v = os.Getenv w "GITHUB_TOKEN"))
            ∨ (k = "GOOGLE_APPLICATION_CREDENTIALS"
               ∧ v = credentials.gcloudTarget)
            ∨ (k = "SSH_AUTH_SOCK" ∧ v = "/tmp/ssh-agent.sock"))).
Proof.
  unfold credentials.CollectExternalCredentials.
  destruct (os.UserHomeDir w) as [home|e]; [|split; [reflexivity|discriminate]].
  split; [reflexivity|]. intros c [= <-].
  set (P := fun (c : credentials.contribution) =>
       Forall (fun m => ReadOnly m = true ∨ Target m = "/tmp/ssh-agent.sock") c.1
       ∧ (∀ k v, c.2 !! k = Some v →
            (k = "GH_TOKEN"
             ∧ (v = os.Getenv w "GH_TOKEN" ∨ v = os.Getenv w "GITHUB_TOKEN"))
            ∨ (k = "GOOGLE_APPLICATION_CREDENTIALS"
               ∧ v = credentials.gcloudTarget)
            ∨ (k = "SSH_AUTH_SOCK" ∧ v = "/tmp/ssh-agent.sock"))).
  change (P (credentials.collectSSH w home cfg
               (credentials.collectGCloud w home
                  (config.GCloud (config.Credentials cfg))
                  (credentials.collectGitHub w home
                     (config.GitHub (config.Credentials cfg))
                     credentials.no_contribution)))).
  assert (Hins : ∀ (env : gmap string string) k0 v0 k v,
             <[k0 := v0]> env !! k = Some v →
             (k = k0 ∧ v = v0) ∨ env !! k = Some v).
  { intros env k0 v0 k v. rewrite lookup_insert.
    case_decide; [intros [= <-]; auto|auto]. }
  assert (H0 : P credentials.no_contribution).
  { split; [apply Forall_nil; exact I|].
    intros k v. cbn. rewrite lookup_empty. discriminate. }
  assert (Hgh : ∀ setting acc, P acc → P (credentials.collectGitHub w home setting acc)).
  { intros setting [mounts env] [Hm He]. unfold credentials.collectGitHub.
    destruct (credentials.shouldEnable _ _ _); [|split; assumption].
    destruct (negb _).
    { split; [exact Hm|]. cbn [snd]. intros k v Hl.
      apply Hins in Hl as [[-> ->]|Hl]; [left; auto|exact (He k v Hl)]. }
    destruct (negb _).
    { split; [exact Hm|]. cbn [snd]. intros k v Hl.
      apply Hins in Hl as [[-> ->]|Hl]; [left; auto|exact (He k v Hl)]. }
    destruct (security.FileExists w _); [|split; assumption].
    split; [|exact He]. cbn [fst] in *. apply Forall_app. split; [exact Hm|].
    constructor; [left; reflexivity|constructor]. }
  assert (Hgc : ∀ setting acc, P acc → P (credentials.collectGCloud w home setting acc)).
  { intros setting [mounts env] [Hm He].
    destruct (String.eqb_spec setting config.CredentialDisabled) as [->|Hne].
    { unfold credentials.collectGCloud. rewrite shouldEnable_eq. split; assumption. }
    rewrite (collectGCloud_eq w home setting mounts env Hne). split.
    - cbn [fst] in *. rewrite !Forall_app. split_and!; [exact Hm| |].
      + destruct (security.FileExists w _); repeat constructor.
      + destruct (_ && _); repeat constructor.
    - cbn [snd] in *. intros k v. destruct (_ || _); [|apply He].
      intros Hl. apply Hins in Hl as [[-> ->]|Hl]; [auto|exact (He k v Hl)]. }
  assert (Hssh : ∀ acc, P acc → P (credentials.collectSSH w home cfg acc)).
  { intros [mounts env] [Hm He]. unfold credentials.collectSSH.
    destruct (config.Enabled _); [|split; assumption].
    rewrite ssh_facts.collectSSHCredentials_eq.
    pose proof (ssh_facts.sshKeyMounts_each w
                  (config.Keys (config.SSH (config.Credentials cfg)))) as Hkeys.
    split.
    - cbn [fst]. rewrite !Forall_app. split_and!; [exact Hm| | |].
      + eapply Forall_impl; [exact Hkeys|]. cbn beta. intros m [Hr _]. auto.
      + destruct (_ && _); repeat constructor.
      + destruct (_ && _); [|constructor].
        constructor; [right; reflexivity|constructor].
    - cbn [snd]. intros k v Hl. apply lookup_union_Some_raw in Hl as [Hl|[_ Hl]].
      + destruct (_ && _).
        * apply Hins in Hl as [[-> ->]|Hl]; [auto|].
          rewrite lookup_empty in Hl. discriminate.
        * rewrite lookup_empty in Hl. discriminate.
      + exact (He k v Hl). }
  auto.
Qed.

(** X10: when the gcloud policy is not "disabled" and both the default ADC
    file and an existing file named by GOOGLE_APPLICATION_CREDENTIALS are
    found, both are mounted, one after the other, at the same container
    path. *)
Theorem gcloud_two_sources_one_target (w : World) (cfg : config.Config)
    (home : string) (c : credentials.contribution) :
  let adcPath := filepath.Join [home; ".config"; "gcloud";
                                "application_default_credentials.json"] in
  let customPath := os.Getenv w "GOOGLE_APPLICATION_CREDENTIALS" in
  os.UserHomeDir w = Ok home →
  config.GCloud (config.Credentials cfg) ≠ config.CredentialDisabled →
  security.FileExists w adcPath = true →
  customPath ≠ "" →
  security.FileExists w customPath = true →
  credentials.CollectExternalCredentials w cfg = Ok c →
  ∃ pre post,
    c.1 = pre ++ {| Source := adcPath; Target := credentials.gcloudTarget;
                    ReadOnly := true |}
              :: {| Source := customPath; Target := credentials.gcloudTarget;
                    ReadOnly := true |} :: post.
Proof.
  intros adcPath customPath Hhome Hne Hadc Hset Hcustom.
  unfold credentials.CollectExternalCredentials. rewrite Hhome.
  destruct (credentials.collectGitHub w home
              (config.GitHub (config.Credentials cfg))
              credentials.no_contribution) as [mounts env].
  rewrite (collectGCloud_eq w home _ mounts env Hne).
  fold adcPath customPath. rewrite Hadc, Hcustom.
  destruct (String.eqb_spec customPath ""); [contradiction|].
  cbn [negb andb orb]. unfold credentials.collectSSH.
  destruct (config.Enabled _).
  - destruct (credentials.collectSSHCredentials w cfg home) as [sshMounts sshEnv].
    intros [= <-]. exists mounts, sshMounts. cbn [fst].
    rewrite <- !app_assoc. reflexivity.
  - intros [= <-]. exists mounts, []. cbn [fst]. reflexivity.
Qed.

Lemma gcloud_two_sources_one_target_witness :
  os.Getenv host_files "GOOGLE_APPLICATION_CREDENTIALS" = "/srv/key.json"
  ∧ ∃ c pre post,
      credentials.CollectExternalCredentials host_files
        (cfg_with "auto" "" "disabled" "auto") = Ok c
      ∧ c.1 = pre
              ++ {| Source := "/home/u/.config/gcloud/application_default_credentials.json";
                    Target := credentials.gcloudTarget; ReadOnly := true |}
              :: {| Source := "/srv/key.json";
                    Target := credentials.gcloudTarget; ReadOnly := true |}
              :: post.
Proof.
  split; [reflexivity|].
  destruct (credentials.CollectExternalCredentials host_files
              (cfg_with "auto" "" "disabled" "auto")) as [c|e] eqn:E;
    [|vm_compute in E; discriminate E].
  destruct (gcloud_two_sources_one_target host_files
              (cfg_with "auto" "" "disabled" "auto") "/home/u" c
              eq_refl ltac:(discriminate) eq_refl ltac:(discriminate) eq_refl E)
    as (pre & post & Hc).
  exists c, pre, post. split; [reflexivity|exact Hc].
Defined.

Module cli_facts.

Lemma flagMounts_Ok (w : World) (readOnly : bool) (ms : list string) :
  ∀ mounts, cli.flagMounts w readOnly ms = Ok mounts →
            Forall2 (sameOnBothSides w readOnly) ms mounts.
Proof.
  induction ms as [|m ms IH]; cbn [cli.flagMounts].
  - intros mounts [= <-]. constructor.
  - destruct (security.ExpandPath w m) as [p|e] eqn:E; [|discriminate].
    destruct (security.ValidateMountPath w p) as [e|] eqn:V; [discriminate|].
    destruct (cli.flagMounts w readOnly ms) as [mounts|e] eqn:F; [|discriminate].
    intros ? [= <-]. constructor; [|apply IH; reflexivity].
    unfold sameOnBothSides. cbn [Source Target ReadOnly]. auto.
Qed.

(** X12: the --mount and --mount-ro loops are all-or-nothing: on success
    every flag path, in order, is mounted at its expanded path on both sides
    after passing the hard-denied check; a failure comes from the first path
    that does not expand or is denied, and wraps the error of ExpandPath or
    of ValidateMountPath for that path.  For a path of ASCII bytes the
    message names the path, quoted as %q prints it. *)
Theorem flagMounts_all_or_nothing (w : World) (readOnly : bool)
    (ms : list string) :
  (∀ mounts, cli.flagMounts w readOnly ms = Ok mounts →
             Forall2 (sameOnBothSides w readOnly) ms mounts)
  ∧ (∀ err, cli.flagMounts w readOnly ms = Err err →
       ∃ pre m post msg,
         ms = pre ++ m :: post
         ∧ (∃ mounts, cli.flagMounts w readOnly pre = Ok mounts)
         ∧ ((∃ e, security.ExpandPath w m = Err e
                  ∧ err = wrapError msg e
                  ∧ (cli.isASCII m = true →
                     msg = "invalid mount path " +:+ cli.quote m))
            ∨ (∃ p e, security.ExpandPath w m = Ok p
                      ∧ security.ValidateMountPath w p = Some e
                      ∧ err = wrapError msg e
                      ∧ (cli.isASCII m = true →
                         msg = "mount path denied " +:+ cli.quote m)))).
Proof.
  split; [apply flagMounts_Ok|].
  induction ms as [|m ms IHerr]; cbn [cli.flagMounts]; [discriminate|].
  destruct (security.ExpandPath w m) as [p|e] eqn:E.
  2:{ intros err [= <-].
      exists [], m, ms, ("invalid mount path " +:+ cli.quote m).
      split_and!; [reflexivity|eexists; reflexivity|].
      left. exists e. auto. }
  destruct (security.ValidateMountPath w p) as [e|] eqn:V.
  { intros err [= <-].
    exists [], m, ms, ("mount path denied " +:+ cli.quote m).
    split_and!; [reflexivity|eexists; reflexivity|].
    right. exists p, e. auto. }
  destruct (cli.flagMounts w readOnly ms) as [mounts|e] eqn:F; [discriminate|].
  intros err [= <-].
  destruct (IHerr e eq_refl)
    as (pre & m' & post & msg & -> & [mounts Hpre] & Hm).
  exists (m :: pre), m', post, msg. split_and!; [reflexivity| |exact Hm].
  cbn [cli.flagMounts]. rewrite E, V, Hpre. eauto.
Qed.

Lemma flagMounts_all_or_nothing_witness :
  cli.isASCII "~/.gnupg" = true
  ∧ cli.flagMounts host_all_ok false ["/srv/data"; "~/.gnupg"; "/srv/more"]
    = Err (wrapError ("mount path denied " +:+ cli.quote "~/.gnupg")
             (security.PathDenied "~/.gnupg"))
  ∧ ∃ pre m post msg,
      ["/srv/data"; "~/.gnupg"; "/srv/more"] = pre ++ m :: post
      ∧ (∃ mounts, cli.flagMounts host_all_ok false pre = Ok mounts)
      ∧ ((∃ e, security.ExpandPath host_all_ok m = Err e
               ∧ wrapError ("mount path denied " +:+ cli.quote "~/.gnupg")
                   (security.PathDenied "~/.gnupg")
                 = wrapError msg e
               ∧ (cli.isASCII m = true →
                  msg = "invalid mount path " +:+ cli.quote m))
         ∨ (∃ p e, security.ExpandPath host_all_ok m = Ok p
                   ∧ security.ValidateMountPath host_all_ok p = Some e
                   ∧ wrapError ("mount path denied " +:+ cli.quote "~/.gnupg")
                       (security.PathDenied "~/.gnupg")
                     = wrapError msg e
                   ∧ (cli.isASCII m = true →
                      msg = "mount path denied " +:+ cli.quote m))).
Proof.
  split; [reflexivity|]. split; [reflexivity|].
  exact (proj2 (flagMounts_all_or_nothing host_all_ok false
                  ["/srv/data"; "~/.gnupg"; "/srv/more"]) _ eq_refl).
Defined.

(** X14: a default mount of the configuration that does not expand or is
    denied is skipped, and the others keep their order, path and read-only
    flag; where the --mount loop accepts the same paths, both loops mount the
    same sources. *)
Theorem defaultMounts_skip (w : World) (dms : list config.MountEntry) :
  let keep dm :=
    match security.ExpandPath w (config.Path dm) with
    | Ok p => match security.ValidateMountPath w p with
              | None => true
              | Some _ => false
              end
    | Err _ => false
    end in
  Forall2 (fun dm mt => sameOnBothSides w (config.ReadOnly dm) (config.Path dm) mt)
          (List.filter keep dms) (cli.defaultMounts w dms)
  ∧ (∀ mounts,
       cli.flagMounts w false (map config.Path dms) = Ok mounts →
       map Source (cli.defaultMounts w dms) = map Source mounts).
Proof.
  intros keep. split.
  - induction dms as [|dm dms IH]; cbn [List.filter cli.defaultMounts];
      [constructor|].
    unfold keep at 1.
    destruct (security.ExpandPath w (config.Path dm)) as [p|e] eqn:E; [|exact IH].
    destruct (security.ValidateMountPath w p) as [e|] eqn:V; [exact IH|].
    constructor; [|exact IH].
    unfold sameOnBothSides. cbn [Source Target ReadOnly]. auto.
  - induction dms as [|dm dms IH]; cbn [map cli.flagMounts cli.defaultMounts].
    + intros ? [= <-]. reflexivity.
    + intros mounts.
      destruct (security.ExpandPath w (config.Path dm)) as [p|e]; [|discriminate].
      destruct (security.ValidateMountPath w p); [discriminate|].
      destruct (cli.flagMounts w false (map config.Path dms)) as [ms|e];
        [|discriminate].
      intros [= <-]. cbn [map Source]. f_equal. apply IH. reflexivity.
Qed.

Lemma defaultMounts_skip_witness :
  map Source
    (cli.defaultMounts host_all_ok
       [ {| config.Path := "~/notes"; config.ReadOnly := true |};
         {| config.Path := "/srv/data"; config.ReadOnly := false |} ])
  = ["/home/u/notes"; "/srv/data"].
Proof.
  exact (proj2 (defaultMounts_skip host_all_ok
                  [ {| config.Path := "~/notes"; config.ReadOnly := true |};
                    {| config.Path := "/srv/data"; config.ReadOnly := false |} ])
           [ {| Source := "/home/u/notes"; Target := "/home/u/notes";
                ReadOnly := false |};
             {| Source := "/srv/data"; Target := "/srv/data";
                ReadOnly := false |} ] eq_refl).
Defined.

Lemma lookup_union_first (m1 m2 : gmap string string) k :
  (m1 ∪ m2) !! k = match m1 !! k with Some v => Some v | None => m2 !! k end.
Proof.
  rewrite lookup_union. destruct (m1 !! k), (m2 !! k); reflexivity.
Qed.

Lemma passthroughEnv_lookup w keys : ∀ env k,
  cli.passthroughEnv w keys env !! k
  = if bool_decide (k ∈ keys)
    then match os.LookupEnv w k with Some v => Some v | None => env !! k end
    else env !! k.
Proof.
  induction keys as [|key keys IH]; intros env k; cbn [cli.passthroughEnv].
  - rewrite bool_decide_eq_false_2 by apply not_elem_of_nil. reflexivity.
  - destruct (decide (k = key)) as [->|Hne].
    + rewrite (bool_decide_eq_true_2 (key ∈ key :: keys)) by left.
      destruct (os.LookupEnv w key) as [val|] eqn:L; rewrite IH, ?L.
      * rewrite lookup_insert_eq. destruct (bool_decide _); reflexivity.
      * destruct (bool_decide _); reflexivity.
    + assert (Hb : bool_decide (k ∈ key :: keys) = bool_decide (k ∈ keys)).
      { apply bool_decide_ext. rewrite elem_of_cons. tauto. }
      rewrite Hb.
      destruct (os.LookupEnv w key) as [val|] eqn:L; rewrite IH.
      * rewrite lookup_insert_ne by congruence. reflexivity.
      * reflexivity.
Qed.

(** X16: the mounts of a successful run are, in this order, the working
    directory at /workspace (writable, and never checked against the denied
    paths), the --mount and --mount-ro paths, the default mounts, the Claude
    session mount and the external credential mounts; unless
    --no-external-credentials is given, the run succeeds only if collecting
    the external credentials did. *)
Theorem runContainer_mounts (w : World) (cfg : config.Config)
    (flags : cli.Flags) (args : list string) (opts : RunOptions) :
  cli.runContainer w cfg flags args = Ok opts →
  ∃ arg workDir extra ro,
    workdirArg w flags = Ok arg
    ∧ security.ExpandPath w arg = Ok workDir
    ∧ Forall2 (sameOnBothSides w false) (cli.mount flags) extra
    ∧ Forall2 (sameOnBothSides w true) (cli.mount_ro flags) ro
    ∧ Mounts opts
      = {| Source := workDir; Target := "/workspace"; ReadOnly := false |}
        :: extra ++ ro
        ++ cli.defaultMounts w (config.Defaults (config.Mounts cfg))
        ++ (credentials.CollectClaudeAuth w cfg).1
        ++ externalMounts w cfg flags
    ∧ WorkDir opts = "/workspace"
    ∧ (cli.no_external_credentials flags = false →
       is_Ok (credentials.CollectExternalCredentials w cfg) = true).
Proof.
  unfold cli.runContainer, workdirArg, externalMounts.
  assert (Hwd : ∀ d,
            (if String.eqb (cli.workdir flags) ""
             then match getwd w with
                  | Err e => Err (wrapError "failed to get current directory" e)
                  | Ok d => Ok d
                  end
             else Ok (cli.workdir flags)) = Ok d →
            (if String.eqb (cli.workdir flags) "" then getwd w
             else Ok (cli.workdir flags)) = Ok d).
  { intros d. destruct (String.eqb (cli.workdir flags) ""); [|auto].
    destruct (getwd w); [auto|discriminate]. }
  destruct (if String.eqb (cli.workdir flags) "" then match getwd w with
            | Ok d => _ | Err e => _ end else _) as [d|e] eqn:W;
    [|discriminate].
  rewrite (Hwd d eq_refl). clear Hwd.
  destruct (security.ExpandPath w d) as [workDir|e] eqn:E; [|discriminate].
  destruct (cli.flagMounts w false (cli.mount flags)) as [extra|e] eqn:F1;
    [|discriminate].
  destruct (cli.flagMounts w true (cli.mount_ro flags)) as [ro|e] eqn:F2;
    [|discriminate].
  pose proof (flagMounts_Ok w false _ _ F1) as H1.
  pose proof (flagMounts_Ok w true _ _ F2) as H2.
  destruct (credentials.CollectClaudeAuth w cfg) as [cm ce].
  destruct (cli.no_external_credentials flags); cbn [negb].
  - intros [= <-]. exists d, workDir, extra, ro. cbn [Mounts WorkDir fst].
    split_and!; [reflexivity|exact E|exact H1|exact H2| |reflexivity|discriminate].
    cbn [app]. rewrite <- !app_assoc, app_nil_r. reflexivity.
  - destruct (credentials.CollectExternalCredentials w cfg) as [[em ee]|e];
      [|discriminate].
    intros [= <-]. exists d, workDir, extra, ro. cbn [Mounts WorkDir fst].
    split_and!; [reflexivity|exact E|exact H1|exact H2| |reflexivity|reflexivity].
    cbn [app]. rewrite <- !app_assoc. reflexivity.
Qed.

Lemma runContainer_mounts_witness :
  security.ValidateMountPath host_all_ok "/home/u/.gnupg" ≠ None
  ∧ ∃ opts,
      cli.runContainer host_all_ok (cfg_with "" "" "disabled" "disabled")
        (flags_workdir "~/.gnupg") [] = Ok opts
      ∧ hd_error (Mounts opts)
        = Some {| Source := "/home/u/.gnupg"; Target := "/workspace";
                  ReadOnly := false |}.
Proof.
  split; [discriminate|].
  destruct (cli.runContainer host_all_ok (cfg_with "" "" "disabled" "disabled")
              (flags_workdir "~/.gnupg") []) as [opts|e] eqn:E;
    [|vm_compute in E; discriminate E].
  destruct (runContainer_mounts host_all_ok _ _ _ opts E)
    as (arg & workDir & extra & ro & Harg & Hwd & _ & _ & Hm & _).
  vm_compute in Harg. injection Harg as <-.
  vm_compute in Hwd. injection Hwd as <-.
  exists opts. split; [reflexivity|]. rewrite Hm. reflexivity.
Defined.

(** X17: the environment of a successful run holds, for each name, the value
    of the first source that has one: the external credentials, the Claude
    API key, the custom variables of the configuration, and the host's own
    value for a name listed as passthrough; a passthrough name unset on the
    host is left out. *)
Theorem runContainer_env_precedence (w : World) (cfg : config.Config)
    (flags : cli.Flags) (args : list string) (opts : RunOptions) (k : string) :
  cli.runContainer w cfg flags args = Ok opts →
  Environment opts !! k
  = match externalEnv w cfg flags !! k with
    | Some v => Some v
    | None =>
        match (credentials.CollectClaudeAuth w cfg).2 !! k with
        | Some v => Some v
        | None =>
            match config.Custom (config.Environment cfg) !! k with
            | Some v => Some v
            | None =>
                if bool_decide (k ∈ config.Passthrough (config.Environment cfg))
                then os.LookupEnv w k
                else None
            end
        end
    end.
Proof.
  unfold cli.runContainer, externalEnv.
  destruct (if String.eqb (cli.workdir flags) "" then _ else _) as [d|e];
    [|discriminate].
  destruct (security.ExpandPath w d) as [workDir|e]; [|discriminate].
  destruct (cli.flagMounts w false (cli.mount flags)) as [extra|e];
    [|discriminate].
  destruct (cli.flagMounts w true (cli.mount_ro flags)) as [ro|e];
    [|discriminate].
  destruct (credentials.CollectClaudeAuth w cfg) as [cm ce].
  assert (Hbase : ∀ k,
    (ce ∪ (config.Custom (config.Environment cfg)
           ∪ cli.passthroughEnv w (config.Passthrough (config.Environment cfg)) ∅))
      !! k
    = match ce !! k with
      | Some v => Some v
      | None =>
          match config.Custom (config.Environment cfg) !! k with
          | Some v => Some v
          | None =>
              if bool_decide (k ∈ config.Passthrough (config.Environment cfg))
              then os.LookupEnv w k
              else None
          end
      end).
  { intros k'. rewrite !lookup_union_first, passthroughEnv_lookup, lookup_empty.
    destruct (ce !! k'); [reflexivity|].
    destruct (config.Custom _ !! k'); [reflexivity|].
    destruct (bool_decide _); [|reflexivity].
    destruct (os.LookupEnv w k'); reflexivity. }
  destruct (cli.no_external_credentials flags); cbn [negb].
  - intros [= <-]. cbn [Environment snd]. rewrite lookup_empty. apply Hbase.
  - destruct (credentials.CollectExternalCredentials w cfg) as [[em ee]|e];
      [|discriminate].
    intros [= <-]. cbn [Environment snd].
    rewrite lookup_union_first, Hbase. reflexivity.
Qed.

Lemma runContainer_env_precedence_witness :
  ∃ opts,
    cli.runContainer host_tokens
      (cfg_env [] ["GH_TOKEN"; "GITHUB_TOKEN"; "TERM"] {[ "GH_TOKEN" := "custom" ]})
      no_flags [] = Ok opts
    ∧ Environment opts !! "GH_TOKEN" = Some "ghp_first"
    ∧ Environment opts !! "GITHUB_TOKEN" = Some "ghp_second"
    ∧ Environment opts !! "TERM" = None.
Proof.
  destruct (cli.runContainer host_tokens
              (cfg_env [] ["GH_TOKEN"; "GITHUB_TOKEN"; "TERM"]
                 {[ "GH_TOKEN" := "custom" ]}) no_flags []) as [opts|e] eqn:E;
    [|vm_compute in E; discriminate E].
  exists opts. split; [reflexivity|].
  rewrite !(runContainer_env_precedence host_tokens _ _ _ opts _ E).
  vm_compute. auto.
Defined.
End cli_facts.

Module mount_facts.
Import filepath abspath abspath_facts rules rules_facts relpath relpath_facts.

Lemma covers_prefix esR esP : covers esR esP → ∃ s, esP = esR ++ s.
Proof.
  intros [->|(e & rest & -> & _)]; [exists []; rewrite app_nil_r|eexists];
    reflexivity.
Qed.

(** X3: the rules are taken below $HOME as it is spelled, so a path that
    does not lie below that spelling passes both tiers, whatever it is. *)
Theorem ValidateMountPath_outside_home (w : World) esH esP :
  os.UserHomeDir w = Ok (absolute esH) →
  Forall (fun e => isName e = true) esH →
  Forall (fun e => isName e = true) esP →
  (∀ s, esP ≠ esH ++ s) →
  security.ValidateMountPath w (absolute esP) = None
  ∧ security.ValidateMountPathStrict w (absolute esP) = None.
Proof.
  intros Hhome HH HP Hout.
  assert (Hno : ∀ rules, ¬ covered esH rules esP).
  { intros rules (rule & _ & Hc). apply covers_prefix in Hc as [s ->].
    apply (Hout (rule ++ s)). rewrite app_assoc. reflexivity. }
  assert (Hv : security.ValidateMountPath w (absolute esP) = None).
  { apply (ValidateMountPath_absolute w esH esP Hhome HH HP).
    intros rule Hin Hc. apply (Hno hardDeniedElems). exists rule. auto. }
  split; [exact Hv|].
  unfold security.ValidateMountPathStrict. rewrite Hv, Hhome.
    rewrite (proj2 (firstMatch_None_covered esH esP _ _ HH HP
                      controlledElems_names (expandTilde_controlled esH HH)))
      by apply Hno.
    reflexivity.
Qed.

Lemma ValidateMountPath_outside_home_witness :
  os.UserHomeDir host_all_ok = Ok "/home/u"
  ∧ security.ValidateMountPath host_all_ok "/data/home/u/.gnupg" = None
  ∧ security.ValidateMountPathStrict host_all_ok "/data/home/u/.gnupg" = None.
Proof.
  split; [reflexivity|].
  refine (ValidateMountPath_outside_home host_all_ok home_u
            [nm "data"; nm "home"; nm "u"; nm ".gnupg"] eq_refl _ _ _);
    [repeat constructor|repeat constructor|].
  intros s H. discriminate H.
Defined.

(** X13: a --mount path is validated after symlink resolution: when the
    resolved path is a hard-denied path, or lies below one with a first name
    under it that does not start with two dots, the run is aborted with an
    error that wraps the hard-denied error.  For a path of ASCII bytes the
    message names the path as it was given, quoted as %q prints it. *)
Theorem flagMounts_validates_link_target (w : World) (readOnly : bool)
    (m : string) (rest : list string) (p : string) esH rule tail :
  security.absPath w m = Ok p →
  evalSymlinks w p = Ok (absolute (esH ++ rule ++ tail)) →
  os.UserHomeDir w = Ok (absolute esH) →
  Forall (fun e => isName e = true) esH →
  In rule hardDeniedElems →
  Forall (fun e => isName e = true) tail →
  match tail with [] => true | e :: _ => negb (dotdotPrefixed e) end = true →
  ∃ r msg,
    In r security.HardcodedDeniedPaths
    ∧ cli.flagMounts w readOnly (m :: rest)
      = Err (wrapError msg (security.PathDenied r))
    ∧ (cli.isASCII m = true → msg = "mount path denied " +:+ cli.quote m).
Proof.
  intros Habs Hsym Hhome HH Hrule Htail Hdd.
  destruct (denied_below_rule w esH rule tail Hhome HH Hrule Htail Hdd)
    as (r & Hr & Hv).
  exists r, ("mount path denied " +:+ cli.quote m). split; [exact Hr|].
  split; [|reflexivity].
  cbn [cli.flagMounts]. unfold security.ExpandPath.
  rewrite Habs, Hsym, Hv. reflexivity.
Qed.

Lemma flagMounts_validates_link_target_witness :
  security.absPath host_link "link" = Ok "/work/link"
  ∧ evalSymlinks host_link "/work/link" = Ok "/home/u/.gnupg/keys"
  ∧ cli.isASCII "link" = true
  ∧ ∃ r msg,
      In r security.HardcodedDeniedPaths
      ∧ cli.flagMounts host_link true ["link"; "/srv/data"]
        = Err (wrapError msg (security.PathDenied r))
      ∧ (cli.isASCII "link" = true →
         msg = "mount path denied " +:+ cli.quote "link").
Proof.
  split; [reflexivity|]. split; [reflexivity|]. split; [reflexivity|].
  refine (flagMounts_validates_link_target host_link true "link" ["/srv/data"]
            "/work/link" home_u [nm ".gnupg"] [nm "keys"]
            eq_refl eq_refl eq_refl _ _ _ eq_refl);
    [repeat constructor|left; reflexivity|repeat constructor].
Defined.

(** X15: every CA certificate path handed to the runner is the expansion of
    a configured path, passed the hard-denied check, and was not reported
    missing by stat; no more paths are handed over than are configured. *)
Theorem caCertPaths_validated (w : World) (certs : list string) :
  (length (cli.caCertPaths w certs) <= length certs)%nat
  ∧ Forall (fun p =>
              security.ValidateMountPath w p = None
              ∧ (∀ e, stat w p = Err e → os.IsNotExist e = false)
              ∧ ∃ c, In c certs ∧ security.ExpandPath w c = Ok p)
           (cli.caCertPaths w certs).
Proof.
  induction certs as [|c certs [IHlen IH]]; cbn [cli.caCertPaths length].
  - split; [lia|apply Forall_nil; exact I].
  - assert (IH' : Forall (fun p =>
              security.ValidateMountPath w p = None
              ∧ (∀ e, stat w p = Err e → os.IsNotExist e = false)
              ∧ ∃ c', In c' (c :: certs) ∧ security.ExpandPath w c' = Ok p)
              (cli.caCertPaths w certs)).
    { eapply Forall_impl; [exact IH|]. cbn beta.
      intros p (? & ? & c' & ? & ?). split_and!; auto.
      exists c'. split; [right|]; assumption. }
    destruct (security.ExpandPath w c) as [p|e] eqn:E; [|split; [lia|exact IH']].
    destruct (security.ValidateMountPath w p) as [e|] eqn:V;
      [split; [lia|exact IH']|].
    assert (Hc : ∃ c', In c' (c :: certs) ∧ security.ExpandPath w c' = Ok p)
      by (exists c; split; [left; reflexivity|exact E]).
    destruct (stat w p) as [b|e] eqn:S.
    + split; [cbn [length]; lia|]. constructor; [|exact IH'].
      split_and!; [exact V| |exact Hc]. intros e He. rewrite S in He.
      discriminate.
    + destruct (os.IsNotExist e) eqn:N; [split; [lia|exact IH']|].
      split; [cbn [length]; lia|]. constructor; [|exact IH'].
      split_and!; [exact V| |exact Hc]. intros e' He. rewrite S in He.
      injection He as <-. exact N.
Qed.

End mount_facts.

Module runner_facts.
Import runner.

(** Case analysis over the answers of the engine that Run looks at. *)
Ltac run_cases eng :=
  unfold Run, waitExit;
  repeat match goal with
         | |- context [match RAMInBytes eng ?s with _ => _ end] =>
             destruct (RAMInBytes eng s)
         | |- context [match ContainerCreate eng with _ => _ end] =>
             destruct (ContainerCreate eng) as [?id|?e]
         | |- context [match ContainerAttach eng with _ => _ end] =>
             destruct (ContainerAttach eng) as [?e|]
         | |- context [match ContainerStart eng with _ => _ end] =>
             destruct (ContainerStart eng) as [?e|]
         | |- context [match SetRawTerminal eng with _ => _ end] =>
             destruct (SetRawTerminal eng) as [?e|]
         | |- context [match ContainerWait eng with _ => _ end] =>
             destruct (ContainerWait eng) as [[?e|] [?c|]|?code|?c]
         | |- context [if IsTerminal eng then _ else _] =>
             destruct (IsTerminal eng)
         | |- context [if ?b then _ else _] => destruct b eqn:?
         end;
  cbn [fst snd app is_Ok].

Ltac in_list := cbn [In]; intuition (discriminate || eauto).

(** X18: Run removes the container exactly when creating it succeeded, and
    then exactly once, as its last engine call, on every path out. *)
Theorem Run_removes_container_once (eng : Engine) (opts : RunOptions) :
  let calls := (Run eng opts).2 in
  (In Remove calls ↔ In Create calls ∧ is_Ok (ContainerCreate eng) = true)
  ∧ (In Remove calls → ∃ pre, calls = pre ++ [Remove] ∧ ¬ In Remove pre).
Proof.
  intros calls. subst calls. split.
  - run_cases eng; solve [in_list].
  - run_cases eng; intros H; try solve [exfalso; revert H; in_list];
      match type of H with
      | In Remove ?l => exists (removelast l); cbn
      end; (split; [reflexivity|solve [in_list]]).
Qed.

(** X19: Run stops the container exactly when it was waiting and the context
    was cancelled; it then returns the context's error, after one Stop call
    that directly follows the wait and precedes the removal. *)
Theorem Run_cancellation (eng : Engine) (opts : RunOptions) :
  let calls := (Run eng opts).2 in
  (In Stop calls ↔ In Wait calls ∧ ∃ ctxErr, ContainerWait eng = ctxDone ctxErr)
  ∧ (∀ ctxErr, ContainerWait eng = ctxDone ctxErr → In Wait calls →
       (Run eng opts).1 = Some ctxErr
       ∧ ∃ pre post, calls = pre ++ Wait :: Stop :: post
                     ∧ ¬ In Stop pre ∧ ¬ In Stop post ∧ In Remove post).
Proof.
  intros calls. subst calls. split.
  - run_cases eng; cbn [In]; split;
      try solve [intuition (discriminate || eauto)];
      try solve [intros [H [? ?]]; discriminate];
      try solve [intros [H [? ?]]; revert H; in_list].
  - intros ctxErr Hw. revert Hw. run_cases eng; intros Hw HW;
      try discriminate Hw; try solve [exfalso; revert HW; in_list];
      simplify_eq; (split; [reflexivity|]);
      first [ exists [Create; Attach; Start; Resize; SetRaw],
                     [RestoreTerminal; AttachClose; Remove];
              split_and!; [reflexivity|solve [in_list]..]
            | exists [Create; Attach; Start], [AttachClose; Remove];
              split_and!; [reflexivity|solve [in_list]..] ].
Qed.

Lemma Run_cancellation_witness :
  (Run (engine_wait true (ctxDone Canceled)) opts_default).1 = Some Canceled
  ∧ In Stop (Run (engine_wait true (ctxDone Canceled)) opts_default).2.
Proof.
  assert (Hw : In Wait (Run (engine_wait true (ctxDone Canceled)) opts_default).2).
  { vm_compute. tauto. }
  destruct (Run_cancellation (engine_wait true (ctxDone Canceled)) opts_default)
    as (Hstop & Hres).
  split.
  - exact (proj1 (Hres Canceled eq_refl Hw)).
  - apply Hstop. split; [exact Hw|]. exists Canceled. reflexivity.
Defined.

(** X20: when the wait reports an error, Run returns it wrapped, unless the
    context was cancelled by then or the error is nil: then Run returns nil,
    as for a clean exit.  The container is not stopped, and is removed. *)
Theorem Run_wait_error (eng : Engine) (opts : RunOptions)
    (err ctxErr : option error) :
  ContainerWait eng = recvErr err ctxErr →
  In Wait (Run eng opts).2 →
  (Run eng opts).1
  = match err, ctxErr with
    | Some e, None => Some (wrapError "error waiting for container" e)
    | _, _ => None
    end
  ∧ ¬ In Stop (Run eng opts).2
  ∧ In Remove (Run eng opts).2.
Proof.
  intros Hw. revert Hw. run_cases eng; intros Hw HW;
    try discriminate Hw; try solve [exfalso; revert HW; in_list];
    simplify_eq; (split_and!; [reflexivity|solve [in_list]..]).
Qed.

Lemma Run_wait_error_witness :
  ContainerWait (engine_wait true (recvErr (Some (errorString "EOF")) (Some Canceled)))
  = recvErr (Some (errorString "EOF")) (Some Canceled)
  ∧ (Run (engine_wait true (recvErr (Some (errorString "EOF")) (Some Canceled)))
       opts_default).1 = None
  ∧ (Run (engine_wait false (recvErr (Some (errorString "EOF")) None))
       opts_default).1
    = Some (wrapError "error waiting for container" (errorString "EOF")).
Proof.
  split; [reflexivity|]. split.
  - refine (proj1 (Run_wait_error
                     (engine_wait true (recvErr (Some (errorString "EOF"))
                                          (Some Canceled)))
                     opts_default _ _ eq_refl _)).
    vm_compute. tauto.
  - refine (proj1 (Run_wait_error
                     (engine_wait false (recvErr (Some (errorString "EOF")) None))
                     opts_default _ _ eq_refl _)).
    vm_compute. tauto.
Defined.

(** X21: Run returns nil only after it waited for the container, and then
    only for exit status 0, a nil wait error, or a wait error under a
    cancelled context.  It waits only after create, attach and start
    succeeded, in this order (and the raw terminal was set, on a terminal). *)
Theorem Run_success_only_after_wait (eng : Engine) (opts : RunOptions) :
  let calls := (Run eng opts).2 in
  ((Run eng opts).1 = None →
   In Wait calls
   ∧ (ContainerWait eng = recvStatus 0
      ∨ ∃ err ctxErr, ContainerWait eng = recvErr err ctxErr
                      ∧ (err = None ∨ ctxErr ≠ None)))
  ∧ (In Wait calls →
     is_Ok (ContainerCreate eng) = true
     ∧ ContainerAttach eng = None
     ∧ ContainerStart eng = None
     ∧ (IsTerminal eng = true → SetRawTerminal eng = None)
     ∧ ∃ rest, calls = Create :: Attach :: Start :: rest)
  ∧ (In Attach calls → is_Ok (ContainerCreate eng) = true)
  ∧ (In Start calls → ContainerAttach eng = None).
Proof.
  intros calls. subst calls. split_and!.
  - run_cases eng; try discriminate; intros _;
      (split; [solve [in_list]|]);
      try (right; do 2 eexists; split; [reflexivity|];
           solve [left; reflexivity | right; discriminate]).
    all: left; f_equal;
      match goal with
      | H : negb (?c =? 0) = false |- _ =>
          apply negb_false_iff, Z.eqb_eq in H; exact H
      end.
  - run_cases eng; intros HW; try solve [exfalso; revert HW; in_list];
      (split_and!; [reflexivity..|discriminate || reflexivity|eexists; reflexivity]).
  - run_cases eng; intros HW; try solve [exfalso; revert HW; in_list]; reflexivity.
  - run_cases eng; intros HW; try solve [exfalso; revert HW; in_list]; reflexivity.
Qed.

(** X22: the terminal is restored exactly when it was put in raw mode, once,
    after the wait and before the attach connection is closed and the
    container removed; without a terminal Run neither resizes nor sets raw
    mode. *)
Theorem Run_terminal (eng : Engine) (opts : RunOptions) :
  let calls := (Run eng opts).2 in
  (In RestoreTerminal calls ↔ In SetRaw calls ∧ SetRawTerminal eng = None)
  ∧ (In RestoreTerminal calls →
     ∃ pre, calls = pre ++ [RestoreTerminal; AttachClose; Remove]
            ∧ In Wait pre ∧ ¬ In RestoreTerminal pre)
  ∧ (IsTerminal eng = false →
     ¬ In Resize calls ∧ ¬ In SetRaw calls ∧ ¬ In RestoreTerminal calls)
  ∧ (In SetRaw calls → IsTerminal eng = true ∧ ContainerStart eng = None).
Proof.
  intros calls. subst calls. split_and!.
  - run_cases eng; cbn [In]; split;
      try solve [intuition (discriminate || eauto)].
  - run_cases eng; intros H; try solve [exfalso; revert H; in_list];
      match type of H with
      | In RestoreTerminal ?l =>
          exists (removelast (removelast (removelast l))); cbn
      end; (split_and!; [reflexivity|solve [in_list]..]).
  - run_cases eng; intros H; try discriminate H; solve [in_list].
  - run_cases eng; intros H; try solve [exfalso; revert H; in_list];
      split; reflexivity.
Qed.
End runner_facts.

Module request_facts.
Import cli_facts.

(** What a successful runContainer hands to the runner. *)
Lemma runContainer_Ok (w : World) (cfg : config.Config) (flags : cli.Flags)
    (args : list string) (opts : RunOptions) :
  cli.runContainer w cfg flags args = Ok opts →
  ∃ arg workDir extra ro,
    workdirArg w flags = Ok arg
    ∧ security.ExpandPath w arg = Ok workDir
    ∧ cli.flagMounts w false (cli.mount flags) = Ok extra
    ∧ cli.flagMounts w true (cli.mount_ro flags) = Ok ro
    ∧ Mounts opts
      = {| Source := workDir; Target := "/workspace"; ReadOnly := false |}
        :: extra ++ ro
        ++ cli.defaultMounts w (config.Defaults (config.Mounts cfg))
        ++ (credentials.CollectClaudeAuth w cfg).1
        ++ externalMounts w cfg flags
    ∧ Security opts
      = {| DropCapabilities := config.DropCapabilities (config.Security cfg);
           NoNewPrivileges := config.NoNewPrivileges (config.Security cfg);
           ReadOnlyRoot := config.ReadOnlyRoot (config.Security cfg);
           CACerts := cli.caCertPaths w (config.CACerts (config.Security cfg)) |}
    ∧ (cli.no_external_credentials flags = false →
       is_Ok (credentials.CollectExternalCredentials w cfg) = true).
Proof.
  unfold cli.runContainer, workdirArg, externalMounts.
  assert (Hwd : ∀ d,
            (if String.eqb (cli.workdir flags) ""
             then match getwd w with
                  | Err e => Err (wrapError "failed to get current directory" e)
                  | Ok d => Ok d
                  end
             else Ok (cli.workdir flags)) = Ok d →
            (if String.eqb (cli.workdir flags) "" then getwd w
             else Ok (cli.workdir flags)) = Ok d).
  { intros d. destruct (String.eqb (cli.workdir flags) ""); [|auto].
    destruct (getwd w); [auto|discriminate]. }
  destruct (if String.eqb (cli.workdir flags) "" then match getwd w with
            | Ok d => _ | Err e => _ end else _) as [d|e] eqn:W;
    [|discriminate].
  rewrite (Hwd d eq_refl). clear Hwd.
  destruct (security.ExpandPath w d) as [workDir|e] eqn:E; [|discriminate].
  destruct (cli.flagMounts w false (cli.mount flags)) as [extra|e] eqn:F1;
    [|discriminate].
  destruct (cli.flagMounts w true (cli.mount_ro flags)) as [ro|e] eqn:F2;
    [|discriminate].
  destruct (credentials.CollectClaudeAuth w cfg) as [cm ce].
  destruct (cli.no_external_credentials flags); cbn [negb].
  - intros [= <-]. exists d, workDir, extra, ro. cbn [Mounts Security fst].
    split_and!; try reflexivity; [exact E| |discriminate].
    cbn [app]. rewrite <- !app_assoc, app_nil_r. reflexivity.
  - destruct (credentials.CollectExternalCredentials w cfg) as [[em ee]|e];
      [|discriminate].
    intros [= <-]. exists d, workDir, extra, ro. cbn [Mounts Security fst].
    split_and!; try reflexivity; [exact E|].
    cbn [app]. rewrite <- !app_assoc. reflexivity.
Qed.

Lemma Forall2_In_r {A B} (P : A → B → Prop) l k y :
  Forall2 P l k → In y k → ∃ x, In x l ∧ P x y.
Proof.
  induction 1 as [|x y' l k Hxy _ IH]; [intros []|].
  intros [<-|Hin]; [exists x; split; [left; reflexivity|exact Hxy]|].
  destruct (IH Hin) as (x' & ? & ?). exists x'. split; [right|]; assumption.
Qed.

Lemma Forall2_In_l {A B} (P : A → B → Prop) l k x :
  Forall2 P l k → In x l → ∃ y, In y k ∧ P x y.
Proof.
  induction 1 as [|x' y l k Hxy _ IH]; [intros []|].
  intros [<-|Hin]; [exists y; split; [left; reflexivity|exact Hxy]|].
  destruct (IH Hin) as (y' & ? & ?). exists y'. split; [right|]; assumption.
Qed.

Lemma sameOnBothSides_eq w readOnly m mt source :
  sameOnBothSides w readOnly m mt →
  security.ExpandPath w m = Ok source →
  mt = {| Source := source; Target := source; ReadOnly := readOnly |}.
Proof.
  intros (He & Ht & Hr & _) E. rewrite E in He. injection He as ->.
  destruct mt as [s t r]. cbn [Source Target ReadOnly] in *. congruence.
Qed.

(** The mounts of the --mount or --mount-ro loop. *)
Lemma flagMounts_In w readOnly ms mounts source target ro :
  cli.flagMounts w readOnly ms = Ok mounts →
  In {| Source := source; Target := target; ReadOnly := ro |} mounts
  ↔ target = source ∧ ro = readOnly
    ∧ security.ValidateMountPath w source = None
    ∧ ∃ m, In m ms ∧ security.ExpandPath w m = Ok source.
Proof.
  intros F. pose proof (flagMounts_Ok w readOnly ms mounts F) as H2. split.
  - intros Hin. destruct (Forall2_In_r _ _ _ _ H2 Hin) as (m & Hm & He & Ht & Hr & Hv).
    cbn [Source Target ReadOnly] in *. split_and!; auto. exists m. auto.
  - intros (-> & -> & Hv & m & Hm & He).
    destruct (Forall2_In_l _ _ _ _ H2 Hm) as (mt & Hin & Hs).
    rewrite <- (sameOnBothSides_eq _ _ _ _ _ Hs He). exact Hin.
Qed.

(** The mounts of the loop over the default mounts. *)
Lemma defaultMounts_In w dms source target ro :
  In {| Source := source; Target := target; ReadOnly := ro |}
     (cli.defaultMounts w dms)
  ↔ target = source
    ∧ security.ValidateMountPath w source = None
    ∧ ∃ dm, In dm dms ∧ config.ReadOnly dm = ro
            ∧ security.ExpandPath w (config.Path dm) = Ok source.
Proof.
  induction dms as [|dm dms IH]; cbn [cli.defaultMounts].
  - split; [intros []|intros (_ & _ & dm & [] & _)].
  - assert (Hskip :
      (∀ p, security.ExpandPath w (config.Path dm) = Ok p →
            security.ValidateMountPath w p ≠ None) →
      In {| Source := source; Target := target; ReadOnly := ro |}
         (cli.defaultMounts w dms)
      ↔ target = source
        ∧ security.ValidateMountPath w source = None
        ∧ ∃ dm', In dm' (dm :: dms) ∧ config.ReadOnly dm' = ro
                 ∧ security.ExpandPath w (config.Path dm') = Ok source).
    { intros Hno. rewrite IH. split.
      - intros (? & ? & dm' & ? & ?). split_and!; auto.
        exists dm'. split; [right|]; tauto.
      - intros (? & Hv & dm' & [<-|Hin] & Hr & He).
        + destruct (Hno _ He Hv).
        + split_and!; auto. exists dm'. auto. }
    destruct (security.ExpandPath w (config.Path dm)) as [p|e] eqn:E;
      [|apply Hskip; discriminate].
    destruct (security.ValidateMountPath w p) as [e|] eqn:V.
    { apply Hskip. intros ? [= <-]. rewrite V. discriminate. }
    clear Hskip. cbn [In]. rewrite IH. split.
    + intros [[= <- <- <-]|(? & ? & dm' & ? & ?)].
      * split_and!; auto. exists dm. split; [left; reflexivity|auto].
      * split_and!; auto. exists dm'. split; [right|]; tauto.
    + intros (-> & Hv & dm' & [<-|Hin] & Hr & He).
      * left. rewrite E in He. injection He as ->. rewrite Hr. reflexivity.
      * right. split_and!; auto. exists dm'. auto.
Qed.

(** The writable session mount of CollectClaudeAuth. *)
Lemma claude_mounts_In_mode w cfg source target :
  In {| Source := source; Target := target; ReadOnly := false |}
     (credentials.CollectClaudeAuth w cfg).1
  ↔ ∃ home,
      os.UserHomeDir w = Ok home
      ∧ (credentials.authMode cfg = config.AuthAuto
         ∨ credentials.authMode cfg = config.AuthSession)
      ∧ credentials.sessionDirMode cfg ≠ config.SessionNone
      ∧ credentials.sessionDirMode cfg ≠ config.SessionReadOnly
      ∧ security.DirExists w (filepath.Join [home; ".claude"]) = true
      ∧ source = filepath.Join [home; ".claude"]
      ∧ target = "/tmp/.claude".
Proof.
  unfold credentials.CollectClaudeAuth.
  destruct (os.UserHomeDir w) as [home|e];
    [|split; [intros []|intros (? & [=] & _)]].
  cbn [fst].
  destruct (String.eqb_spec (credentials.authMode cfg) config.AuthAuto) as [Ha|Ha];
    destruct (String.eqb_spec (credentials.authMode cfg) config.AuthSession) as [Hs|Hs];
    cbn [orb];
    try (destruct (String.eqb_spec (credentials.sessionDirMode cfg) config.SessionNone)
           as [Hn|Hn]; cbn [negb];
         [|destruct (security.DirExists w (filepath.Join [home; ".claude"])) eqn:D;
           [destruct (String.eqb_spec (credentials.sessionDirMode cfg)
                        config.SessionReadOnly) as [Hr|Hr]|]]);
    (split;
     [ cbn [In]; intros H;
       try (destruct H as [[= <- <-]|[]]; exists home; split_and!; auto; fail);
       try (destruct H as [H|[]]; discriminate H); try destruct H
     | intros (home' & [= <-] & Hmode & Hn' & Hr' & D' & -> & ->);
       try contradiction; try congruence; try tauto;
       try (left; reflexivity) ]).
Qed.

(** The same on the values of the configuration: the auth mode is unset,
    "auto" or "session", and session_dir is set and neither "none" nor
    "readonly". *)
Lemma claude_mounts_In w cfg source target :
  In {| Source := source; Target := target; ReadOnly := false |}
     (credentials.CollectClaudeAuth w cfg).1
  ↔ ∃ home,
      os.UserHomeDir w = Ok home
      ∧ (config.Auth (config.Claude cfg) = ""
         ∨ config.Auth (config.Claude cfg) = "auto"
         ∨ config.Auth (config.Claude cfg) = "session")
      ∧ config.SessionDir (config.Claude cfg) ≠ ""
      ∧ config.SessionDir (config.Claude cfg) ≠ "none"
      ∧ config.SessionDir (config.Claude cfg) ≠ "readonly"
      ∧ security.DirExists w (filepath.Join [home; ".claude"]) = true
      ∧ source = filepath.Join [home; ".claude"]
      ∧ target = "/tmp/.claude".
Proof.
  rewrite claude_mounts_In_mode.
  assert (Hauth : credentials.authMode cfg = config.AuthAuto
                  ∨ credentials.authMode cfg = config.AuthSession
                  ↔ config.Auth (config.Claude cfg) = ""
                    ∨ config.Auth (config.Claude cfg) = "auto"
                    ∨ config.Auth (config.Claude cfg) = "session").
  { unfold credentials.authMode.
    destruct (String.eqb_spec (config.Auth (config.Claude cfg)) "") as [E|E].
    - split; [auto|]. intros _. left. reflexivity.
    - split; [intros [H|H]; auto|]. intros [H|[H|H]]; [contradiction|auto..]. }
  assert (Hmode : credentials.sessionDirMode cfg ≠ config.SessionNone
                  ∧ credentials.sessionDirMode cfg ≠ config.SessionReadOnly
                  ↔ config.SessionDir (config.Claude cfg) ≠ ""
                    ∧ config.SessionDir (config.Claude cfg) ≠ "none"
                    ∧ config.SessionDir (config.Claude cfg) ≠ "readonly").
  { unfold credentials.sessionDirMode.
    destruct (String.eqb_spec (config.SessionDir (config.Claude cfg)) "") as [E|E].
    - split; [intros [_ H]; destruct H; reflexivity|intros [H _]; contradiction].
    - split; [intros [? ?]; auto|intros (_ & ? & ?); auto]. }
  split.
  - intros (home & Hh & Ha & Hn & Hr & Hd & Hs & Ht). exists home.
    destruct (proj1 Hmode (conj Hn Hr)) as (? & ? & ?).
    split_and!; auto. apply Hauth. exact Ha.
  - intros (home & Hh & Ha & Hset & Hn & Hr & Hd & Hs & Ht). exists home.
    destruct (proj2 Hmode (conj Hset (conj Hn Hr))) as (? & ?).
    split_and!; auto. apply Hauth. exact Ha.
Qed.

(** Before the SSH block every external credential mount is read-only. *)
Lemma gh_gcloud_readonly w home cfg :
  Forall (fun m => ReadOnly m = true)
    (credentials.collectGCloud w home (config.GCloud (config.Credentials cfg))
       (credentials.collectGitHub w home
          (config.GitHub (config.Credentials cfg))
          credentials.no_contribution)).1.
Proof.
  assert (Hgh : Forall (fun m => ReadOnly m = true)
            (credentials.collectGitHub w home
               (config.GitHub (config.Credentials cfg))
               credentials.no_contribution).1).
  { unfold credentials.collectGitHub, credentials.no_contribution.
    destruct (credentials.shouldEnable _ _ _); [|constructor].
    destruct (negb _); [constructor|].
    destruct (negb _); [constructor|].
    destruct (security.FileExists w _); repeat constructor. }
  destruct (credentials.collectGitHub w home _ _) as [mounts env].
  cbn [fst] in Hgh.
  destruct (String.eqb_spec (config.GCloud (config.Credentials cfg))
              config.CredentialDisabled) as [Hd|Hne].
  - unfold credentials.collectGCloud. rewrite Hd, shouldEnable_eq. exact Hgh.
  - rewrite (collectGCloud_eq w home _ mounts env Hne). cbn [fst].
    rewrite !Forall_app. split_and!; [exact Hgh| |].
    + destruct (security.FileExists w _); repeat constructor.
    + destruct (_ && _); repeat constructor.
Qed.

(** The writable mount of the external credentials: the agent socket. *)
Lemma external_mounts_In w cfg c source target :
  credentials.CollectExternalCredentials w cfg = Ok c →
  In {| Source := source; Target := target; ReadOnly := false |} c.1
  ↔ config.Enabled (config.SSH (config.Credentials cfg)) = true
    ∧ config.AgentForwarding (config.SSH (config.Credentials cfg)) = true
    ∧ os.Getenv w "SSH_AUTH_SOCK" ≠ ""
    ∧ source = os.Getenv w "SSH_AUTH_SOCK"
    ∧ target = "/tmp/ssh-agent.sock".
Proof.
  unfold credentials.CollectExternalCredentials.
  destruct (os.UserHomeDir w) as [home|e]; [|discriminate].
  pose proof (gh_gcloud_readonly w home cfg) as Hro.
  destruct (credentials.collectGCloud w home _ _) as [mounts env].
  cbn [fst] in Hro. rewrite Forall_forall in Hro.
  assert (Hnot : ¬ In {| Source := source; Target := target; ReadOnly := false |}
                   mounts).
  { intros Hin. apply list_elem_of_In in Hin. apply Hro in Hin. discriminate Hin. }
  unfold credentials.collectSSH.
  destruct (config.Enabled _).
  2:{ intros [= <-]. cbn [fst]. split; [contradiction|intros ([=] & _)]. }
  rewrite ssh_facts.collectSSHCredentials_eq. intros [= <-]. cbn [fst].
  pose proof (ssh_facts.sshKeyMounts_each w
                (config.Keys (config.SSH (config.Credentials cfg)))) as Hkeys.
  rewrite Forall_forall in Hkeys.
  rewrite !in_app_iff. split.
  - intros [Hin|[Hin|[Hin|Hin]]].
    + contradiction.
    + apply list_elem_of_In in Hin. destruct (Hkeys _ Hin) as [Hr _].
      discriminate Hr.
    + destruct (_ && _); [|destruct Hin]. destruct Hin as [Hin|[]].
      discriminate Hin.
    + destruct (config.AgentForwarding _); [|destruct Hin]. cbn [andb] in Hin.
      destruct (String.eqb_spec (os.Getenv w "SSH_AUTH_SOCK") "");
        [destruct Hin|].
      destruct Hin as [[= <- <-]|[]]. auto.
  - intros (_ & -> & Hs & -> & ->). right. right. right.
    destruct (String.eqb_spec (os.Getenv w "SSH_AUTH_SOCK") ""); [contradiction|].
    left. reflexivity.
Qed.

(** X23: what a run lets the container write on the host.  In the create
    request of a successful run the writable bind mounts are exactly: the
    working directory at /workspace, the --mount paths, the default mounts
    not marked read-only, the existing session directory ~/.claude when
    claude.session_dir is set to a value other than "none" and "readonly"
    (and claude.auth is unset, "auto" or "session"), and the SSH agent
    socket.  Every tmpfs mount is at /tmp, /run or /var/tmp, and is present
    only under a read-only root. *)
Theorem run_writable_mounts (w : World) (cfg : config.Config)
    (flags : cli.Flags) (args : list string) (opts : RunOptions)
    (eng : runner.Engine) (order : list (string * string)) (uid gid : Z)
    (cc : containerTypes.Config) (hc : containerTypes.HostConfig) :
  cli.runContainer w cfg flags args = Ok opts →
  create.request eng order uid gid opts = Ok (cc, hc) →
  (∀ source target,
     In {| mount.Typ := mount.TypeBind; mount.Source := source;
           mount.Target := target; mount.ReadOnly := false |}
        (containerTypes.Mounts hc)
     ↔ writableFor w cfg flags source target)
  ∧ (∀ m, In m (containerTypes.Mounts hc) → mount.Typ m = mount.TypeTmpfs →
          config.ReadOnlyRoot (config.Security cfg) = true
          ∧ mount.Source m = ""
          ∧ In (mount.Target m) ["/tmp"; "/run"; "/var/tmp"]).
Proof.
  intros Hrun Hreq.
  destruct (runContainer_Ok w cfg flags args opts Hrun)
    as (arg & workDir & extra & ro & Harg & Hwd & F1 & F2 & Hm & Hsec & Hext).
  unfold create.request in Hreq. rewrite Hm, Hsec in Hreq.
  cbn [ReadOnlyRoot CACerts] in Hreq.
  set (binds := map _ (_ :: _)) in Hreq.
  set (tmpfs := map _ ["/tmp"; "/run"; "/var/tmp"]) in Hreq.
  set (certs := cli.caCertPaths w _) in Hreq.
  set (certMounts := map _ certs) in Hreq.
  assert (Hmounts : containerTypes.Mounts hc
                    = binds
                      ++ (if config.ReadOnlyRoot (config.Security cfg)
                          then tmpfs else [])
                      ++ (if (0 <? length certs)%nat then certMounts else [])).
  { destruct (config.ReadOnlyRoot (config.Security cfg)),
      (0 <? length certs)%nat, (length certs =? 1)%nat,
      (negb (String.eqb (MemoryLimit opts) ""));
      try destruct (runner.RAMInBytes eng (MemoryLimit opts));
      try discriminate Hreq; injection Hreq as <- <-;
      cbn [containerTypes.Mounts]; rewrite <- ?app_assoc, ?app_nil_r;
      reflexivity. }
  clear Hreq. rewrite Hmounts. clear Hmounts.
  assert (Htmpfs : ∀ m, In m tmpfs →
            mount.Typ m = mount.TypeTmpfs ∧ mount.Source m = ""
            ∧ In (mount.Target m) ["/tmp"; "/run"; "/var/tmp"]).
  { intros m Hin. subst tmpfs. apply in_map_iff in Hin as (p & <- & Hp).
    cbn [mount.Typ mount.Source mount.Target]. auto. }
  assert (Hcerts : ∀ m, In m certMounts →
            mount.Typ m = mount.TypeBind ∧ mount.ReadOnly m = true).
  { intros m Hin. subst certMounts. apply in_map_iff in Hin as (p & <- & Hp).
    cbn [mount.Typ mount.ReadOnly]. auto. }
  assert (Hbinds : ∀ m, In m binds →
            mount.Typ m = mount.TypeBind
            ∧ In {| Source := mount.Source m; Target := mount.Target m;
                    ReadOnly := mount.ReadOnly m |}
                 ({| Source := workDir; Target := "/workspace";
                     ReadOnly := false |}
                  :: extra ++ ro
                  ++ cli.defaultMounts w (config.Defaults (config.Mounts cfg))
                  ++ (credentials.CollectClaudeAuth w cfg).1
                  ++ externalMounts w cfg flags)).
  { intros m Hin. subst binds. apply in_map_iff in Hin as ([s t r] & <- & Hp).
    cbn [mount.Typ mount.Source mount.Target mount.ReadOnly Source Target ReadOnly].
    auto. }
  split.
  - intros source target. rewrite !in_app_iff.
    transitivity (In {| Source := source; Target := target; ReadOnly := false |}
                     ({| Source := workDir; Target := "/workspace";
                         ReadOnly := false |}
                      :: extra ++ ro
                      ++ cli.defaultMounts w (config.Defaults (config.Mounts cfg))
                      ++ (credentials.CollectClaudeAuth w cfg).1
                      ++ externalMounts w cfg flags)).
    { split.
      - intros [Hin|[Hin|Hin]].
        + exact (proj2 (Hbinds _ Hin)).
        + destruct (config.ReadOnlyRoot _); [|destruct Hin].
          destruct (Htmpfs _ Hin) as [Ht _]. discriminate Ht.
        + destruct (0 <? length certs)%nat; [|destruct Hin].
          destruct (Hcerts _ Hin) as [_ Hr]. discriminate Hr.
      - intros Hin. left. subst binds. apply in_map_iff.
        exists {| Source := source; Target := target; ReadOnly := false |}.
        split; [reflexivity|exact Hin]. }
    cbn [In]. rewrite !in_app_iff.
    rewrite (flagMounts_In w false _ extra source target false F1).
    rewrite (flagMounts_In w true _ ro source target false F2).
    rewrite defaultMounts_In, claude_mounts_In.
    split.
    + intros [[= <- <-]|[H|[H|[H|[H|H]]]]].
      * eapply writable_workdir; eassumption.
      * destruct H as (-> & _ & Hv & m & Hin & He).
        eapply writable_flag; eassumption.
      * destruct H as (_ & [=] & _).
      * destruct H as (-> & Hv & dm & Hin & Hr & He).
        eapply writable_default; eassumption.
      * destruct H as (home & Hh & Hauth & Hset & Hn & Hr & Hd & -> & ->).
        eapply writable_session; eassumption.
      * unfold externalMounts in H.
        destruct (cli.no_external_credentials flags) eqn:Hno; [destruct H|].
        destruct (credentials.CollectExternalCredentials w cfg) as [c|e] eqn:C;
          [|destruct H].
        apply (external_mounts_In w cfg c source target C) in H
          as (He & Ha & Hs & -> & ->).
        apply writable_agent; assumption.
    + intros [arg' src Harg' Hwd'|m src Hin He Hv|dm src Hin Hr He Hv
             |home Hh Hauth Hset Hn Hr Hd|Hno He Ha Hs].
      * left. rewrite Harg in Harg'. injection Harg' as <-.
        rewrite Hwd in Hwd'. injection Hwd' as <-. reflexivity.
      * right. left. split_and!; auto. exists m. auto.
      * right. right. right. left. split_and!; auto. exists dm. auto.
      * right. right. right. right. left. exists home. split_and!; auto.
      * right. right. right. right. right. unfold externalMounts. rewrite Hno.
        specialize (Hext Hno).
        destruct (credentials.CollectExternalCredentials w cfg) as [c|e] eqn:C;
          [|discriminate Hext].
        apply (external_mounts_In w cfg c _ _ C). auto.
  - intros m Hin Ht. rewrite !in_app_iff in Hin.
    destruct Hin as [Hin|[Hin|Hin]].
    + destruct (Hbinds _ Hin) as [Hb _]. congruence.
    + destruct (config.ReadOnlyRoot _); [|destruct Hin].
      destruct (Htmpfs _ Hin) as (_ & ? & ?). auto.
    + destruct (0 <? length certs)%nat; [|destruct Hin].
      destruct (Hcerts _ Hin) as [Hb _]. congruence.
Qed.

Lemma run_writable_mounts_witness :
  (∃ opts cc hc,
     cli.runContainer host_files (cfg_ssh [] false true) no_flags [] = Ok opts
     ∧ create.request (engine_exit true 0) (map_to_list (Environment opts))
         1000 1000 opts = Ok (cc, hc)
     ∧ In {| mount.Typ := mount.TypeBind; mount.Source := "/run/agent.sock";
             mount.Target := "/tmp/ssh-agent.sock"; mount.ReadOnly := false |}
          (containerTypes.Mounts hc))
  ∧ (∃ opts cc hc,
       cli.runContainer host_files
         (cfg_with "" "readwrite" "disabled" "disabled") no_flags [] = Ok opts
       ∧ create.request (engine_exit true 0) (map_to_list (Environment opts))
           1000 1000 opts = Ok (cc, hc)
       ∧ In {| mount.Typ := mount.TypeBind; mount.Source := "/home/u/.claude";
               mount.Target := "/tmp/.claude"; mount.ReadOnly := false |}
            (containerTypes.Mounts hc))
  ∧ (∃ opts cc hc,
       cli.runContainer host_files
         (cfg_with "" "readonly" "disabled" "disabled") no_flags [] = Ok opts
       ∧ create.request (engine_exit true 0) (map_to_list (Environment opts))
           1000 1000 opts = Ok (cc, hc)
       ∧ ¬ In {| mount.Typ := mount.TypeBind; mount.Source := "/home/u/.claude";
                 mount.Target := "/tmp/.claude"; mount.ReadOnly := false |}
              (containerTypes.Mounts hc)).
Proof.
  split_and!.
  - destruct (cli.runContainer host_files (cfg_ssh [] false true) no_flags [])
      as [opts|e] eqn:E; [|vm_compute in E; discriminate E].
    destruct (create.request (engine_exit true 0)
                (map_to_list (Environment opts)) 1000 1000 opts)
      as [[cc hc]|e] eqn:R.
    + destruct (run_writable_mounts host_files (cfg_ssh [] false true)
                  no_flags [] opts (engine_exit true 0)
                  (map_to_list (Environment opts)) 1000 1000 cc hc E R)
        as [Hiff _].
      exists opts, cc, hc. split; [reflexivity|]. split; [exact R|].
      apply Hiff.
      exact (writable_agent host_files (cfg_ssh [] false true) no_flags
               eq_refl eq_refl eq_refl ltac:(discriminate)).
    + exfalso. pose proof E as E'. vm_compute in E'. injection E' as <-.
      vm_compute in R. discriminate R.
  - destruct (cli.runContainer host_files
                (cfg_with "" "readwrite" "disabled" "disabled") no_flags [])
      as [opts|e] eqn:E; [|vm_compute in E; discriminate E].
    destruct (create.request (engine_exit true 0)
                (map_to_list (Environment opts)) 1000 1000 opts)
      as [[cc hc]|e] eqn:R.
    + destruct (run_writable_mounts host_files
                  (cfg_with "" "readwrite" "disabled" "disabled")
                  no_flags [] opts (engine_exit true 0)
                  (map_to_list (Environment opts)) 1000 1000 cc hc E R)
        as [Hiff _].
      exists opts, cc, hc. split; [reflexivity|]. split; [exact R|].
      apply Hiff.
      exact (writable_session host_files
               (cfg_with "" "readwrite" "disabled" "disabled") no_flags
               "/home/u" eq_refl (or_introl eq_refl)
               ltac:(discriminate) ltac:(discriminate) ltac:(discriminate)
               eq_refl).
    + exfalso. pose proof E as E'. vm_compute in E'. injection E' as <-.
      vm_compute in R. discriminate R.
  - destruct (cli.runContainer host_files
                (cfg_with "" "readonly" "disabled" "disabled") no_flags [])
      as [opts|e] eqn:E; [|vm_compute in E; discriminate E].
    destruct (create.request (engine_exit true 0)
                (map_to_list (Environment opts)) 1000 1000 opts)
      as [[cc hc]|e] eqn:R.
    + destruct (run_writable_mounts host_files
                  (cfg_with "" "readonly" "disabled" "disabled")
                  no_flags [] opts (engine_exit true 0)
                  (map_to_list (Environment opts)) 1000 1000 cc hc E R)
        as [Hiff _].
      exists opts, cc, hc. split; [reflexivity|]. split; [exact R|].
      intros Hin. apply Hiff in Hin.
      inversion Hin;
        try match goal with
            | H : In _ (cli.mount no_flags) |- _ => solve [destruct H]
            | H : In _ (config.Defaults _) |- _ => solve [destruct H]
            | H : config.SessionDir _ ≠ "readonly" |- _ =>
                solve [apply H; reflexivity]
            end.
    + exfalso. pose proof E as E'. vm_compute in E'. injection E' as <-.
      vm_compute in R. discriminate R.
Defined.

End request_facts.

Module setup_facts.
Import filepath abspath abspath_facts rules rules_facts configcmd setup.

Lemma isAllowed_In value allowed : isAllowed value allowed = true ↔ In value allowed.
Proof.
  induction allowed as [|v rest IH]; cbn [isAllowed In]; [split; [discriminate|tauto]|].
  destruct (String.eqb_spec value v) as [->|Hne]; [tauto|].
  rewrite IH. split; [tauto|]. intros [E|H]; [congruence|exact H].
Qed.

Lemma validateConfigKey_None key value :
  validateConfigKey key value = None
  ↔ ∀ allowed, validations !! key = Some allowed → In value allowed.
Proof.
  unfold validateConfigKey. destruct (validations !! key) as [allowed|].
  - destruct (isAllowed value allowed) eqn:A.
    + split; [|reflexivity]. intros _ ? [= <-]. apply isAllowed_In. exact A.
    + split; [discriminate|]. intros H. specialize (H allowed eq_refl).
      apply isAllowed_In in H. congruence.
  - split; [discriminate|reflexivity].
Qed.

(** X27: `config set` checks the value only for five keys: claude.auth,
    claude.session_dir, credentials.github, credentials.gcloud and
    container.network take exactly their three values, compared as they are
    spelled; every other key passes with any value.  A rejection names the
    key, the value and the allowed values. *)
Theorem validateConfigKey_table (key value : string) :
  (validateConfigKey "claude.auth" value = None
   ↔ In value ["auto"; "session"; "api-key"])
  ∧ (validateConfigKey "claude.session_dir" value = None
     ↔ In value ["none"; "readonly"; "readwrite"])
  ∧ (validateConfigKey "credentials.github" value = None
     ↔ In value ["auto"; "enabled"; "disabled"])
  ∧ (validateConfigKey "credentials.gcloud" value = None
     ↔ In value ["auto"; "enabled"; "disabled"])
  ∧ (validateConfigKey "container.network" value = None
     ↔ In value ["bridge"; "none"; "host"])
  ∧ (¬ In key ["claude.auth"; "claude.session_dir"; "credentials.github";
               "credentials.gcloud"; "container.network"] →
     validateConfigKey key value = None)
  ∧ (∀ err, validateConfigKey key value = Some err →
       ∃ allowed,
         validations !! key = Some allowed
         ∧ ¬ In value allowed
         ∧ Error err = "invalid value for " +:+ key +:+ ": " +:+ value
                       +:+ " (allowed: " +:+ strings.Join allowed ", " +:+ ")").
Proof.
  assert (Hkey : ∀ k allowed, validations !! k = Some allowed →
            validateConfigKey k value = None ↔ In value allowed).
  { intros k allowed Hk. rewrite validateConfigKey_None, Hk. split.
    - intros H. apply H. reflexivity.
    - intros H ? [= <-]. exact H. }
  split_and!; try (apply Hkey; reflexivity).
  - intros Hnot. apply validateConfigKey_None. intros allowed.
    unfold validations.
    rewrite !lookup_insert_ne, lookup_singleton_ne; [discriminate|..];
      intros <-; apply Hnot; cbn [In]; tauto.
  - intros err. unfold validateConfigKey.
    destruct (validations !! key) as [allowed|]; [|discriminate].
    destruct (isAllowed value allowed) eqn:A; [discriminate|].
    intros [= <-]. exists allowed. split_and!; [reflexivity| |reflexivity].
    rewrite <- isAllowed_In. congruence.
Qed.

Lemma validateConfigKey_table_witness :
  validateConfigKey "claude.sessiondir" "read-write" = None
  ∧ validateConfigKey "claude.auth" "Auto" ≠ None.
Proof.
  destruct (validateConfigKey_table "claude.sessiondir" "read-write")
    as (_ & _ & _ & _ & _ & Hother & _).
  destruct (validateConfigKey_table "claude.auth" "Auto") as (Hauth & _).
  split.
  - apply Hother. cbn [In]. intros H.
    repeat (destruct H as [H|H]; [discriminate H|]). exact H.
  - intros H. apply Hauth in H. cbn [In] in H.
    repeat (destruct H as [H|H]; [discriminate H|]). exact H.
Defined.

Lemma Join_config_path (home : string) :
  home ≠ "" →
  filepath.Join [home; ".config"; "enclaude"; "config.yaml"]
  = filepath.Join [home; ".config/enclaude/config.yaml"].
Proof.
  intros Hne. cbn [filepath.Join].
  destruct (String.eqb_spec home ""); [contradiction|]. reflexivity.
Qed.

(** X28: the configuration file is ~/.config/enclaude/config.yaml; when the
    home directory is unknown the path is the relative
    .config/enclaude/config.yaml, taken from wherever the command runs.
    No deny rule covers the file: the strict check lets it be mounted. *)
Theorem getConfigPath_home (w : World) :
  (∀ esH, os.UserHomeDir w = Ok (absolute esH) →
          Forall (fun e => isName e = true) esH →
          getConfigPath w
          = absolute (esH ++ [list_ascii_of_string ".config";
                              list_ascii_of_string "enclaude";
                              list_ascii_of_string "config.yaml"])
          ∧ security.ValidateMountPathStrict w (getConfigPath w) = None)
  ∧ (is_Ok (os.UserHomeDir w) = false →
     getConfigPath w = ".config/enclaude/config.yaml"
     ∧ filepath.IsAbs (getConfigPath w) = false).
Proof.
  unfold getConfigPath. split.
  - intros esH Hhome HH. rewrite Hhome.
    assert (Hp : filepath.Join [absolute esH; ".config"; "enclaude"; "config.yaml"]
                 = absolute (esH ++ [list_ascii_of_string ".config";
                                     list_ascii_of_string "enclaude";
                                     list_ascii_of_string "config.yaml"])).
    { rewrite Join_config_path by discriminate.
      apply (Join_absolute esH [list_ascii_of_string ".config";
                                list_ascii_of_string "enclaude";
                                list_ascii_of_string "config.yaml"] HH);
        [repeat constructor|discriminate]. }
    rewrite Hp. split; [reflexivity|].
    apply (ValidateMountPathStrict_None w esH _ Hhome HH).
    + apply Forall_app. split; [exact HH|repeat constructor].
    + split; intros (rule & Hin & Hc); apply mount_facts.covers_prefix in Hc
        as [s Hs]; rewrite <- app_assoc in Hs; apply app_inv_head in Hs;
        cbn [In] in Hin;
        repeat (destruct Hin as [<-|Hin]; [discriminate Hs|]); exact Hin.
  - destruct (os.UserHomeDir w); [discriminate|]. intros _.
    split; reflexivity.
Qed.

Lemma getConfigPath_home_witness :
  getConfigPath host_configured = "/home/u/.config/enclaude/config.yaml"
  ∧ getConfigPath host_homeless = ".config/enclaude/config.yaml".
Proof.
  split.
  - exact (proj1 (proj1 (getConfigPath_home host_configured) home_u eq_refl
                    ltac:(repeat constructor))).
  - exact (proj1 (proj2 (getConfigPath_home host_homeless) eq_refl)).
Defined.

(** X26: what the wizard reports as detected is what CollectClaudeAuth uses
    in auto mode: a session is detected exactly when the session directory
    gets mounted (session_dir not "none"), and, with the home directory
    known, an API key is detected exactly when ANTHROPIC_API_KEY is passed
    on.  Without a home directory a detected API key is not passed on. *)
Theorem detectClaudeAuth_matches_collect (w : World) (cfg : config.Config) :
  credentials.authMode cfg = config.AuthAuto →
  credentials.sessionDirMode cfg ≠ config.SessionNone →
  (detected (detectClaudeAuth w) "session" = true
   ↔ (credentials.CollectClaudeAuth w cfg).1 ≠ [])
  ∧ (detected (detectClaudeAuth w) "api-key" = true
     ↔ os.Getenv w "ANTHROPIC_API_KEY" ≠ "")
  ∧ (is_Ok (os.UserHomeDir w) = true →
     (detected (detectClaudeAuth w) "api-key" = true
      ↔ (credentials.CollectClaudeAuth w cfg).2 ≠ ∅))
  ∧ (is_Ok (os.UserHomeDir w) = false →
     credentials.CollectClaudeAuth w cfg = credentials.no_contribution).
Proof.
  intros Hauth Hmode.
  unfold detectClaudeAuth, credentials.CollectClaudeAuth, detected.
  rewrite Hauth. cbn [String.eqb Ascii.eqb Bool.eqb orb].
  change (String.eqb config.AuthAuto config.AuthAuto) with true. cbn [orb].
  destruct (String.eqb_spec (credentials.sessionDirMode cfg) config.SessionNone)
    as [E|_]; [contradiction|]. cbn [negb].
  unfold security.DirExists, security.PathExists.
  assert (Hins : ∀ v : string, <["ANTHROPIC_API_KEY" := v]> (∅ : gmap string string) ≠ ∅).
  { intros v H. apply (f_equal (fun m => m !! "ANTHROPIC_API_KEY")) in H.
    rewrite lookup_insert_eq, lookup_empty in H. discriminate H. }
  destruct (String.eqb_spec (os.Getenv w "ANTHROPIC_API_KEY") "") as [Hk|Hk];
    cbn [negb];
    (destruct (os.UserHomeDir w) as [home|e]; cbn [is_Ok fst snd];
     [destruct (stat w (filepath.Join [home; ".claude"])) as [[|]|e'];
      cbn [Bool.eqb fst snd]|]);
    rewrite ?lookup_insert_eq, ?lookup_insert_ne, ?lookup_empty by discriminate;
    cbn [default]; unfold credentials.no_contribution; cbn [fst snd];
    split_and!; try (split; intro); try intro;
    try discriminate; try congruence; try reflexivity; try tauto;
    try (exfalso; eapply Hins; eassumption).
Qed.

Lemma detectClaudeAuth_matches_collect_witness :
  detected (detectClaudeAuth host_files) "session" = true
  ∧ (credentials.CollectClaudeAuth host_files (cfg_with "" "" "auto" "auto")).2 ≠ ∅
  ∧ detected (detectClaudeAuth host_homeless) "api-key" = true
  ∧ credentials.CollectClaudeAuth host_homeless (cfg_with "" "" "auto" "auto")
    = credentials.no_contribution.
Proof.
  destruct (detectClaudeAuth_matches_collect host_files
              (cfg_with "" "" "auto" "auto") eq_refl ltac:(discriminate))
    as (_ & _ & Hkey & _).
  destruct (detectClaudeAuth_matches_collect host_homeless
              (cfg_with "" "" "auto" "auto") eq_refl ltac:(discriminate))
    as (_ & _ & _ & Hnone).
  split; [reflexivity|]. split; [apply (Hkey eq_refl); reflexivity|].
  split; [reflexivity|]. exact (Hnone eq_refl).
Defined.

Section prompts.

Variable TrimSpace : string → string.
Variable ToLower : string → string.

Lemma selectAuthMethod_spec reader methods :
  In (selectAuthMethod TrimSpace reader methods).1 ["auto"; "api-key"; "session"]
  ∧ (selectAuthMethod TrimSpace reader methods).2 `suffix_of` reader.
Proof.
  induction reader as [|input reader [IHv IHs]]; cbn [selectAuthMethod].
  - split; [left; reflexivity|reflexivity].
  - repeat (destruct (String.eqb _ _);
            [split; [cbn; tauto|apply suffix_cons_r; reflexivity]|]).
    split; [exact IHv|apply suffix_cons_r; exact IHs].
Qed.

Lemma configureCredential_spec reader name defaultValue :
  In (configureCredential TrimSpace reader name defaultValue).1
     [defaultValue; "auto"; "enabled"; "disabled"]
  ∧ (configureCredential TrimSpace reader name defaultValue).2 `suffix_of` reader.
Proof.
  induction reader as [|input reader [IHv IHs]]; cbn [configureCredential].
  - split; [left; reflexivity|reflexivity].
  - repeat (destruct (String.eqb _ _);
            [split; [cbn; tauto|apply suffix_cons_r; reflexivity]|]).
    split; [exact IHv|apply suffix_cons_r; exact IHs].
Qed.

Lemma configureNetwork_spec reader :
  In (configureNetwork TrimSpace reader).1 ["bridge"; "host"; "none"]
  ∧ (configureNetwork TrimSpace reader).2 `suffix_of` reader.
Proof.
  induction reader as [|input reader [IHv IHs]]; cbn [configureNetwork].
  - split; [left; reflexivity|reflexivity].
  - repeat (destruct (String.eqb _ _);
            [split; [cbn; tauto|apply suffix_cons_r; reflexivity]|]).
    split; [exact IHv|apply suffix_cons_r; exact IHs].
Qed.

Lemma configureMemory_spec reader :
  ((configureMemory TrimSpace reader).1 = "4g"
   ∨ ∃ line, In line reader
             ∧ (configureMemory TrimSpace reader).1 = TrimSpace line
             ∧ (2 <= String.length (TrimSpace line))%nat
             ∧ (HasSuffix (TrimSpace line) "g" = true
                ∨ HasSuffix (TrimSpace line) "m" = true))
  ∧ (configureMemory TrimSpace reader).2 `suffix_of` reader.
Proof.
  induction reader as [|input reader [IHv IHs]]; cbn [configureMemory].
  - split; [left; reflexivity|reflexivity].
  - destruct (String.eqb _ _);
      [split; [left; reflexivity|apply suffix_cons_r; reflexivity]|].
    destruct (_ && _) eqn:Hok.
    + split; [|apply suffix_cons_r; reflexivity]. right. exists input.
      apply andb_prop in Hok as [Hlen Hsuf]. apply Nat.leb_le in Hlen.
      apply orb_prop in Hsuf. cbn [fst]. split_and!; auto. left. reflexivity.
    + split; [|apply suffix_cons_r; exact IHs].
      destruct IHv as [?|(line & ? & ?)]; [left; assumption|right].
      exists line. split; [right|]; tauto.
Qed.

Lemma confirm_spec reader prompt :
  ((confirm TrimSpace ToLower reader prompt).1 = true →
   ∃ line, In line reader ∧ saysYes TrimSpace ToLower line)
  ∧ (confirm TrimSpace ToLower reader prompt).2 `suffix_of` reader.
Proof.
  induction reader as [|input reader [IHv IHs]]; cbn [confirm].
  - split; [discriminate|reflexivity].
  - destruct (_ || _ || _);
      [split; [discriminate|apply suffix_cons_r; reflexivity]|].
    destruct (_ || _) eqn:Hy.
    + split; [|apply suffix_cons_r; reflexivity]. intros _. exists input.
      split; [left; reflexivity|]. unfold saysYes.
      apply orb_prop in Hy as [H|H]; apply String.eqb_eq in H; auto.
    + split; [|apply suffix_cons_r; exact IHs].
      intros H. destruct (IHv H) as (line & ? & ?). exists line.
      split; [right|]; assumption.
Qed.

Lemma suffix_In {A} (l k : list A) x : l `suffix_of` k → In x l → In x k.
Proof. intros [pre ->] H. apply in_or_app. right. exact H. Qed.

(** X24: whatever is typed, the settings that the wizard writes are ones
    that `config set` accepts: the auth mode, the two credential policies
    and the network mode pass validateConfigKey.  The memory limit is 4g or
    a trimmed input line of at least two bytes that ends in g or m. *)
Theorem wizard_writes_accepted_values (w : World)
    (MkdirAll WriteFile : option error) (reader : list string)
    (configPath configContent : string) :
  runSetup TrimSpace ToLower w MkdirAll WriteFile reader
  = wrote configPath configContent →
  configPath = getConfigPath w
  ∧ ∃ auth github gcloud sshEnabled memory network,
      configContent
      = generateConfig auth github gcloud sshEnabled memory network
      ∧ validateConfigKey "claude.auth" auth = None
      ∧ validateConfigKey "credentials.github" github = None
      ∧ validateConfigKey "credentials.gcloud" gcloud = None
      ∧ validateConfigKey "container.network" network = None
      ∧ (memory = "4g"
         ∨ ∃ line, In line reader ∧ memory = TrimSpace line
                   ∧ (2 <= String.length memory)%nat
                   ∧ (HasSuffix memory "g" = true
                      ∨ HasSuffix memory "m" = true)).
Proof.
  unfold runSetup.
  pose proof (selectAuthMethod_spec reader (detectClaudeAuth w)) as [Ha Sa].
  destruct (selectAuthMethod TrimSpace reader (detectClaudeAuth w)) as [auth r1].
  pose proof (configureCredential_spec r1 "GitHub" "auto") as [Hg Sg].
  destruct (configureCredential TrimSpace r1 "GitHub" "auto") as [github r2].
  pose proof (configureCredential_spec r2 "Google Cloud" "auto") as [Hc Sc].
  destruct (configureCredential TrimSpace r2 "Google Cloud" "auto") as [gcloud r3].
  unfold configureSSH.
  destruct (confirm TrimSpace ToLower r3 "Enable SSH credentials?")
    as [sshEnabled r4] eqn:Hssh.
  pose proof (confirm_spec r3 "Enable SSH credentials?") as [_ Ss].
  rewrite Hssh in Ss.
  pose proof (configureMemory_spec r4) as [Hm Sm].
  destruct (configureMemory TrimSpace r4) as [memory r5].
  pose proof (configureNetwork_spec r5) as [Hn Sn].
  destruct (configureNetwork TrimSpace r5) as [network r6].
  cbn [fst snd] in *.
  destruct (_ && _); [discriminate|].
  destruct MkdirAll; [discriminate|]. destruct WriteFile; [discriminate|].
  intros [= <- <-]. split; [reflexivity|].
  exists auth, github, gcloud, sshEnabled, memory, network.
  split; [reflexivity|].
  assert (Hall : ∀ k allowed v, validations !! k = Some allowed →
            In v allowed → validateConfigKey k v = None).
  { intros k allowed v Hk Hv. apply validateConfigKey_None.
    intros ? E. rewrite Hk in E. injection E as <-. exact Hv. }
  split_and!.
  - apply (Hall "claude.auth" _ _ eq_refl). cbn [In] in *. tauto.
  - apply (Hall "credentials.github" _ _ eq_refl). cbn [In] in *. tauto.
  - apply (Hall "credentials.gcloud" _ _ eq_refl). cbn [In] in *. tauto.
  - apply (Hall "container.network" _ _ eq_refl). cbn [In] in *. tauto.
  - destruct Hm as [?|(line & Hin & -> & ? & ?)]; [left; assumption|right].
    exists line. split_and!; auto.
    apply (suffix_In r4 reader); [|exact Hin].
    etrans; [exact Ss|]. etrans; [exact Sc|]. etrans; [exact Sg|]. exact Sa.
Qed.

(** X25: the wizard replaces an existing configuration file only after an
    explicit yes: if the file exists and the wizard writes, some input line
    is y or yes (trimmed, in any case).  It cancels only to protect an
    existing file, and does so whenever the input ends before the question
    is answered. *)
Theorem runSetup_overwrites_only_on_yes (w : World)
    (MkdirAll WriteFile : option error) (reader : list string) :
  (∀ configPath configContent,
     runSetup TrimSpace ToLower w MkdirAll WriteFile reader
     = wrote configPath configContent →
     is_Ok (stat w (getConfigPath w)) = true →
     ∃ line, In line reader ∧ saysYes TrimSpace ToLower line)
  ∧ (runSetup TrimSpace ToLower w MkdirAll WriteFile reader = cancelled →
     is_Ok (stat w (getConfigPath w)) = true)
  ∧ (is_Ok (stat w (getConfigPath w)) = true →
     (∀ line, In line reader → ¬ saysYes TrimSpace ToLower line) →
     runSetup TrimSpace ToLower w MkdirAll WriteFile reader = cancelled).
Proof.
  unfold runSetup.
  pose proof (selectAuthMethod_spec reader (detectClaudeAuth w)) as [_ Sa].
  destruct (selectAuthMethod TrimSpace reader (detectClaudeAuth w)) as [auth r1].
  pose proof (configureCredential_spec r1 "GitHub" "auto") as [_ Sg].
  destruct (configureCredential TrimSpace r1 "GitHub" "auto") as [github r2].
  pose proof (configureCredential_spec r2 "Google Cloud" "auto") as [_ Sc].
  destruct (configureCredential TrimSpace r2 "Google Cloud" "auto") as [gcloud r3].
  unfold configureSSH.
  destruct (confirm TrimSpace ToLower r3 "Enable SSH credentials?")
    as [sshEnabled r4] eqn:Hssh.
  pose proof (confirm_spec r3 "Enable SSH credentials?") as [_ Ss].
  rewrite Hssh in Ss.
  pose proof (configureMemory_spec r4) as [_ Sm].
  destruct (configureMemory TrimSpace r4) as [memory r5].
  pose proof (configureNetwork_spec r5) as [_ Sn].
  destruct (configureNetwork TrimSpace r5) as [network r6].
  cbn [fst snd] in *.
  assert (S6 : r6 `suffix_of` reader).
  { etrans; [exact Sn|]. etrans; [exact Sm|]. etrans; [exact Ss|].
    etrans; [exact Sc|]. etrans; [exact Sg|]. exact Sa. }
  pose proof (confirm_spec r6 "Do you want to overwrite it?") as [Hyes _].
  destruct (stat w (getConfigPath w)) as [b|e]; cbn [is_Ok andb].
  - destruct (confirm TrimSpace ToLower r6 "Do you want to overwrite it?").1
      eqn:Hc; cbn [negb].
    + split_and!.
      * intros ? ? _ _. destruct (Hyes eq_refl) as (line & Hin & Hy).
        exists line. split; [exact (suffix_In _ _ _ S6 Hin)|exact Hy].
      * reflexivity.
      * intros _ Hno. destruct (Hyes eq_refl) as (line & Hin & Hy).
        destruct (Hno line (suffix_In _ _ _ S6 Hin) Hy).
    + split_and!; [discriminate|reflexivity|reflexivity].
  - split_and!; [discriminate| |discriminate].
    destruct MkdirAll; [discriminate|]. destruct WriteFile; discriminate.
Qed.

End prompts.

Lemma wizard_writes_accepted_values_witness :
  ∃ content,
    runSetup trimSpaceASCII toLowerASCII host_homeless None None
      ["2"; "x"; "3"; ""; " YES "; "512m"; "3"]
    = wrote ".config/enclaude/config.yaml" content
    ∧ content = generateConfig "api-key" "disabled" "auto" true "512m" "none"
    ∧ validateConfigKey "claude.auth" "api-key" = None.
Proof.
  destruct (runSetup trimSpaceASCII toLowerASCII host_homeless None None
              ["2"; "x"; "3"; ""; " YES "; "512m"; "3"]) as [|p content|e] eqn:E;
    try (vm_compute in E; discriminate E).
  destruct (wizard_writes_accepted_values trimSpaceASCII toLowerASCII
              host_homeless None None _ p content E)
    as (-> & auth & github & gcloud & ssh & memory & network & Hc & Ha & _).
  exists content. split; [reflexivity|].
  vm_compute in E. injection E as <-.
  split; reflexivity.
Defined.

Lemma runSetup_overwrites_only_on_yes_witness :
  is_Ok (stat host_configured (getConfigPath host_configured)) = true
  ∧ runSetup trimSpaceASCII toLowerASCII host_configured None None
      ["1"; "1"; "1"; "n"; "4g"; "1"] = cancelled
  ∧ runSetup trimSpaceASCII toLowerASCII host_configured None None
      ["1"; "1"; "1"; "n"; "4g"; "1"; "yes please"] = cancelled.
Proof.
  split; [reflexivity|]. split.
  - apply (runSetup_overwrites_only_on_yes trimSpaceASCII toLowerASCII
             host_configured None None); [reflexivity|].
    intros line Hin [Hy|Hy]; cbn [In] in Hin;
      repeat (destruct Hin as [<-|Hin]; [vm_compute in Hy; discriminate Hy|]);
      exact Hin.
  - apply (runSetup_overwrites_only_on_yes trimSpaceASCII toLowerASCII
             host_configured None None); [reflexivity|].
    intros line Hin [Hy|Hy]; cbn [In] in Hin;
      repeat (destruct Hin as [<-|Hin]; [vm_compute in Hy; discriminate Hy|]);
      exact Hin.
Defined.

End setup_facts.
